(** * A poker bot: cards, deck, hand evaluator and Monte-Carlo tree search

    Shallow embedding of [proj2/deck.py], [proj2/eval.py] and [proj2/bot.py].

    Python objects that are mutated in place ([Deck] and [MCTSNode]) live in
    a store and are referred to through handles; exceptions are values of
    [outcome]; [random] and [time.time] read from tapes. *)

From Stdlib Require Import ZArith QArith Lia Ascii String Strings.Byte.
From stdpp Require Import base option list gmap strings.

Local Open Scope Z_scope.

(** ** Exceptions and outcomes *)

(** The text of a [ValueError], with the values the f-string interpolates. *)
Inductive message :=
| InvalidCardString (val : string)   (* f"Invalid card string: {val}" *)
| InvalidRank (r : ascii)            (* f"Invalid rank: {val[0]}" *)
| InvalidSuit (u : ascii)            (* f"Invalid suit: {val[1]}" *)
| InvalidCardValue (val : Z)         (* f"Invalid card value: {val}" *)
| InvalidCardType (ty : string)      (* f"{type(val)}" *)
| NotEnoughCards                     (* "Not enough cards in deck to deal" *)
| MustBe7Cards                       (* "Must be 7 cards to evaluate" *)
| HandsMustBe2Cards                  (* "Each hand must contain exactly 2 cards" *)
| BoardMustBe5Cards                  (* "Board must contain exactly 5 cards" *)
| MathDomainError.                   (* raised by math.log and math.sqrt *)

Inductive exn :=
| ValueError (msg : message)
| FileNotFoundError (fname : string)
| StructError                        (* struct.error: buffer of the wrong size *)
| IndexError.                        (* list index out of range *)

(** What running a piece of code gives: a value, a raised exception, or
    [Stuck] when the run leaves the model (a handle that refers to no object,
    or a loop that used up its fuel or its clock readings). *)
Inductive outcome (A : Type) :=
| Ok (a : A)
| Raise (e : exn)
| Stuck.
Arguments Ok {A} a.
Arguments Raise {A} e.
Arguments Stuck {A}.

Definition obind {A B} (m : outcome A) (k : A → outcome B) : outcome B :=
  match m with
  | Ok a => k a
  | Raise e => Raise e
  | Stuck => Stuck
  end.

Notation "x ←! m ; k" := (obind m (fun x => k))
  (at level 20, m at level 100, k at level 200, right associativity,
   format "x  ←!  m ;  '/' k").

Fixpoint omap {A B} (f : A → outcome B) (l : list A) : outcome (list B) :=
  match l with
  | [] => Ok []
  | x :: l' => y ←! f x; ys ←! omap f l'; Ok (y :: ys)
  end.

(** ** Python containers *)

(** [d.get(k)] on a dict kept in insertion order. *)
Fixpoint dict_get `{EqDecision K} {V} (k : K) (d : list (K * V)) : option V :=
  match d with
  | [] => None
  | (k', v) :: d' => if decide (k = k') then Some v else dict_get k d'
  end.

Definition dict_keys {K V} (d : list (K * V)) : list K := d.*1.
Definition dict_values {K V} (d : list (K * V)) : list V := d.*2.

(** [l[i]]: a negative index counts from the end, [None] is IndexError. *)
Definition py_getitem {A} (l : list A) (i : Z) : option A :=
  if 0 <=? i then l !! Z.to_nat i
  else if - Z.of_nat (length l) <=? i then l !! Z.to_nat (Z.of_nat (length l) + i)
  else None.

(** ** deck.py: Card *)

Record Card := { value : Z }.

Global Instance Card_eq_dec : EqDecision Card.
Proof. solve_decision. Defined.

Definition RANKS : list (ascii * Z) :=
  [("2", 0); ("3", 1); ("4", 2); ("5", 3); ("6", 4); ("7", 5); ("8", 6);
   ("9", 7); ("T", 8); ("J", 9); ("Q", 10); ("K", 11); ("A", 12)]%char.

Definition SUITS : list (ascii * Z) :=
  [("s", 0); ("h", 1); ("d", 2); ("c", 3)]%char.

(** What a caller may pass where a card is expected. *)
Inductive card_like :=
| OfStr (s : string)
| OfInt (z : Z)
| OfCard (c : Card)
| OfOther (ty : string).

Definition get_value (val : card_like) : outcome Z :=
  match val with
  | OfStr s =>
      match s with
      | String r (String u EmptyString) =>
          match dict_get r RANKS with
          | None => Raise (ValueError (InvalidRank r))
          | Some ri =>
              match dict_get u SUITS with
              | None => Raise (ValueError (InvalidSuit u))
              | Some si => Ok (ri * 4 + si + 1)
              end
          end
      | _ => Raise (ValueError (InvalidCardString s))
      end
  | OfInt z =>
      if negb ((1 <=? z) && (z <=? 52)) then Raise (ValueError (InvalidCardValue z))
      else Ok z
  | OfCard c => Ok (value c)
  | OfOther ty => Raise (ValueError (InvalidCardType ty))
  end.

(** [Card.__init__] *)
Definition Card_init (val : card_like) : outcome Card :=
  v ←! get_value val; Ok {| value := v |}.

(** [Card.__str__] *)
Definition Card_str (c : Card) : outcome string :=
  let adj_val := value c - 1 in
  match py_getitem (dict_keys RANKS) (adj_val / 4),
        py_getitem (dict_keys SUITS) (adj_val mod 4) with
  | Some rank, Some suit => Ok (String rank (String suit EmptyString))
  | _, _ => Raise IndexError
  end.

(** [Card.__eq__] and [Card.__hash__] look at the value only. *)
Definition Card_eq (a b : Card) : bool := value a =? value b.
Definition Card_hash (c : Card) : Z := value c.

(** A two-character code of a rank followed by a suit. *)
Definition valid_code (s : string) : bool :=
  match s with
  | String r (String u EmptyString) =>
      bool_decide (r ∈ dict_keys RANKS) && bool_decide (u ∈ dict_keys SUITS)
  | _ => false
  end.

(** ** deck.py: Deck *)

(** A [Deck] object has the one attribute [cards]; the objects live in the
    store of [State] below.  These are the list computations of its methods. *)

(** [Deck.__init__]: the cards suit by suit, each suit from 2 up to A. *)
Definition Deck_init_cards : outcome (list Card) :=
  omap (λ su, Card_init (OfStr (String su.2 (String su.1 EmptyString))))
       (su1 ← dict_keys SUITS; (λ r, (su1, r)) <$> dict_keys RANKS).

(** Where the slice bound [n] of [l[:n]] and [l[n:]] falls in a list of
    [len] items. *)
Definition slice_bound (len : nat) (n : Z) : nat :=
  if 0 <=? n then Nat.min (Z.to_nat n) len
  else Z.to_nat (Z.max (Z.of_nat len + n) 0).

(** [Deck.deal]: the cards dealt and the cards left. *)
Definition deal_cards (cards : list Card) (n : Z) : outcome (list Card * list Card) :=
  if Z.of_nat (length cards) <? n then Raise (ValueError NotEnoughCards)
  else
    let dealt := take (slice_bound (length cards) n) cards in
    let rest := drop (slice_bound (length cards) n) cards in
    Ok (dealt, rest).

(** [Deck.copy]: a fresh list with a fresh card for every card. *)
Definition copy_cards (cards : list Card) : outcome (list Card) :=
  omap (λ c, Card_init (OfInt (value c))) cards.

(** ** random *)

(** The random source is a tape of naturals; [randbelow n] reads the next
    one and reduces it below [n] (an empty tape reads 0). *)
Definition randbelow (n : nat) (tape : list nat) : nat * list nat :=
  match tape with
  | [] => (0%nat, [])
  | r :: tape' => ((r mod n)%nat, tape')
  end.

(** [x[i], x[j] = x[j], x[i]] *)
Definition swap {A} (x : list A) (i j : nat) : list A :=
  match x !! i, x !! j with
  | Some xi, Some xj => <[j := xi]> (<[i := xj]> x)
  | _, _ => x
  end.

(** [random.shuffle] of CPython:
    [for i in reversed(range(1, len(x))): j = randbelow(i + 1); swap i j]. *)
Fixpoint shuffle_from {A} (i : nat) (x : list A) (tape : list nat) : list A * list nat :=
  match i with
  | O => (x, tape)
  | S i' =>
      let '(j, tape') := randbelow (S i) tape in
      shuffle_from i' (swap x i j) tape'
  end.

Definition random_shuffle {A} (x : list A) (tape : list nat) : list A * list nat :=
  shuffle_from (length x - 1) x tape.

(** ** eval.py: HandEvaluator *)

Definition HAND_TYPES : list (Z * string) :=
  [(1, "High Card"); (2, "One Pair"); (3, "Two Pair"); (4, "Three of a Kind");
   (5, "Straight"); (6, "Flush"); (7, "Full House"); (8, "Four of a Kind");
   (9, "Straight Flush")]%string.

Record HandEvaluator := { hand_ranks : list Z }.

Definition byte_to_Z (b : byte) : Z := Z.of_N (Byte.to_N b).

(** One ['I'] item: four bytes, least significant first (the native order of
    the usual machines). *)
Definition u32_of_bytes (b0 b1 b2 b3 : byte) : Z :=
  byte_to_Z b0 + byte_to_Z b1 * 2^8 + byte_to_Z b2 * 2^16 + byte_to_Z b3 * 2^24.

Fixpoint unpack_items (count : nat) (data : list byte) : list Z :=
  match count, data with
  | S count', b0 :: b1 :: b2 :: b3 :: data' =>
      u32_of_bytes b0 b1 b2 b3 :: unpack_items count' data'
  | _, _ => []
  end.

(** [struct.unpack('I' * count, data)]: the buffer must hold exactly
    [4 * count] bytes. *)
Definition struct_unpack_I (count : nat) (data : list byte) : outcome (list Z) :=
  if bool_decide (length data = (4 * count)%nat) then Ok (unpack_items count data)
  else Raise StructError.

(** [HandEvaluator.__init__]; [fs] gives the content of the files that
    exist. *)
Definition HandEvaluator_init (fs : string → option (list byte)) (fname : string)
  : outcome HandEvaluator :=
  match fs fname with
  | None => Raise (FileNotFoundError fname)
  | Some data =>
      let getsize := length data in
      ranks ←! struct_unpack_I (getsize / 4)%nat data;
      Ok {| hand_ranks := ranks |}
  end.

(** [p = 53; for c in vals: p = self.hand_ranks[p + c]] *)
Fixpoint table_walk (table : list Z) (p : Z) (vals : list Z) : outcome Z :=
  match vals with
  | [] => Ok p
  | c :: vals' =>
      match py_getitem table (p + c) with
      | None => Raise IndexError
      | Some p' => table_walk table p' vals'
      end
  end.

(** (value, hand_rank, hand_type, hand_name) *)
Definition evaluation : Type := Z * Z * Z * string.

Definition evaluate_hand (self : HandEvaluator) (cards : list card_like)
  : outcome evaluation :=
  vals ←! omap get_value cards;
  if bool_decide (length vals ≠ 7%nat) then Raise (ValueError MustBe7Cards)
  else
    p ←! table_walk (hand_ranks self) 53 vals;
    let value := p in
    let hand_type := Z.shiftr value 12 in
    let hand_rank := Z.land value 4095 in
    let hand_name := default "Unknown"%string (dict_get hand_type HAND_TYPES) in
    Ok (value, hand_rank, hand_type, hand_name).

Definition compare_hands (self : HandEvaluator) (hand1 hand2 board : list card_like)
  : outcome (Z * evaluation * evaluation) :=
  if bool_decide (length hand1 ≠ 2%nat) || bool_decide (length hand2 ≠ 2%nat)
  then Raise (ValueError HandsMustBe2Cards)
  else if bool_decide (length board ≠ 5%nat)
  then Raise (ValueError BoardMustBe5Cards)
  else
    eval1 ←! evaluate_hand self (hand1 ++ board);
    eval2 ←! evaluate_hand self (hand2 ++ board);
    if eval2.1.1.1 <? eval1.1.1.1 then Ok (1, eval1, eval2)
    else if eval1.1.1.1 <? eval2.1.1.1 then Ok (-1, eval1, eval2)
    else Ok (0, eval1, eval2).

(** ** Floats *)

(** The float operations the search uses.  They are an interface: the
    development holds for every implementation of it, IEEE doubles among
    them, and states as hypotheses the few facts about them it needs. *)
Class Float := {
  float : Type;
  f_inf : float;                         (* float('inf') *)
  f_c : float;                           (* the literal 1.414 *)
  f_of_int : Z → float;                  (* an int used where a float is *)
  f_truediv : Z → Z → float;             (* int / int, the divisor not 0 *)
  f_div_int : float → Z → float;         (* float / int, the divisor not 0 *)
  f_log : Z → float;                     (* math.log of a positive int *)
  f_sqrt : float → float;                (* math.sqrt of a float not below 0 *)
  f_add : float → float → float;
  f_sub : float → float → float;
  f_mul : float → float → float;
  f_lt : float → float → bool;           (* x < y *)
  f_le : float → float → bool;           (* x <= y *)
}.

(** The hash of a tuple of two frozensets of cards.  A card hashes to its
    value and two cards are equal when their values are, so the hash is a
    function of the two sets of values. *)
Class TupleHash := { hash_frozensets : gset Z → gset Z → Z }.

(** A value handed back to the driver. *)
Inductive pyvalue `{Float} :=
| PyStr (s : string)
| PyNum (x : float)
| PyTuple (fst snd : pyvalue).        (* a tuple of two items *)

(** ** bot.py: the store *)

Record MCTSNode := {
  hand : list card_like;
  board : list card_like;
  parent : option nat;
  scenario : option (list Card * list Card);
  visits : Z;
  wins : Z;
  children : list (Z * nat);    (* scenario key ↦ child, in insertion order *)
}.

(** [MCTSNode.__init__] *)
Definition MCTSNode_init (hand board : list card_like) (parent : option nat)
    (scenario : option (list Card * list Card)) : MCTSNode :=
  {| hand := hand; board := board; parent := parent; scenario := scenario;
     visits := 0; wins := 0; children := [] |}.

(** The objects that exist, by handle, and what is left of the random tape. *)
Record State := {
  nodes : list MCTSNode;
  decks : list (list Card);
  rng : list nat;
}.

Definition set_nodes (t : list MCTSNode) (s : State) : State :=
  {| nodes := t; decks := decks s; rng := rng s |}.
Definition set_decks (d : list (list Card)) (s : State) : State :=
  {| nodes := nodes s; decks := d; rng := rng s |}.
Definition set_rng (r : list nat) (s : State) : State :=
  {| nodes := nodes s; decks := decks s; rng := r |}.

(** Code that reads and updates the store, and may raise: the store it
    leaves is kept when it raises too. *)
Definition M (A : Type) : Type := State → State * outcome A.

Definition ret {A} (a : A) : M A := λ s, (s, Ok a).
Definition lift {A} (o : outcome A) : M A := λ s, (s, o).
Definition bind {A B} (m : M A) (k : A → M B) : M B :=
  λ s, match m s with
       | (s', Ok a) => k a s'
       | (s', Raise e) => (s', Raise e)
       | (s', Stuck) => (s', Stuck)
       end.

Notation "x ←$ m ; k" := (bind m (fun x => k))
  (at level 20, m at level 100, k at level 200, right associativity,
   format "x  ←$  m ;  '/' k").

Definition get_node (i : nat) : M MCTSNode :=
  λ s, (s, from_option Ok Stuck (nodes s !! i)).
Definition put_node (i : nat) (n : MCTSNode) : M unit :=
  λ s, (set_nodes (<[i := n]> (nodes s)) s, Ok tt).
Definition new_node (n : MCTSNode) : M nat :=
  λ s, (set_nodes (nodes s ++ [n]) s, Ok (length (nodes s))).

Definition get_cards (d : nat) : M (list Card) :=
  λ s, (s, from_option Ok Stuck (decks s !! d)).
Definition put_cards (d : nat) (cards : list Card) : M unit :=
  λ s, (set_decks (<[d := cards]> (decks s)) s, Ok tt).
Definition new_deck (cards : list Card) : M nat :=
  λ s, (set_decks (decks s ++ [cards]) s, Ok (length (decks s))).

(** [Deck()] *)
Definition Deck_init : M nat :=
  cards ←$ lift Deck_init_cards; new_deck cards.

(** [Deck.shuffle] *)
Definition shuffle (self : nat) : M unit :=
  cards ←$ get_cards self;
  λ s, let '(cards', tape) := random_shuffle cards (rng s) in
       put_cards self cards' (set_rng tape s).

(** [Deck.deal] *)
Definition deal (self : nat) (n : Z) : M (list Card) :=
  cards ←$ get_cards self;
  dr ←$ lift (deal_cards cards n);
  _ ←$ put_cards self dr.2;
  ret dr.1.

(** [Deck.copy] *)
Definition copy (self : nat) : M nat :=
  deck ←$ Deck_init;
  cards ←$ get_cards self;
  cards' ←$ lift (copy_cards cards);
  _ ←$ put_cards deck cards';
  ret deck.

(** ** bot.py: MCTSNode and PokerBot *)

Record PokerBot := {
  bot_hand : list card_like;
  bot_board : list card_like;
  bot_deck : option nat;
  bot_evaluator : HandEvaluator;
  bot_root : nat;
}.

(** [PokerBot.__init__] *)
Definition PokerBot_init (hand board : list card_like) (deck : option nat)
    (evaluator : HandEvaluator) : M PokerBot :=
  root ←$ new_node (MCTSNode_init hand board None None);
  ret {| bot_hand := hand; bot_board := board; bot_deck := deck;
         bot_evaluator := evaluator; bot_root := root |}.

(** [PokerBot.generate_scenario] *)
Definition generate_scenario (self : PokerBot) : M (option (list Card * list Card)) :=
  match bot_deck self with
  | None => ret None
  | Some deck =>
      cards ←$ get_cards deck;
      if bool_decide (length cards = 0%nat) || bool_decide (length cards < 2)%nat
      then ret None
      else
        deck_copy ←$ copy deck;
        _ ←$ shuffle deck_copy;
        op_hand ←$ deal deck_copy 2;
        let needed := 5 - Z.of_nat (length (bot_board self)) in
        new_board ←$ (if 0 <? needed then deal deck_copy needed else ret []);
        ret (Some (op_hand, new_board))
  end.

Section Search.
Context `{Float} `{TupleHash}.

(** [math.log] and [math.sqrt] with their domain errors. *)
Definition math_log (x : Z) : outcome float :=
  if x <=? 0 then Raise (ValueError MathDomainError) else Ok (f_log x).
Definition math_sqrt (x : float) : outcome float :=
  if f_lt x (f_of_int 0) then Raise (ValueError MathDomainError) else Ok (f_sqrt x).

(** [MCTSNode.ucb1] *)
Definition ucb1 (t : list MCTSNode) (self : nat) (c : float) : outcome float :=
  match t !! self with
  | None => Stuck
  | Some n =>
      if visits n =? 0 then Ok f_inf
      else
        let exploitation := f_truediv (wins n) (visits n) in
        match parent n with
        | None => Ok exploitation
        | Some p =>
            match t !! p with
            | None => Stuck
            | Some pn =>
                l ←! math_log (visits pn);
                r ←! math_sqrt (f_div_int l (visits n));
                let exploration := f_mul c r in
                Ok (f_add exploitation exploration)
            end
        end
  end.

(** [max(rest, key=ucb1)] once [best], of key [kbest], is the maximum so
    far: a later item replaces it when its key is greater. *)
Fixpoint max_by_ucb1 (t : list MCTSNode) (c : float) (best : nat) (kbest : float)
    (rest : list nat) : outcome nat :=
  match rest with
  | [] => Ok best
  | x :: rest' =>
      kx ←! ucb1 t x c;
      if f_lt kbest kx then max_by_ucb1 t c x kx rest'
      else max_by_ucb1 t c best kbest rest'
  end.

(** [MCTSNode.select_child] *)
Definition select_child (t : list MCTSNode) (self : nat) (c : float) : outcome nat :=
  match t !! self with
  | None => Stuck
  | Some n =>
      match dict_values (children n) with
      | [] => Ok self
      | x :: rest => kx ←! ucb1 t x c; max_by_ucb1 t c x kx rest
      end
  end.

(** The loop of [PokerBot.select], run for at most [fuel] nodes. *)
Fixpoint select_loop (fuel : nat) (t : list MCTSNode) (node : nat) : outcome nat :=
  match fuel with
  | O => Stuck
  | S fuel' =>
      match t !! node with
      | None => Stuck
      | Some n =>
          if bool_decide (children n = []) then Ok node
          else node' ←! select_child t node f_c; select_loop fuel' t node'
      end
  end.

(** [PokerBot.select] *)
Definition select (self : PokerBot) : M nat :=
  λ s, (s, select_loop (length (nodes s)) (nodes s) (bot_root self)).

(** [hash((frozenset(scenario[0]), frozenset(scenario[1])))] *)
Definition scenario_key (scenario : list Card * list Card) : Z :=
  hash_frozensets (list_to_set (value <$> scenario.1))
                  (list_to_set (value <$> scenario.2)).

(** [PokerBot.expand] *)
Definition expand (self : PokerBot) (node : nat) : M nat :=
  sampled ←$ generate_scenario self;
  match sampled with
  | None => ret node
  | Some sc =>
      let key := scenario_key sc in
      n ←$ get_node node;
      match dict_get key (children n) with
      | Some child => ret child
      | None =>
          child ←$ new_node (MCTSNode_init (hand n) (board n) (Some node) (Some sc));
          _ ←$ put_node node
                {| hand := hand n; board := board n; parent := parent n;
                   scenario := scenario n; visits := visits n; wins := wins n;
                   children := children n ++ [(key, child)] |};
          ret child
      end
  end.

(** [PokerBot.simulate] *)
Definition simulate (self : PokerBot) (node : nat) : M Z :=
  n ←$ get_node node;
  sampled ←$ match scenario n with
             | None => generate_scenario self
             | Some sc => ret (Some sc)
             end;
  match sampled with
  | None => ret 0
  | Some (op_hand, new_board) =>
      cmp ←$ lift (compare_hands (bot_evaluator self) (bot_hand self)
                     (OfCard <$> op_hand)
                     (bot_board self ++ (OfCard <$> new_board)));
      let result := cmp.1.1 in
      ret (if result =? 1 then 1 else 0)
  end.

(** [node.visits += 1; node.wins += result] *)
Definition bump (result : Z) (n : MCTSNode) : MCTSNode :=
  {| hand := hand n; board := board n; parent := parent n;
     scenario := scenario n; visits := visits n + 1; wins := wins n + result;
     children := children n |}.

(** The loop of [PokerBot.backpropagate], run for at most [fuel] nodes. *)
Fixpoint backpropagate_loop (fuel : nat) (node : option nat) (result : Z) : M unit :=
  match node with
  | None => ret tt
  | Some i =>
      match fuel with
      | O => lift Stuck
      | S fuel' =>
          n ←$ get_node i;
          _ ←$ put_node i (bump result n);
          backpropagate_loop fuel' (parent n) result
      end
  end.

(** [PokerBot.backpropagate] *)
Definition backpropagate (self : PokerBot) (node : nat) (result : Z) : M unit :=
  λ s, backpropagate_loop (length (nodes s)) (Some node) result s.

(** The body of the loop of [PokerBot.search]. *)
Definition search_iteration (self : PokerBot) : M unit :=
  leaf ←$ select self;
  n ←$ get_node leaf;
  leaf ←$ (if 0 <? visits n then expand self leaf else ret leaf);
  result ←$ simulate self leaf;
  backpropagate self leaf result.

(** The loop of [PokerBot.search]; [ticks] are the readings [time.time()]
    gives at the head of the loop, one for each test. *)
Fixpoint search_loop (self : PokerBot) (start_time time_limit : float)
    (ticks : list float) (simulations : Z) : M Z :=
  match ticks with
  | [] => lift Stuck
  | now :: ticks' =>
      if f_lt (f_sub now start_time) time_limit then
        _ ←$ search_iteration self;
        search_loop self start_time time_limit ticks' (simulations + 1)
      else ret simulations
  end.

(** [PokerBot.search]; [clock] is the reading [time.time()] gives at the
    start and those at the head of the loop.  What the method prints is not
    modelled. *)
Definition search (self : PokerBot) (clock : list float) (time_limit : float)
  : M float :=
  match clock with
  | [] => lift Stuck
  | start_time :: ticks =>
      simulations ←$ search_loop self start_time time_limit ticks 0;
      root ←$ get_node (bot_root self);
      let win_prob :=
        if 0 <? visits root then f_truediv (wins root) (visits root)
        else f_of_int 0 in
      ret win_prob
  end.

(** [PokerBot.make_decision]; what it prints is not modelled. *)
Definition make_decision (self : PokerBot) (clock : list float)
    (time_limit threshold : float) : M pyvalue :=
  win_prob ←$ search self clock time_limit;
  let decision := if f_le threshold win_prob then "STAY"%string else "FOLD"%string in
  ret (PyStr decision).

End Search.

(** ** Vocabulary of the statements *)

(** The four bytes ['I'] packs an entry into, least significant first. *)
Definition byte_of_Z (z : Z) : byte := default x00 (Byte.of_N (Z.to_N z)).

Definition bytes_of_u32 (x : Z) : list byte :=
  [byte_of_Z (x mod 2^8); byte_of_Z ((x / 2^8) mod 2^8);
   byte_of_Z ((x / 2^16) mod 2^8); byte_of_Z ((x / 2^24) mod 2^8)].

Definition pack_items (items : list Z) : list byte :=
  items ≫= bytes_of_u32.

(** A card as the constructor leaves it. *)
Definition card_ok (c : Card) : Prop := 1 ≤ value c ≤ 52.

(** Every card of the input converts to a value. *)
Definition all_convert (cards : list card_like) : Prop :=
  Forall (λ c, ∃ v, get_value c = Ok v) cards.

(** The cards [Deck()] starts with. *)
Definition deck52 : list Card :=
  match Deck_init_cards with Ok l => l | _ => [] end.

(** What [generate_scenario] computes once the deck is known to hold at least
    2 cards, as a function of the cards of the deck, the length of the board
    and the random tape: the cards left in the copy, the tape left, and the
    outcome. *)
Definition sample (cards : list Card) (board_len : nat) (tape : list nat)
  : list Card * list nat * outcome (option (list Card * list Card)) :=
  match copy_cards cards with
  | Ok cards' =>
      let '(shuffled, tape') := random_shuffle cards' tape in
      match deal_cards shuffled 2 with
      | Ok (op_hand, rest) =>
          let needed := 5 - Z.of_nat board_len in
          if 0 <? needed then
            match deal_cards rest needed with
            | Ok (new_board, rest') => (rest', tape', Ok (Some (op_hand, new_board)))
            | Raise e => (rest, tape', Raise e)
            | Stuck => (rest, tape', Stuck)
            end
          else (rest, tape', Ok (Some (op_hand, [])))
      | Raise e => (shuffled, tape', Raise e)
      | Stuck => (shuffled, tape', Stuck)
      end
  | Raise e => (deck52, tape, Raise e)
  | Stuck => (deck52, tape, Stuck)
  end.

(** The number of board cards still to come. *)
Definition cards_needed (self : PokerBot) : Z :=
  Z.max 0 (5 - Z.of_nat (length (bot_board self))).

(** ** Vocabulary of the statements about the tree *)

(** The handles from [i] up through the parent links, as far as the root. *)
Fixpoint path_fuel (fuel : nat) (t : list MCTSNode) (i : nat) : list nat :=
  match fuel with
  | O => []
  | S fuel' =>
      match t !! i with
      | None => []
      | Some n => i :: match parent n with
                       | None => []
                       | Some p => path_fuel fuel' t p
                       end
      end
  end.

Definition path_to_root (t : list MCTSNode) (i : nat) : list nat :=
  path_fuel (S i) t i.

(** A parent is created before its children. *)
Definition parents_first (t : list MCTSNode) : Prop :=
  ∀ i n p, t !! i = Some n → parent n = Some p → (p < i)%nat.

(** What backpropagation leaves alone in a node. *)
Definition shape (n : MCTSNode)
  : list card_like * list card_like * option nat *
    option (list Card * list Card) * list (Z * nat) :=
  (hand n, board n, parent n, scenario n, children n).

(** The invariant of the tree: wins lie between 0 and visits, a parent is
    created before its child and is visited at least as often, and the
    children a node records are nodes that name it as their parent. *)
Record tree_inv (t : list MCTSNode) : Prop := {
  inv_counts : ∀ i n, t !! i = Some n → 0 ≤ wins n ≤ visits n;
  inv_parent : ∀ i n p, t !! i = Some n → parent n = Some p →
    (p < i)%nat ∧ ∃ pn, t !! p = Some pn ∧ visits n ≤ visits pn;
  inv_children : ∀ i n k c, t !! i = Some n → (k, c) ∈ children n →
    ∃ cn, t !! c = Some cn ∧ parent cn = Some i;
}.

Section SearchVocabulary.
Context `{Float} `{TupleHash}.

(** The UCB1 score of a visited child. *)
Definition ucb1_score (w v pv : Z) (c : float) : float :=
  f_add (f_truediv w v) (f_mul c (f_sqrt (f_div_int (f_log pv) v))).

(** The facts about floats the statements rest on. [<] is a strict order;
    the logarithm of a count that is at least 1, divided by a count that
    is at least 1, is not below 0; the score of a visited child is below
    infinity; and a quotient [w / v] with [0 ≤ w ≤ v] lies between 0 and 1. *)
Definition lt_strict_order : Prop :=
  (∀ x, f_lt x x = false) ∧
  (∀ x y z, f_lt x y = true → f_lt y z = true → f_lt x z = true).
Definition log_ratio_not_negative : Prop :=
  ∀ pv v, 1 ≤ v → 1 ≤ pv → f_lt (f_div_int (f_log pv) v) (f_of_int 0) = false.
Definition visited_score_finite : Prop :=
  ∀ w v pv, 0 ≤ w ≤ v → 1 ≤ v ≤ pv → f_lt (ucb1_score w v pv f_c) f_inf = true.
Definition ratio_in_unit_interval : Prop :=
  f_le (f_of_int 0) (f_of_int 0) = true ∧ f_le (f_of_int 0) (f_of_int 1) = true ∧
  ∀ w v, 0 ≤ w ≤ v → 0 < v →
    f_le (f_of_int 0) (f_truediv w v) = true ∧
    f_le (f_truediv w v) (f_of_int 1) = true.

(** [c] is one of the handles [cs] and no handle of [cs] scores above it. *)
Definition best_child (t : list MCTSNode) (cs : list nat) (c : nat) : Prop :=
  c ∈ cs ∧
  ∃ kc, ucb1 t c f_c = Ok kc ∧
    ∀ c', c' ∈ cs → ∃ k', ucb1 t c' f_c = Ok k' ∧ f_lt kc k' = false.

(** [leaf] is reached from [i] by going to a best child at every node that
    has children, and has none itself. *)
Inductive descends (t : list MCTSNode) : nat → nat → Prop :=
| descends_leaf i n :
    t !! i = Some n → children n = [] → descends t i i
| descends_child i n c leaf :
    t !! i = Some n → children n ≠ [] →
    best_child t (dict_values (children n)) c →
    descends t c leaf →
    descends t i leaf.

End SearchVocabulary.

(** ** A small implementation of the interfaces, to run the definitions *)

(** Rationals with an infinity; the logarithm is the integer logarithm in
    base 2 scaled by ln 2 and the square root is taken to three decimals. *)
Inductive qfloat := Fin (q : Q) | Inf.

Definition q_lift2 (f : Q → Q → Q) (x y : qfloat) : qfloat :=
  match x, y with
  | Fin a, Fin b => Fin (Qred (f a b))
  | _, _ => Inf
  end.

Definition q_ratio (a b : Z) : Q :=
  if b <? 0 then Qred (Qmake (- a) (Z.to_pos (- b))) else Qred (Qmake a (Z.to_pos b)).

Definition q_sqrt (q : Q) : Q :=
  Qred (Qmake (Z.sqrt (Qnum q * Zpos (Qden q) * 1000000)) (Qden q * 1000)).

Definition q_lt (x y : qfloat) : bool :=
  match x, y with
  | Fin a, Fin b => negb (Qle_bool b a)
  | Fin _, Inf => true
  | Inf, _ => false
  end.

Definition q_le (x y : qfloat) : bool :=
  match x, y with
  | Fin a, Fin b => Qle_bool a b
  | _, Inf => true
  | Inf, Fin _ => false
  end.

Global Instance qfloat_Float : Float := {|
  float := qfloat;
  f_inf := Inf;
  f_c := Fin (Qmake 707 500);
  f_of_int z := Fin (inject_Z z);
  f_truediv a b := Fin (q_ratio a b);
  f_div_int x b := match x with
                   | Fin q => Fin (Qred (Qmult q (q_ratio 1 b)))
                   | Inf => Inf
                   end;
  f_log z := Fin (Qred (Qmake (Z.log2 z * 693) 1000));
  f_sqrt x := match x with Fin q => Fin (q_sqrt q) | Inf => Inf end;
  f_add := q_lift2 Qplus;
  f_sub := q_lift2 Qminus;
  f_mul := q_lift2 Qmult;
  f_lt := q_lt;
  f_le := q_le;
|}.

Global Instance sum_TupleHash : TupleHash := {|
  hash_frozensets a b := set_fold Z.add 0 a * 1000003 + set_fold Z.add 0 b;
|}.

(** ** Stores and bots to run the definitions on *)

(** A table of 200 entries below 148, so that the walk of any 7 cards stays
    inside it.  It ranks no real hand. *)
Definition demo_table : list Z :=
  (λ i, (Z.of_nat i * 37 + 11) mod 148) <$> seq 0 200.

(** A file system with one table of two entries. *)
Definition two_entry_file (fname : string) : option (list byte) :=
  if decide (fname = "HandRanks.dat"%string)
  then Some [x2a; x00; x00; x00; x01; x02; x00; x00] else None.

(** A bot that holds two aces before the flop; its deck is the first of the
    store. *)
Definition demo_bot : PokerBot :=
  {| bot_hand := [OfStr "As"; OfStr "Ah"]; bot_board := []; bot_deck := Some 0%nat;
     bot_evaluator := {| hand_ranks := demo_table |}; bot_root := 0%nat |}.

Definition demo_tape : list nat :=
  [5; 1; 4; 2; 0; 3; 1; 1; 7; 2; 6; 3; 3; 0; 2; 1; 8; 8; 1; 5; 4; 2; 2; 0;
   3; 6; 0; 4; 1; 3; 1; 0; 6; 4; 5; 5; 2; 3; 0; 1]%nat.

(** A store whose deck holds two cards, and one whose deck holds nine. *)
Definition short_state : State :=
  {| nodes := []; decks := [[ {| value := 1 |}; {| value := 2 |} ]]; rng := demo_tape |}.
Definition nine_cards : list Card :=
  (λ v, {| value := v |}) <$> [3; 8; 13; 21; 22; 34; 40; 47; 52].
Definition nine_state : State :=
  {| nodes := []; decks := [nine_cards]; rng := demo_tape |}.

(** The store once the bot is created. *)
Definition fresh_state : State :=
  {| nodes := [MCTSNode_init [OfStr "As"; OfStr "Ah"] [] None None];
     decks := [nine_cards]; rng := demo_tape |}.

(** Two scenarios, and a root with a child for each, the first one visited. *)
Definition scenario_a : list Card * list Card :=
  ([ {| value := 3 |}; {| value := 8 |} ],
   [ {| value := 13 |}; {| value := 21 |}; {| value := 22 |}; {| value := 34 |};
     {| value := 40 |} ]).
Definition scenario_b : list Card * list Card :=
  ([ {| value := 47 |}; {| value := 52 |} ],
   [ {| value := 13 |}; {| value := 21 |}; {| value := 22 |}; {| value := 34 |};
     {| value := 40 |} ]).

Definition small_tree : list MCTSNode :=
  [ {| hand := [OfStr "As"; OfStr "Ah"]; board := []; parent := None;
       scenario := None; visits := 2; wins := 1;
       children := [(scenario_key scenario_a, 1%nat); (scenario_key scenario_b, 2%nat)] |};
    {| hand := [OfStr "As"; OfStr "Ah"]; board := []; parent := Some 0%nat;
       scenario := Some scenario_a; visits := 1; wins := 1; children := [] |};
    {| hand := [OfStr "As"; OfStr "Ah"]; board := []; parent := Some 0%nat;
       scenario := Some scenario_b; visits := 0; wins := 0; children := [] |} ].

Definition small_state : State :=
  {| nodes := small_tree; decks := [nine_cards]; rng := demo_tape |}.

(** Seven readings of the clock, a second apart. *)
Definition demo_clock : list float :=
  [Fin 0; Fin 1; Fin 2; Fin 3; Fin 4; Fin 5; Fin 6].

(** ** Further code: the rest of deck.py *)

(** [Card.__repr__] *)
Definition Card_repr (c : Card) : outcome string := Card_str c.

(** [Deck.__len__] *)
Definition Deck_len (self : nat) : M nat :=
  cards ←$ get_cards self; ret (length cards).

(** ** Vocabulary of the further statements *)

(** The cards of a deck are distinct cards the constructor can build. *)
Definition deck_ok (cards : list Card) : Prop := NoDup cards ∧ Forall card_ok cards.

(** Printing the card and reading the print gives the card back. *)
Definition prints_back (c : Card) : bool :=
  match Card_str c with
  | Ok code =>
      valid_code code &&
      match Card_init (OfStr code) with
      | Ok c' => bool_decide (c' = c)
      | _ => false
      end
  | _ => false
  end.

(** The values 1..52. *)
Definition all_values : list Z := Z.of_nat <$> seq 1 52.

(** Every entry of the table can be used as the index to which a card is
    added, and so can the start index 53. *)
Definition table_closed (table : list Z) : Prop :=
  105 < Z.of_nat (length table) ∧
  Forall (λ e, 0 ≤ e ∧ e + 52 < Z.of_nat (length table)) table.

(** The input converts to a value a card can have. *)
Definition converts_in_range (c : card_like) : Prop :=
  ∃ v, get_value c = Ok v ∧ 1 ≤ v ≤ 52.

(** Seven cards for the examples. *)
Definition seven_cards : list card_like :=
  [OfStr "As"; OfStr "Ah"; OfInt 3; OfInt 8; OfCard {| value := 13 |}; OfStr "Td";
   OfStr "2c"].

(** A table of 5000 entries below 4900, for the examples: every walk stays
    inside it, and its entries reach the types 0 and 1.  It ranks no real
    hand. *)
Definition wide_table : list Z :=
  (λ i, (Z.of_nat i * 7919 + 4099) mod 4900) <$> seq 0 5000.

(** A board of five cards for the examples. *)
Definition demo_board : list card_like :=
  [OfInt 3; OfInt 8; OfInt 13; OfInt 21; OfInt 22].

(** The decks of [s] are in [s'] with the same cards, and the tape of [s'] is
    what is left of the tape of [s] after some readings. *)
Definition decks_kept (s s' : State) : Prop :=
  (∀ d cards, decks s !! d = Some cards → decks s' !! d = Some cards) ∧
  ∃ k, rng s' = drop k (rng s).

(** The node [n'] is the node [n] with, possibly, more children after its
    own, more visits and more wins. *)
Definition node_grows (n n' : MCTSNode) : Prop :=
  hand n' = hand n ∧ board n' = board n ∧ parent n' = parent n ∧
  scenario n' = scenario n ∧ children n `prefix_of` children n' ∧
  visits n ≤ visits n' ∧ wins n ≤ wins n'.

(** Every node of [t] is in [t'], grown. *)
Definition tree_grows (t t' : list MCTSNode) : Prop :=
  ∀ i n, t !! i = Some n → ∃ n', t' !! i = Some n' ∧ node_grows n n'.

(** No node has two children. *)
Definition single_file (t : list MCTSNode) : Prop :=
  ∀ i n, t !! i = Some n → (length (children n) ≤ 1)%nat.

(** The bot has no deck, or its deck holds fewer than 2 cards. *)
Definition deck_exhausted (self : PokerBot) (s : State) : Prop :=
  match bot_deck self with
  | None => True
  | Some deck => ∃ cards, decks s !! deck = Some cards ∧ (length cards < 2)%nat
  end.

(** The deck of the bot holds valid cards, enough for the opponent's hand
    but not for the board as well. *)
Definition deck_short (self : PokerBot) (s : State) : Prop :=
  ∃ deck cards, bot_deck self = Some deck ∧ decks s !! deck = Some cards ∧
    Forall card_ok cards ∧
    2 ≤ Z.of_nat (length cards) < 2 + cards_needed self.

Section SearchCounts.
Context `{Float}.

(** How many times the loop of [search] runs its body: the readings at the
    head of the loop that come before the first one at which the time is
    up. *)
Fixpoint iterations_run (start_time time_limit : float) (ticks : list float) : nat :=
  match ticks with
  | [] => O
  | now :: ticks' =>
      if f_lt (f_sub now start_time) time_limit
      then S (iterations_run start_time time_limit ticks')
      else O
  end.

End SearchCounts.

(** The bot can play: its hand has 2 cards and its board at most 5, all of
    them cards of values 1..52, and its deck holds valid cards, enough for
    the opponent's hand and what the board still needs. *)
Definition bot_ready (self : PokerBot) (s : State) : Prop :=
  length (bot_hand self) = 2%nat ∧ (length (bot_board self) ≤ 5)%nat ∧
  Forall converts_in_range (bot_hand self ++ bot_board self) ∧
  ∃ deck cards, bot_deck self = Some deck ∧ decks s !! deck = Some cards ∧
    Forall card_ok cards ∧ 2 + cards_needed self ≤ Z.of_nat (length cards).

(** The scenarios of the nodes created since the root of the bot have an
    opponent's hand of 2 cards and the board cards the bot still needs, all
    of them valid cards. *)
Definition scenarios_sized (self : PokerBot) (t : list MCTSNode) : Prop :=
  ∀ i n op nb, (bot_root self ≤ i)%nat → t !! i = Some n →
    scenario n = Some (op, nb) →
    length op = 2%nat ∧ Z.of_nat (length nb) = cards_needed self ∧
    Forall card_ok (op ++ nb).

(** A clock with a reading at which the time of the search is up. *)
Definition clock_runs_out `{Float} (time_limit : float) (clock : list float) : Prop :=
  match clock with
  | [] => False
  | start_time :: ticks =>
      (iterations_run start_time time_limit ticks < length ticks)%nat
  end.

(** The tree of the store is well formed and the deck [deck] holds [cards]. *)
Definition table_set (s : State) (deck : nat) (cards : list Card) : Prop :=
  tree_inv (nodes s) ∧ decks s !! deck = Some cards.

(** ** main.py *)

(** How the script ends: with [exit(0)] after a FOLD, or after its last
    print, of which the line is kept. *)
Inductive main_end :=
| Exit (code : Z)
| LastLine (line : string).

Section Main.
Context `{Float} `{TupleHash}.

(** [decision == "FOLD"] *)
Definition is_FOLD (decision : pyvalue) : bool :=
  match decision with
  | PyStr d => bool_decide (d = "FOLD"%string)
  | _ => false
  end.

(** The script of main.py, run on a store.  [fs] is the file system,
    [half] the float 0.5 (the threshold [make_decision] takes when it is
    given none) and [clock1], [clock2], [clock3] are the readings of the
    clock during the three searches.  Of what the script prints only the
    last line is modelled. *)
Definition main (fs : string → option (list byte)) (half : float)
    (clock1 clock2 clock3 : list float) : M main_end :=
  evaluator ←$ lift (HandEvaluator_init fs "HandRanks.dat");
  deck ←$ Deck_init;
  _ ←$ shuffle deck;
  hand ←$ deal deck 2;
  op_hand ←$ deal deck 2;
  bot ←$ PokerBot_init (OfCard <$> hand) [] (Some deck) evaluator;
  decision ←$ make_decision bot clock1 (f_of_int 10) half;
  if is_FOLD decision then ret (Exit 0) else
  flop ←$ deal deck 3;
  bot ←$ PokerBot_init (OfCard <$> hand) (OfCard <$> flop) (Some deck) evaluator;
  decision ←$ make_decision bot clock2 (f_of_int 10) half;
  if is_FOLD decision then ret (Exit 0) else
  turn ←$ deal deck 1;
  bot ←$ PokerBot_init (OfCard <$> hand) (OfCard <$> (flop ++ turn)) (Some deck) evaluator;
  decision ←$ make_decision bot clock3 (f_of_int 10) half;
  if is_FOLD decision then ret (Exit 0) else
  river ←$ deal deck 1;
  compared ←$ lift (compare_hands evaluator (OfCard <$> hand) (OfCard <$> op_hand)
                      (OfCard <$> (flop ++ turn ++ river)));
  let '(result, my_eval, opp_eval) := compared in
  ret (LastLine
         (if result =? 1 then ("Bot WINS with " ++ my_eval.2)%string
          else if result =? -1 then ("Opponent WINS with " ++ opp_eval.2)%string
          else ("It's a TIE with " ++ my_eval.2)%string)).

End Main.

(** The line the script may print last. *)
Definition verdict (r : main_end) : Prop :=
  r = Exit 0 ∨
  ∃ hand_type, r = LastLine ("Bot WINS with " ++ hand_type)%string ∨
               r = LastLine ("Opponent WINS with " ++ hand_type)%string ∨
               r = LastLine ("It's a TIE with " ++ hand_type)%string.

(** A file system whose table is [demo_table]. *)
Definition demo_files (fname : string) : option (list byte) :=
  if decide (fname = "HandRanks.dat"%string) then Some (pack_items demo_table) else None.

(** Stores with a fresh root and a deck of one card and of two cards. *)
Definition one_card_state : State :=
  {| nodes := [MCTSNode_init [OfStr "As"; OfStr "Ah"] [] None None];
     decks := [[ {| value := 1 |} ]]; rng := demo_tape |}.
Definition two_card_state : State :=
  {| nodes := [MCTSNode_init [OfStr "As"; OfStr "Ah"] [] None None];
     decks := [[ {| value := 1 |}; {| value := 2 |} ]]; rng := demo_tape |}.

(** Four readings of the clock, four seconds apart. *)
Definition long_clock : list float := [Fin 0; Fin 4; Fin 8; Fin 12].

(** The bot [demo_bot] with the table [wide_table]. *)
Definition wide_bot : PokerBot :=
  {| bot_hand := [OfStr "As"; OfStr "Ah"]; bot_board := []; bot_deck := Some 0%nat;
     bot_evaluator := {| hand_ranks := wide_table |}; bot_root := 0%nat |}.

(** * Properties *)

(** ** Card: round trip and rejection (C8) *)

Lemma RANKS_index r ri : dict_get r RANKS = Some ri →
  0 ≤ ri ≤ 12 ∧ py_getitem (dict_keys RANKS) ri = Some r.
Proof.
  unfold RANKS; simpl; intros H.
  repeat (case_decide; [simplify_eq; split; [lia | reflexivity] |]).
  discriminate.
Qed.

Lemma SUITS_index u si : dict_get u SUITS = Some si →
  0 ≤ si ≤ 3 ∧ py_getitem (dict_keys SUITS) si = Some u.
Proof.
  unfold SUITS; simpl; intros H.
  repeat (case_decide; [simplify_eq; split; [lia | reflexivity] |]).
  discriminate.
Qed.

Lemma dict_get_None `{EqDecision K} {V} (k : K) (d : list (K * V)) :
  k ∉ dict_keys d → dict_get k d = None.
Proof.
  induction d as [|[k' v] d IH]; simpl; [done|].
  intros Hn. case_decide.
  - subst. exfalso. apply Hn. left.
  - apply IH. intros Hin. apply Hn. by right.
Qed.

Lemma dict_get_Some `{EqDecision K} {V} (k : K) (d : list (K * V)) :
  k ∈ dict_keys d → is_Some (dict_get k d).
Proof.
  induction d as [|[k' v] d IH]; simpl.
  - intros H. by apply elem_of_nil in H.
  - intros H. case_decide; [eauto|].
    apply IH. apply elem_of_cons in H as [?|?]; [done|done].
Qed.

(** C8. A valid code [rank ++ suit] builds the card of value
    [rank_index*4 + suit_index + 1], which lies in 1..52; printing that card
    gives the code back and building a card from the printed code gives an
    equal card.  Any other string, and any integer outside 1..52, is
    rejected with a ValueError. *)
Theorem card_code_roundtrip :
  (∀ r u ri si,
     dict_get r RANKS = Some ri → dict_get u SUITS = Some si →
     let code := String r (String u EmptyString) in
     let v := ri * 4 + si + 1 in
     Card_init (OfStr code) = Ok {| value := v |} ∧ 1 ≤ v ≤ 52 ∧
     Card_str {| value := v |} = Ok code ∧
     (c' ←! Card_init (OfStr code); s ←! Card_str c'; Card_init (OfStr s))
       = Card_init (OfStr code) ∧
     Card_init (OfInt v) = Ok {| value := v |}) ∧
  (∀ s, valid_code s = true →
     ∃ c, Card_init (OfStr s) = Ok c ∧ 1 ≤ value c ≤ 52) ∧
  (∀ s, valid_code s = false → ∃ m, Card_init (OfStr s) = Raise (ValueError m)) ∧
  (∀ z, ¬ (1 ≤ z ≤ 52) → Card_init (OfInt z) = Raise (ValueError (InvalidCardValue z))).
Proof.
  assert (Hvalid : ∀ r u ri si,
     dict_get r RANKS = Some ri → dict_get u SUITS = Some si →
     Card_init (OfStr (String r (String u EmptyString))) = Ok {| value := ri * 4 + si + 1 |} ∧
     1 ≤ ri * 4 + si + 1 ≤ 52 ∧
     Card_str {| value := ri * 4 + si + 1 |} = Ok (String r (String u EmptyString))).
  { intros r u ri si Hr Hu.
    destruct (RANKS_index _ _ Hr) as [Hri Hrk], (SUITS_index _ _ Hu) as [Hsi Hsk].
    split; [|split].
    - unfold Card_init, get_value. by rewrite Hr, Hu.
    - lia.
    - unfold Card_str; cbn [value].
      replace ((ri * 4 + si + 1 - 1) / 4) with ri
        by (Z.div_mod_to_equations; lia).
      replace ((ri * 4 + si + 1 - 1) mod 4) with si
        by (Z.div_mod_to_equations; lia).
      by rewrite Hrk, Hsk. }
  split; [|split; [|split]].
  - intros r u ri si Hr Hu code v.
    destruct (Hvalid _ _ _ _ Hr Hu) as (Hi & Hv & Hs).
    subst code v. repeat split; try lia; try done.
    + rewrite Hi. cbn [obind]. rewrite Hs. cbn [obind]. done.
    + unfold Card_init, get_value.
      replace (negb _) with false; [done|].
      symmetry. apply negb_false_iff, andb_true_iff. split; apply Z.leb_le; lia.
  - intros s Hs. destruct s as [|r [|u [|]]]; try discriminate.
    unfold valid_code in Hs. apply andb_true_iff in Hs as [Hr Hu].
    apply bool_decide_eq_true in Hr, Hu.
    destruct (dict_get_Some _ _ Hr) as [ri Hri], (dict_get_Some _ _ Hu) as [si Hsi].
    destruct (Hvalid _ _ _ _ Hri Hsi) as (Hi & Hv & _).
    eexists; split; [exact Hi | exact Hv].
  - intros s Hs. unfold Card_init, get_value.
    destruct s as [|r [|u [|]]]; try (eexists; reflexivity).
    unfold valid_code in Hs. apply andb_false_iff in Hs.
    destruct (dict_get r RANKS) as [ri|] eqn:Hr; [|eexists; reflexivity].
    destruct (dict_get u SUITS) as [si|] eqn:Hu; [|eexists; reflexivity].
    exfalso. destruct Hs as [Hs|Hs]; apply bool_decide_eq_false in Hs; apply Hs.
    + destruct (decide (r ∈ dict_keys RANKS)) as [|Hn]; [done|].
      apply dict_get_None in Hn. congruence.
    + destruct (decide (u ∈ dict_keys SUITS)) as [|Hn]; [done|].
      apply (dict_get_None (V:=Z)) in Hn. congruence.
  - intros z Hz. unfold Card_init, get_value.
    replace (negb _) with true; [done|].
    symmetry. apply negb_true_iff, andb_false_iff.
    destruct (Z.leb_spec 1 z); [right|by left]. apply Z.leb_gt. lia.
Qed.

Lemma card_code_roundtrip_witness :
  Card_init (OfStr "Td") = Ok {| value := 35 |} ∧ 1 ≤ 35 ≤ 52 ∧
  Card_str {| value := 35 |} = Ok "Td"%string ∧
  (∃ m, Card_init (OfStr "1s") = Raise (ValueError m)) ∧
  Card_init (OfInt 53) = Raise (ValueError (InvalidCardValue 53)).
Proof.
  destruct (proj1 card_code_roundtrip "T"%char "d"%char 8 2 eq_refl eq_refl)
    as (Hinit & Hrange & Hstr & _).
  split; [exact Hinit|]. split; [exact Hrange|]. split; [exact Hstr|]. split.
  - apply (proj1 (proj2 (proj2 card_code_roundtrip)) "1s"%string). reflexivity.
  - apply (proj2 (proj2 (proj2 card_code_roundtrip)) 53). lia.
Defined.

(** ** HandEvaluator: loading the table (C3) *)

Lemma byte_to_Z_range b : 0 ≤ byte_to_Z b < 2^8.
Proof.
  unfold byte_to_Z. pose proof (Byte.to_N_bounded b). lia.
Qed.

Lemma byte_of_to_Z b : byte_of_Z (byte_to_Z b) = b.
Proof.
  unfold byte_of_Z, byte_to_Z. by rewrite N2Z.id, Byte.of_to_N.
Qed.

Lemma u32_of_bytes_range b0 b1 b2 b3 : 0 ≤ u32_of_bytes b0 b1 b2 b3 < 2^32.
Proof.
  unfold u32_of_bytes.
  pose proof (byte_to_Z_range b0). pose proof (byte_to_Z_range b1).
  pose proof (byte_to_Z_range b2). pose proof (byte_to_Z_range b3).
  change (2^8) with 256 in *. change (2^16) with 65536.
  change (2^24) with 16777216. change (2^32) with 4294967296. lia.
Qed.

Lemma bytes_of_u32_of_bytes b0 b1 b2 b3 :
  bytes_of_u32 (u32_of_bytes b0 b1 b2 b3) = [b0; b1; b2; b3].
Proof.
  unfold bytes_of_u32, u32_of_bytes.
  pose proof (byte_to_Z_range b0). pose proof (byte_to_Z_range b1).
  pose proof (byte_to_Z_range b2). pose proof (byte_to_Z_range b3).
  change (2^8) with 256 in *. change (2^16) with 65536.
  change (2^24) with 16777216.
  set (z0 := byte_to_Z b0) in *. set (z1 := byte_to_Z b1) in *.
  set (z2 := byte_to_Z b2) in *. set (z3 := byte_to_Z b3) in *.
  replace ((z0 + z1 * 256 + z2 * 65536 + z3 * 16777216) mod 256) with z0
    by (Z.div_mod_to_equations; lia).
  replace (((z0 + z1 * 256 + z2 * 65536 + z3 * 16777216) / 256) mod 256) with z1
    by (Z.div_mod_to_equations; lia).
  replace (((z0 + z1 * 256 + z2 * 65536 + z3 * 16777216) / 65536) mod 256) with z2
    by (Z.div_mod_to_equations; lia).
  replace (((z0 + z1 * 256 + z2 * 65536 + z3 * 16777216) / 16777216) mod 256) with z3
    by (Z.div_mod_to_equations; lia).
  subst z0 z1 z2 z3. by rewrite !byte_of_to_Z.
Qed.

Lemma unpack_items_spec count : ∀ data,
  length data = (4 * count)%nat →
  length (unpack_items count data) = count ∧
  Forall (λ x, 0 ≤ x < 2^32) (unpack_items count data) ∧
  pack_items (unpack_items count data) = data.
Proof.
  induction count as [|count IH]; intros data Hlen.
  - destruct data; [|discriminate]. by repeat split.
  - destruct data as [|b0 [|b1 [|b2 [|b3 data]]]]; simpl in Hlen; try lia.
    destruct (IH data ltac:(lia)) as (Hl & Hr & Hp).
    cbn [unpack_items]. split; [|split].
    + simpl. by rewrite Hl.
    + constructor; [apply u32_of_bytes_range | done].
    + unfold pack_items in *. rewrite bind_cons, bytes_of_u32_of_bytes, Hp. done.
Qed.

(** C3. Building a HandEvaluator fails with FileNotFoundError when the file
    is missing and with struct.error when its size is not a multiple of 4;
    otherwise the table is the whole file, read as unsigned 32-bit entries:
    it has size/4 entries, each below 2^32, and packing them gives the
    bytes of the file back. *)
Theorem HandEvaluator_init_loads fs fname :
  (fs fname = None →
     HandEvaluator_init fs fname = Raise (FileNotFoundError fname)) ∧
  (∀ data, fs fname = Some data → (length data mod 4 ≠ 0)%nat →
     HandEvaluator_init fs fname = Raise StructError) ∧
  (∀ data, fs fname = Some data → (length data mod 4 = 0)%nat →
     ∃ ranks, HandEvaluator_init fs fname = Ok {| hand_ranks := ranks |} ∧
       length ranks = (length data / 4)%nat ∧
       Forall (λ x, 0 ≤ x < 2^32) ranks ∧
       pack_items ranks = data).
Proof.
  unfold HandEvaluator_init, struct_unpack_I. split; [|split].
  - by intros ->.
  - intros data -> Hmod. rewrite bool_decide_eq_false_2; [done|].
    intros Heq. apply Hmod. rewrite Heq.
    rewrite Nat.mul_comm. apply Nat.Div0.mod_mul.
  - intros data -> Hmod.
    assert (Hlen : length data = (4 * (length data / 4))%nat).
    { pose proof (Nat.div_mod_eq (length data) 4). lia. }
    rewrite bool_decide_eq_true_2 by done. cbn [obind].
    destruct (unpack_items_spec _ _ Hlen) as (Hl & Hr & Hp).
    eexists; repeat split; done.
Qed.

Lemma HandEvaluator_init_loads_witness :
  HandEvaluator_init two_entry_file "missing.dat" = Raise (FileNotFoundError "missing.dat") ∧
  ∃ ranks, HandEvaluator_init two_entry_file "HandRanks.dat" = Ok {| hand_ranks := ranks |} ∧
    length ranks = 2%nat ∧ Forall (λ x, 0 ≤ x < 2^32) ranks ∧
    pack_items ranks = [x2a; x00; x00; x00; x01; x02; x00; x00].
Proof.
  split.
  - apply (proj1 (HandEvaluator_init_loads two_entry_file "missing.dat")).
    reflexivity.
  - apply (proj2 (proj2 (HandEvaluator_init_loads two_entry_file "HandRanks.dat"))
             [x2a; x00; x00; x00; x01; x02; x00; x00]); reflexivity.
Defined.

(** ** HandEvaluator: input sizes (C7) *)

Lemma omap_length {A B} (f : A → outcome B) l l' :
  omap f l = Ok l' → length l' = length l.
Proof.
  revert l'. induction l as [|x l IH]; intros l' Hl; simpl in Hl.
  - by inversion Hl.
  - destruct (f x); try discriminate. simpl in Hl.
    destruct (omap f l); try discriminate. simpl in Hl.
    inversion Hl; subst. simpl. by rewrite (IH _ eq_refl).
Qed.

Lemma omap_all_Ok {A B} (f : A → outcome B) l :
  Forall (λ x, ∃ y, f x = Ok y) l → ∃ l', omap f l = Ok l'.
Proof.
  induction 1 as [|x l [y Hy] _ [l' Hl']]; simpl; [eauto|].
  rewrite Hy, Hl'. simpl. eauto.
Qed.

Lemma omap_not_Stuck {A B} (f : A → outcome B) l :
  (∀ x, f x ≠ Stuck) → omap f l ≠ Stuck.
Proof.
  intros Hf. induction l as [|x l IH]; simpl; [done|].
  specialize (Hf x). destruct (f x); simpl; try done.
  destruct (omap f l); simpl; done.
Qed.

Lemma get_value_fails val e : get_value val = Raise e → ∃ m, e = ValueError m.
Proof.
  destruct val as [s|z|c|ty]; unfold get_value.
  - destruct s as [|r [|u [|]]]; try (intros [= <-]; eauto).
    destruct (dict_get r RANKS); [|intros [= <-]; eauto].
    destruct (dict_get u SUITS); [done|intros [= <-]; eauto].
  - destruct (negb _); [intros [= <-]; eauto|done].
  - done.
  - intros [= <-]; eauto.
Qed.

Lemma get_value_not_Stuck val : get_value val ≠ Stuck.
Proof.
  destruct val as [s|z|c|ty]; unfold get_value; try done.
  - destruct s as [|r [|u [|]]]; try done.
    destruct (dict_get r RANKS); [|done]. by destruct (dict_get u SUITS).
  - by destruct (negb _).
Qed.

Lemma omap_Raise_first {A B} (f : A → outcome B) l e :
  omap f l = Raise e →
  ∃ pre x post, l = pre ++ x :: post ∧ Forall (λ y, ∃ v, f y = Ok v) pre ∧
    f x = Raise e.
Proof.
  induction l as [|a l IH]; simpl; [done|].
  destruct (f a) as [v|e'|] eqn:Ha; simpl; [| |done].
  - destruct (omap f l) as [vs|e'|]; simpl; [done| |done].
    intros [= <-]. destruct (IH eq_refl) as (pre & x & post & -> & Hpre & Hx).
    exists (a :: pre), x, post. split; [done|]. split; [|done].
    constructor; eauto.
  - intros [= <-]. exists [], a, l. by repeat split.
Qed.

Lemma omap_get_value_fails cards e :
  omap get_value cards = Raise e → ∃ m, e = ValueError m.
Proof.
  induction cards as [|c cards IH]; simpl; [done|].
  destruct (get_value c) eqn:Hc; simpl.
  - destruct (omap get_value cards); simpl; [done| |done].
    intros [= <-]. by apply IH.
  - intros [= <-]. by eapply get_value_fails.
  - done.
Qed.

(** C7 as the spec has it fails: a card that does not convert is reported
    before the size is looked at. *)
Lemma evaluate_hand_bad_card_first :
  length [OfStr "Xs"] ≠ 7%nat ∧
  evaluate_hand {| hand_ranks := [] |} [OfStr "Xs"] = Raise (ValueError (InvalidRank "X")) ∧
  evaluate_hand {| hand_ranks := [] |} [OfStr "Xs"] ≠ Raise (ValueError MustBe7Cards).
Proof. repeat split; [simpl; lia | discriminate]. Qed.

(** C7, amended. [evaluate_hand] fails with a ValueError on every input that
    does not have 7 cards: the size error when all its cards convert, and
    otherwise the conversion error of the first card that does not.
    [compare_hands] fails with a size error whenever a hand does not have 2
    cards or the board does not have 5. *)
Theorem evaluator_rejects_sizes self :
  (∀ cards, length cards ≠ 7%nat →
     (∃ m, evaluate_hand self cards = Raise (ValueError m)) ∧
     (all_convert cards → evaluate_hand self cards = Raise (ValueError MustBe7Cards)) ∧
     (¬ all_convert cards →
        ∃ pre c post m, cards = pre ++ c :: post ∧ all_convert pre ∧
          get_value c = Raise (ValueError m) ∧
          evaluate_hand self cards = Raise (ValueError m))) ∧
  (∀ hand1 hand2 board, length hand1 ≠ 2%nat ∨ length hand2 ≠ 2%nat →
     compare_hands self hand1 hand2 board = Raise (ValueError HandsMustBe2Cards)) ∧
  (∀ hand1 hand2 board, length hand1 = 2%nat → length hand2 = 2%nat →
     length board ≠ 5%nat →
     compare_hands self hand1 hand2 board = Raise (ValueError BoardMustBe5Cards)).
Proof.
  split; [|split].
  - intros cards Hlen. unfold evaluate_hand.
    destruct (omap get_value cards) as [vals|e|] eqn:Hv; cbn [obind].
    + apply omap_length in Hv as Hl.
      rewrite bool_decide_eq_true_2 by congruence.
      split; [eauto|]. split; [done|].
      intros Hn. exfalso. apply Hn. clear -Hv.
      revert vals Hv. induction cards as [|c cards IH]; intros vals Hv; [constructor|].
      simpl in Hv. destruct (get_value c) eqn:Hc; try discriminate. simpl in Hv.
      destruct (omap get_value cards); try discriminate.
      constructor; [eauto | by eapply IH].
    + destruct (omap_get_value_fails _ _ Hv) as [m ->].
      split; [eauto|]. split.
      * intros Hall. apply omap_all_Ok in Hall as [l' Hl']. congruence.
      * intros _. destruct (omap_Raise_first _ _ _ Hv) as (pre & c & post & ? & ? & ?).
        exists pre, c, post, m. by repeat split.
    + exfalso. revert Hv. apply omap_not_Stuck, get_value_not_Stuck.
  - intros hand1 hand2 board Hl. unfold compare_hands.
    destruct Hl as [Hl|Hl].
    + by rewrite (bool_decide_eq_true_2 _ Hl).
    + rewrite (bool_decide_eq_true_2 (length hand2 ≠ 2%nat) Hl). by rewrite orb_true_r.
  - intros hand1 hand2 board H1 H2 Hb. unfold compare_hands.
    rewrite !bool_decide_eq_false_2 by (intros Hn; by apply Hn). simpl.
    by rewrite (bool_decide_eq_true_2 _ Hb).
Qed.

Lemma evaluator_rejects_sizes_witness :
  (∃ m, evaluate_hand {| hand_ranks := [] |} [OfStr "As"; OfInt 7] = Raise (ValueError m)) ∧
  compare_hands {| hand_ranks := [] |} [OfStr "As"] [OfStr "Kd"; OfStr "Kc"] []
    = Raise (ValueError HandsMustBe2Cards) ∧
  compare_hands {| hand_ranks := [] |} [OfStr "As"; OfStr "Ah"] [OfStr "Kd"; OfStr "Kc"] []
    = Raise (ValueError BoardMustBe5Cards).
Proof.
  split; [|split].
  - apply (proj1 (evaluator_rejects_sizes {| hand_ranks := [] |})). simpl; lia.
  - apply (proj1 (proj2 (evaluator_rejects_sizes {| hand_ranks := [] |}))).
    left; simpl; lia.
  - apply (proj2 (proj2 (evaluator_rejects_sizes {| hand_ranks := [] |})));
      simpl; lia.
Defined.


(** ** The scenario sampler (C1) *)

Lemma Deck_init_cards_eq : Deck_init_cards = Ok deck52.
Proof. vm_compute. reflexivity. Qed.

Lemma insert_last {A} (l : list A) x y : <[length l := x]> (l ++ [y]) = l ++ [x].
Proof. rewrite insert_app_r_alt by lia. by rewrite Nat.sub_diag. Qed.

Lemma lookup_last {A} (l : list A) x : (l ++ [x]) !! length l = Some x.
Proof. rewrite lookup_app_r by lia. by rewrite Nat.sub_diag. Qed.

(** Brings a store built by the setters to a record of its three parts. *)
Ltac norm_state := cbn [set_decks set_rng set_nodes decks nodes rng fst snd from_option].

Lemma copy_run s d cards :
  decks s !! d = Some cards →
  copy d s =
    match copy_cards cards with
    | Ok cards' => (set_decks (decks s ++ [cards']) s, Ok (length (decks s)))
    | Raise e => (set_decks (decks s ++ [deck52]) s, Raise e)
    | Stuck => (set_decks (decks s ++ [deck52]) s, Stuck)
    end.
Proof.
  intros Hd. unfold copy, Deck_init, bind, lift, new_deck, get_cards, put_cards, ret.
  rewrite Deck_init_cards_eq. norm_state.
  rewrite (lookup_app_l_Some _ _ _ _ Hd). norm_state.
  destruct (copy_cards cards); [|done|done].
  norm_state. by rewrite insert_last.
Qed.

Lemma shuffle_run s d cards :
  decks s !! d = Some cards →
  shuffle d s =
    ({| nodes := nodes s; decks := <[d := (random_shuffle cards (rng s)).1]> (decks s);
        rng := (random_shuffle cards (rng s)).2 |}, Ok tt).
Proof.
  intros Hd. unfold shuffle, bind, get_cards, put_cards. rewrite Hd. norm_state.
  by destruct (random_shuffle cards (rng s)).
Qed.

Lemma deal_run s d cards n :
  decks s !! d = Some cards →
  deal d n s =
    match deal_cards cards n with
    | Ok dr => (set_decks (<[d := dr.2]> (decks s)) s, Ok dr.1)
    | Raise e => (s, Raise e)
    | Stuck => (s, Stuck)
    end.
Proof.
  intros Hd. unfold deal, bind, lift, get_cards, put_cards, ret. rewrite Hd.
  norm_state. by destruct (deal_cards cards n).
Qed.

Lemma generate_scenario_eq self s deck cards :
  bot_deck self = Some deck → decks s !! deck = Some cards →
  (2 ≤ length cards)%nat →
  generate_scenario self s =
    let '(rest, tape, r) := sample cards (length (bot_board self)) (rng s) in
    ({| nodes := nodes s; decks := decks s ++ [rest]; rng := tape |}, r).
Proof.
  intros Hd Hc Hlen. unfold generate_scenario, sample. rewrite Hd.
  unfold bind at 1. unfold get_cards at 1. rewrite Hc. norm_state.
  rewrite !bool_decide_eq_false_2 by lia. cbn [orb].
  unfold bind at 1. rewrite (copy_run _ _ _ Hc).
  destruct (copy_cards cards) as [cards'|e|]; [|done|done].
  unfold bind at 1. erewrite shuffle_run by (norm_state; apply lookup_last).
  norm_state. rewrite insert_last.
  destruct (random_shuffle cards' (rng s)) as [shuffled tape'].
  unfold bind at 1. erewrite deal_run by (norm_state; apply lookup_last).
  destruct (deal_cards shuffled 2) as [[op_hand rest]|e|]; [|done|done].
  norm_state. rewrite insert_last.
  destruct (0 <? 5 - Z.of_nat (length (bot_board self))).
  - unfold bind at 1. erewrite deal_run by (norm_state; apply lookup_last).
    destruct (deal_cards rest _) as [[new_board rest']|e|]; [|done|done].
    norm_state. rewrite insert_last. done.
  - done.
Qed.

(** The sampler as a function of the store. *)
Lemma generate_scenario_run self s :
  generate_scenario self s =
    match bot_deck self with
    | None => (s, Ok None)
    | Some deck =>
        match decks s !! deck with
        | None => (s, Stuck)
        | Some cards =>
            if decide (length cards < 2)%nat then (s, Ok None)
            else
              let '(rest, tape, r) := sample cards (length (bot_board self)) (rng s) in
              ({| nodes := nodes s; decks := decks s ++ [rest]; rng := tape |}, r)
        end
    end.
Proof.
  destruct (bot_deck self) as [deck|] eqn:Hd; [|unfold generate_scenario; by rewrite Hd].
  destruct (decks s !! deck) as [cards|] eqn:Hc;
    [|unfold generate_scenario, bind, get_cards; by rewrite Hd, Hc].
  case_decide as Hlen; [|apply (generate_scenario_eq _ _ deck); [done..|lia]].
  unfold generate_scenario, bind, get_cards. rewrite Hd, Hc. norm_state.
  rewrite (bool_decide_eq_true_2 (length cards < 2)%nat) by done.
  by rewrite orb_true_r.
Qed.

(** The sampler leaves the tree alone. *)
Lemma generate_scenario_nodes self s : nodes (generate_scenario self s).1 = nodes s.
Proof.
  rewrite generate_scenario_run.
  destruct (bot_deck self); [|done]. destruct (decks s !! _); [|done].
  case_decide; [done|]. by destruct (sample _ _ _) as [[? ?] ?].
Qed.

Lemma swap_insert_head {A} (x : list A) j a b :
  x !! j = Some b → b :: <[j := a]> x ≡ₚ a :: x.
Proof.
  revert j. induction x as [|c x IH]; intros [|j] Hj; simplify_eq/=.
  - apply perm_swap.
  - rewrite perm_swap. rewrite (IH _ Hj). apply perm_swap.
Qed.

Lemma swap_Permutation {A} (x : list A) i j : swap x i j ≡ₚ x.
Proof.
  unfold swap. revert i j. induction x as [|a x IH]; intros i j.
  - by destruct i, j.
  - destruct i as [|i], j as [|j]; simpl.
    + done.
    + destruct (x !! j) as [b|] eqn:Hj; [|done]. simpl.
      by apply swap_insert_head.
    + destruct (x !! i) as [b|] eqn:Hi; [|done]. simpl.
      by apply swap_insert_head.
    + specialize (IH i j).
      destruct (x !! i), (x !! j); simpl; try done. by constructor.
Qed.

Lemma shuffle_from_Permutation {A} i : ∀ (x : list A) tape,
  (shuffle_from i x tape).1 ≡ₚ x.
Proof.
  induction i as [|i IH]; intros x tape; [done|].
  cbn [shuffle_from].
  destruct (randbelow (S (S i)) tape) as [j tape'].
  rewrite IH. apply swap_Permutation.
Qed.

Lemma random_shuffle_Permutation {A} (x : list A) tape :
  (random_shuffle x tape).1 ≡ₚ x.
Proof. apply shuffle_from_Permutation. Qed.

Lemma copy_cards_ok cards : Forall card_ok cards → copy_cards cards = Ok cards.
Proof.
  unfold copy_cards. induction 1 as [|[v] cards Hc _ IH]; [done|].
  cbn [omap]. rewrite IH. unfold Card_init, get_value, card_ok in *.
  cbn [value] in *.
  replace (negb _) with false; [done|].
  symmetry. apply negb_false_iff, andb_true_iff. split; apply Z.leb_le; lia.
Qed.

Lemma deal_cards_enough cards n :
  0 ≤ n ≤ Z.of_nat (length cards) →
  deal_cards cards n = Ok (take (Z.to_nat n) cards, drop (Z.to_nat n) cards).
Proof.
  intros Hn. unfold deal_cards, slice_bound.
  destruct (Z.ltb_spec (Z.of_nat (length cards)) n); [lia|].
  destruct (Z.leb_spec 0 n); [|lia].
  by rewrite Nat.min_l by lia.
Qed.

Lemma sample_not_None cards bl tape : (sample cards bl tape).2 ≠ Ok None.
Proof.
  unfold sample. destruct (copy_cards cards); [|done|done].
  destruct (random_shuffle _ _) as [sh tape'].
  destruct (deal_cards sh 2) as [[op rest]|e|]; [|done|done].
  destruct (0 <? _); [|done].
  by destruct (deal_cards rest _) as [[nb rest']|e|].
Qed.

Lemma sample_enough cards bl tape :
  Forall card_ok cards →
  2 + Z.max 0 (5 - Z.of_nat bl) ≤ Z.of_nat (length cards) →
  ∃ op_hand new_board rest,
    (sample cards bl tape).2 = Ok (Some (op_hand, new_board)) ∧
    length op_hand = 2%nat ∧
    Z.of_nat (length new_board) = Z.max 0 (5 - Z.of_nat bl) ∧
    op_hand ++ new_board ++ rest ≡ₚ cards.
Proof.
  intros Hok Hlen. unfold sample. rewrite (copy_cards_ok _ Hok).
  pose proof (random_shuffle_Permutation cards tape) as Hperm.
  destruct (random_shuffle cards tape) as [sh tape']. cbn [fst] in Hperm.
  assert (Hsh : length sh = length cards) by by rewrite Hperm.
  rewrite (deal_cards_enough sh 2) by lia.
  destruct (Z.ltb_spec 0 (5 - Z.of_nat bl)).
  - rewrite deal_cards_enough by (rewrite length_drop; lia).
    eexists _, _, _; split; [reflexivity|]. split; [|split].
    + rewrite length_take. lia.
    + rewrite length_take, length_drop. lia.
    + rewrite take_drop, take_drop. done.
  - exists (take (Z.to_nat 2) sh), [], (drop (Z.to_nat 2) sh).
    split; [reflexivity|]. split; [|split].
    + rewrite length_take. lia.
    + simpl. lia.
    + simpl. by rewrite take_drop.
Qed.

(** With the opponent's 2 cards in the deck but not the cards the board
    needs, the second [deal] raises. *)
Lemma sample_short cards bl tape :
  Forall card_ok cards →
  2 ≤ Z.of_nat (length cards) < 2 + Z.max 0 (5 - Z.of_nat bl) →
  (sample cards bl tape).2 = Raise (ValueError NotEnoughCards).
Proof.
  intros Hok Hlen. unfold sample. rewrite (copy_cards_ok _ Hok).
  pose proof (random_shuffle_Permutation cards tape) as Hperm.
  destruct (random_shuffle cards tape) as [sh tape']. cbn [fst] in Hperm.
  assert (Hsh : length sh = length cards) by by rewrite Hperm.
  rewrite (deal_cards_enough sh 2) by lia.
  destruct (Z.ltb_spec 0 (5 - Z.of_nat bl)); [|lia].
  unfold deal_cards. rewrite length_drop.
  by destruct (Z.ltb_spec (Z.of_nat (length sh - Z.to_nat 2)) (5 - Z.of_nat bl)); [|lia].
Qed.

(** Creating the bot of the examples on the store of nine cards. *)
Lemma PokerBot_init_demo :
  PokerBot_init [OfStr "As"; OfStr "Ah"] [] (Some 0%nat) {| hand_ranks := demo_table |}
    nine_state = (fresh_state, Ok demo_bot).
Proof. reflexivity. Qed.

(** C1 as the spec has it fails: with two cards in the deck and no board yet
    the sampler deals the opponent's hand, and then [deal] raises for the
    five board cards. *)
Lemma generate_scenario_short_deck :
  decks short_state !! 0%nat = Some [ {| value := 1 |}; {| value := 2 |} ] ∧
  (generate_scenario demo_bot short_state).2 = Raise (ValueError NotEnoughCards) ∧
  ¬ ∃ op_hand new_board,
      (generate_scenario demo_bot short_state).2 = Ok (Some (op_hand, new_board)).
Proof.
  split; [done|]. 
  assert (H : (generate_scenario demo_bot short_state).2 = Raise (ValueError NotEnoughCards))
    by (vm_compute; reflexivity).
  split; [done|]. rewrite H. by intros (? & ? & ?).
Qed.

(** C1, amended. [generate_scenario] leaves every deck of the store as it was
    (the caller's too) and leaves the nodes alone; it returns None when there
    is no deck, and with a deck exactly when the deck holds fewer than 2
    cards; and when the deck holds at least the 2 cards of the opponent and
    the [5 - len(board)] cards the board still needs, it returns a hand of 2
    cards and that many board cards, all drawn from the deck without
    replacement. *)
Theorem generate_scenario_draws self s :
  let s' := (generate_scenario self s).1 in
  let r := (generate_scenario self s).2 in
  nodes s' = nodes s ∧
  (∀ d cards, decks s !! d = Some cards → decks s' !! d = Some cards) ∧
  (bot_deck self = None → r = Ok None) ∧
  (∀ deck cards, bot_deck self = Some deck → decks s !! deck = Some cards →
     (r = Ok None ↔ (length cards < 2)%nat) ∧
     (Forall card_ok cards →
      2 + cards_needed self ≤ Z.of_nat (length cards) →
      ∃ op_hand new_board rest,
        r = Ok (Some (op_hand, new_board)) ∧
        length op_hand = 2%nat ∧
        Z.of_nat (length new_board) = cards_needed self ∧
        op_hand ++ new_board ++ rest ≡ₚ cards)).
Proof.
  intros s' r.
  destruct (bot_deck self) as [deck|] eqn:Hd; cycle 1.
  { subst s' r. unfold generate_scenario. rewrite Hd. by repeat split. }
  destruct (decks s !! deck) as [cards|] eqn:Hc; cycle 1.
  { assert (Heq : generate_scenario self s = (s, Stuck)).
    { unfold generate_scenario, bind, get_cards. by rewrite Hd, Hc. }
    subst s' r. rewrite Heq. do 3 (split; [done|]).
    intros ? ? [= <-] ?. congruence. }
  destruct (decide (length cards < 2)%nat) as [Hlt|Hge].
  { assert (Heq : generate_scenario self s = (s, Ok None)).
    { unfold generate_scenario, bind, get_cards. rewrite Hd, Hc. norm_state.
      rewrite (bool_decide_eq_true_2 (length cards < 2)%nat) by done.
      by rewrite orb_true_r. }
    subst s' r. rewrite Heq. do 3 (split; [done|]).
    intros deck' cards' [= <-] Hc'. simplify_eq. split; [done|].
    intros _ Hn. unfold cards_needed in Hn. lia. }
  assert (Heq := generate_scenario_eq self s deck cards Hd Hc ltac:(lia)).
  pose proof (sample_not_None cards (length (bot_board self)) (rng s)) as HnN.
  subst s' r. rewrite Heq.
  destruct (sample cards (length (bot_board self)) (rng s)) as [[rest tape] r] eqn:Hs.
  cbn [fst snd] in *. split; [done|]. split; [|split; [done|]].
  - intros d cards0 Hd0. by apply lookup_app_l_Some.
  - intros deck' cards' [= <-] Hc'. rewrite Hc in Hc'. injection Hc' as <-. split.
    + split; [done | lia].
    + intros Hok Hlen.
      destruct (sample_enough cards (length (bot_board self)) (rng s) Hok Hlen)
        as (op & nb & rest' & Hr & ?). rewrite Hs in Hr. cbn [snd] in Hr. eauto 10.
Qed.

Lemma generate_scenario_draws_witness :
  ∃ op_hand new_board rest,
    (generate_scenario demo_bot nine_state).2 = Ok (Some (op_hand, new_board)) ∧
    length op_hand = 2%nat ∧
    Z.of_nat (length new_board) = cards_needed demo_bot ∧
    op_hand ++ new_board ++ rest ≡ₚ nine_cards.
Proof.
  apply (proj2 (proj2 (proj2 (proj2 (generate_scenario_draws demo_bot nine_state)))
           0%nat nine_cards eq_refl eq_refl)).
  - repeat constructor; unfold card_ok; simpl; lia.
  - unfold cards_needed; simpl; lia.
Defined.


(** ** Backpropagation (C10) *)

Section Backpropagation.

(** Running the first step of a piece of code. *)
Lemma run_bind {A B} (m : M A) (k : A → M B) s :
  (x ←$ m; k x) s =
    match (m s).2 with
    | Ok a => k a (m s).1
    | Raise e => ((m s).1, Raise e)
    | Stuck => ((m s).1, Stuck)
    end.
Proof. unfold bind. by destruct (m s) as [s' [a|e|]]. Qed.

Lemma run_get_node {B} s i n (k : MCTSNode → M B) :
  nodes s !! i = Some n → (x ←$ get_node i; k x) s = k n s.
Proof. intros Hi. unfold bind, get_node. by rewrite Hi. Qed.

Lemma run_get_node_None {B} s i (k : MCTSNode → M B) :
  nodes s !! i = None → (x ←$ get_node i; k x) s = (s, Stuck).
Proof. intros Hi. unfold bind, get_node. by rewrite Hi. Qed.

Lemma run_put_node {B} s i n (k : M B) :
  (_ ←$ put_node i n; k) s = k (set_nodes (<[i := n]> (nodes s)) s).
Proof. done. Qed.

Lemma shape_bump r n : shape (bump r n) = shape n.
Proof. done. Qed.

Lemma fmap_insert_same {A B} (f : A → B) (l : list A) i x y :
  l !! i = Some x → f y = f x → f <$> <[i := y]> l = f <$> l.
Proof.
  intros Hi Hf. rewrite list_fmap_insert, Hf.
  apply list_insert_id. by rewrite list_lookup_fmap, Hi.
Qed.

(** Whatever the fuel and the outcome, the loop keeps the shape of the
    tree, the decks and the tape. *)
Lemma backpropagate_loop_shape fuel : ∀ node r s,
  let s' := (backpropagate_loop fuel node r s).1 in
  shape <$> nodes s' = shape <$> nodes s ∧ decks s' = decks s ∧ rng s' = rng s.
Proof.
  induction fuel as [|fuel IH]; intros [i|] r s; cbn [backpropagate_loop];
    [by unfold lift|by unfold ret|idtac|by unfold ret].
  destruct (nodes s !! i) as [n|] eqn:Hi;
    [|by rewrite run_get_node_None by done].
  rewrite (run_get_node _ _ _ _ Hi), run_put_node.
  specialize (IH (parent n) r (set_nodes (<[i:=bump r n]> (nodes s)) s)).
  cbn zeta in IH. destruct IH as (IH1 & IH2 & IH3).
  split; [|by split].
  rewrite IH1. cbn [set_nodes nodes]. by eapply fmap_insert_same.
Qed.

Lemma path_fuel_le t : parents_first t → ∀ fuel i j,
  j ∈ path_fuel fuel t i → (j ≤ i)%nat.
Proof.
  intros Hp. induction fuel as [|fuel IH]; intros i j; cbn [path_fuel].
  - by intros ?%elem_of_nil.
  - destruct (t !! i) as [n|] eqn:Hi; [|by intros ?%elem_of_nil].
    intros [->|Hj]%elem_of_cons; [lia|].
    destruct (parent n) as [p|] eqn:Hpar; [|by apply elem_of_nil in Hj].
    specialize (Hp _ _ _ Hi Hpar). specialize (IH _ _ Hj). lia.
Qed.

Lemma path_fuel_enough t : parents_first t → ∀ f1 f2 i,
  (i < f1)%nat → (i < f2)%nat → path_fuel f1 t i = path_fuel f2 t i.
Proof.
  intros Hp. induction f1 as [|f1 IH]; intros f2 i H1 H2; [lia|].
  destruct f2 as [|f2]; [lia|]. cbn [path_fuel].
  destruct (t !! i) as [n|] eqn:Hi; [|done].
  destruct (parent n) as [p|] eqn:Hpar; [|done].
  specialize (Hp _ _ _ Hi Hpar). f_equal. apply IH; lia.
Qed.

Lemma path_fuel_parents t t' : (parent <$> t') = (parent <$> t) → ∀ fuel i,
  path_fuel fuel t' i = path_fuel fuel t i.
Proof.
  intros Heq. induction fuel as [|fuel IH]; intros i; [done|]. cbn [path_fuel].
  assert (Hi : parent <$> t' !! i = parent <$> t !! i)
    by by rewrite <-!list_lookup_fmap, Heq.
  destruct (t' !! i) as [n'|], (t !! i) as [n|]; simplify_eq/=; [|done].
  rewrite Hi. destruct (parent n); [by rewrite IH|done].
Qed.

Lemma path_fuel_parent t : parents_first t → ∀ fuel i j n p,
  (i < fuel)%nat → j ∈ path_fuel fuel t i → t !! j = Some n → parent n = Some p →
  p ∈ path_fuel fuel t i.
Proof.
  intros Hp. induction fuel as [|fuel IH]; intros i j n p Hf; [lia|].
  cbn [path_fuel].
  destruct (t !! i) as [ni|] eqn:Hi; [|by intros ?%elem_of_nil].
  intros [->|Hj]%elem_of_cons Hn Hpar; right.
  - simplify_eq. rewrite Hpar. specialize (Hp _ _ _ Hi Hpar).
    destruct fuel as [|fuel]; [lia|]. cbn [path_fuel].
    destruct (lookup_lt_is_Some_2 t p) as [pn ->]; [|left].
    apply lookup_lt_Some in Hi. lia.
  - destruct (parent ni) as [q|] eqn:Hq; [|by apply elem_of_nil in Hj].
    specialize (Hp _ _ _ Hi Hq). eapply IH; eauto. lia.
Qed.

Lemma bump_parents r (t : list MCTSNode) i n :
  t !! i = Some n → parent <$> <[i := bump r n]> t = parent <$> t.
Proof. intros Hi. by eapply fmap_insert_same. Qed.

Lemma parents_first_parents t t' :
  parent <$> t' = parent <$> t → parents_first t → parents_first t'.
Proof.
  intros Heq Hp i n p Hi Hpar.
  assert (Hi' : parent <$> t !! i = Some (Some p)).
  { by rewrite <-list_lookup_fmap, <-Heq, list_lookup_fmap, Hi; simpl; rewrite Hpar. }
  destruct (t !! i) as [n0|] eqn:Hn0; simplify_eq/=. eauto.
Qed.

Lemma backpropagate_loop_path fuel : ∀ i r s,
  parents_first (nodes s) → (i < length (nodes s))%nat → (i < fuel)%nat →
  ∃ t', backpropagate_loop fuel (Some i) r s = (set_nodes t' s, Ok tt) ∧
    ∀ j, t' !! j = if decide (j ∈ path_to_root (nodes s) i)
                    then bump r <$> nodes s !! j else nodes s !! j.
Proof.
  induction fuel as [|fuel IH]; intros i r s Hp Hi Hf; [lia|].
  cbn [backpropagate_loop].
  destruct (lookup_lt_is_Some_2 _ _ Hi) as [n Hn].
  rewrite (run_get_node _ _ _ _ Hn), run_put_node.
  set (s1 := set_nodes (<[i:=bump r n]> (nodes s)) s).
  assert (Hpar1 : parent <$> nodes s1 = parent <$> nodes s)
    by by apply bump_parents.
  unfold path_to_root. cbn [path_fuel]. rewrite Hn.
  destruct (parent n) as [p|] eqn:Hpar.
  - pose proof (Hp _ _ _ Hn Hpar) as Hlt.
    destruct (IH p r s1) as (t' & Hrun & Ht').
    { by eapply parents_first_parents. }
    { subst s1. cbn [set_nodes nodes]. rewrite length_insert. lia. }
    { lia. }
    exists t'. split; [by rewrite Hrun|].
    intros j. rewrite Ht'. unfold path_to_root.
    rewrite (path_fuel_parents _ _ Hpar1).
    rewrite (path_fuel_enough _ Hp i (S p) p) by lia.
    subst s1. cbn [set_nodes nodes].
    destruct (decide (j = i)) as [->|Hne].
    + rewrite list_lookup_insert_eq by done.
      rewrite decide_False, decide_True, Hn; [done|left|].
      intros Hin%(path_fuel_le _ Hp). lia.
    + rewrite list_lookup_insert_ne by done.
      destruct (decide (j ∈ path_fuel (S p) (nodes s) p)).
      * rewrite decide_True; [done|by right].
      * rewrite decide_False; [done|]. by intros [?|?]%elem_of_cons.
  - exists (<[i:=bump r n]> (nodes s)). split; [by destruct fuel|].
    intros j. destruct (decide (j = i)) as [->|Hne].
    + rewrite list_lookup_insert_eq by done. rewrite decide_True, Hn; [done|left].
    + rewrite list_lookup_insert_ne by done. rewrite decide_False; [done|].
      by intros [?|?%elem_of_nil]%elem_of_cons.
Qed.

Lemma path_to_root_unfold t i n :
  parents_first t → t !! i = Some n →
  path_to_root t i =
    i :: match parent n with None => [] | Some p => path_to_root t p end.
Proof.
  intros Hp Hi. unfold path_to_root.
  change (path_fuel (S i) t i) with
    (match t !! i with
     | None => []
     | Some n => i :: match parent n with
                      | None => []
                      | Some p => path_fuel i t p
                      end
     end).
  rewrite Hi. destruct (parent n) as [p|] eqn:Hpar; [|done].
  pose proof (Hp _ _ _ Hi Hpar). f_equal. apply path_fuel_enough; [done|lia..].
Qed.

(** C10. Backpropagation changes no deck, nothing of the random tape and,
    in every node, none of hand, board, parent, scenario and children, and
    it creates no node.  From a node of a tree whose parents come first it
    returns, having added 1 to the visits and the result to the wins of
    every node on the path from that node up to the root, and having left
    the counters of every other node as they were. *)
Theorem backpropagate_frame self node result s :
  let s' := (backpropagate self node result s).1 in
  shape <$> nodes s' = shape <$> nodes s ∧ decks s' = decks s ∧ rng s' = rng s ∧
  (parents_first (nodes s) → (node < length (nodes s))%nat →
     (backpropagate self node result s).2 = Ok tt ∧
     ∀ i n, nodes s !! i = Some n →
       ∃ n', nodes s' !! i = Some n' ∧
         if decide (i ∈ path_to_root (nodes s) node)
         then visits n' = visits n + 1 ∧ wins n' = wins n + result
         else visits n' = visits n ∧ wins n' = wins n).
Proof.
  intros s'. subst s'. unfold backpropagate.
  destruct (backpropagate_loop_shape (length (nodes s)) (Some node) result s)
    as (Hs & Hd & Hr).
  do 3 (split; [done|]). intros Hp Hn.
  destruct (backpropagate_loop_path (length (nodes s)) node result s Hp Hn Hn)
    as (t' & Hrun & Ht').
  rewrite Hrun. split; [done|]. intros i n Hi. cbn [fst set_nodes nodes].
  rewrite Ht', Hi. case_decide; eexists; (split; [reflexivity|done]).
Qed.
End Backpropagation.

Lemma small_tree_parents_first : parents_first small_tree.
Proof.
  intros [|[|[|i]]] n p Hi Hp; simpl in Hi; simplify_eq; simpl in Hp; simplify_eq; lia.
Qed.

Lemma backpropagate_frame_witness :
  (backpropagate demo_bot 2 1 small_state).2 = Ok tt ∧
  ∀ i n, small_tree !! i = Some n →
    ∃ n', nodes (backpropagate demo_bot 2 1 small_state).1 !! i = Some n' ∧
      if decide (i ∈ path_to_root small_tree 2)
      then visits n' = visits n + 1 ∧ wins n' = wins n + 1
      else visits n' = visits n ∧ wins n' = wins n.
Proof.
  apply (proj2 (proj2 (proj2 (backpropagate_frame demo_bot 2 1 small_state)))).
  - exact small_tree_parents_first.
  - simpl; lia.
Defined.


(** ** Expansion (C4) *)

Section Expansion.
Context `{Float} `{TupleHash}.

Lemma scenario_key_sets op nb op' nb' :
  (∀ c, c ∈ op ↔ c ∈ op') → (∀ c, c ∈ nb ↔ c ∈ nb') →
  scenario_key (op, nb) = scenario_key (op', nb').
Proof.
  intros Hop Hnb. unfold scenario_key. cbn [fst snd].
  assert (Hset : ∀ l l' : list Card, (∀ c, c ∈ l ↔ c ∈ l') →
    list_to_set (C:=gset Z) (value <$> l) = list_to_set (value <$> l')).
  { intros l l' Hl. apply set_eq. intros v.
    rewrite !elem_of_list_to_set, !list_elem_of_fmap.
    split; intros (c & -> & Hc); exists c; (split; [done|by apply Hl]). }
  by rewrite (Hset _ _ Hop), (Hset _ _ Hnb).
Qed.

(** C4. When the sampler gives no scenario, [expand] returns the node it was
    given and the tree is as it was.  When it gives one, the key is
    computed from the set of the opponent's cards and the set of the new
    board cards (the last part: two samples with the same cards in each,
    in any order, have the same key); if the node has a child under that
    key, that child is returned and the tree is as it was; if not, one node
    holding the scenario is created with the node as its parent, recorded
    under the key after the node's other children, and returned. *)
Theorem expand_reuses_or_adds self node s :
  let s1 := (generate_scenario self s).1 in
  let sampled := (generate_scenario self s).2 in
  (sampled = Ok None →
     expand self node s = (s1, Ok node) ∧ nodes s1 = nodes s) ∧
  (∀ sc n, sampled = Ok (Some sc) → nodes s !! node = Some n →
     (∀ child, dict_get (scenario_key sc) (children n) = Some child →
        expand self node s = (s1, Ok child) ∧ nodes s1 = nodes s) ∧
     (dict_get (scenario_key sc) (children n) = None →
        let child := length (nodes s) in
        let n' := {| hand := hand n; board := board n; parent := parent n;
                     scenario := scenario n; visits := visits n; wins := wins n;
                     children := children n ++ [(scenario_key sc, child)] |} in
        expand self node s =
          (set_nodes (<[node := n']> (nodes s) ++
                      [MCTSNode_init (hand n) (board n) (Some node) (Some sc)]) s1,
           Ok child))) ∧
  (∀ op nb op' nb',
     (∀ c, c ∈ op ↔ c ∈ op') → (∀ c, c ∈ nb ↔ c ∈ nb') →
     scenario_key (op, nb) = scenario_key (op', nb')).
Proof.
  intros s1 sampled.
  assert (Hn1 : nodes s1 = nodes s) by apply generate_scenario_nodes.
  assert (Hrun : ∀ B (k : _ → M B),
    (x ←$ generate_scenario self; k x) s =
      match sampled with
      | Ok a => k a s1
      | Raise e => (s1, Raise e)
      | Stuck => (s1, Stuck)
      end) by (intros; apply run_bind).
  clearbody s1 sampled. unfold expand. rewrite Hrun.
  split; [|split].
  - by intros ->.
  - intros sc n -> Hn.
    assert (Hn' : nodes s1 !! node = Some n) by by rewrite Hn1.
    rewrite (run_get_node _ _ _ _ Hn'). split.
    + by intros child ->.
    + intros ->. cbn zeta. unfold bind, new_node, put_node, ret, set_nodes.
      cbn [nodes decks rng]. rewrite Hn1.
      by rewrite insert_app_l by by eapply lookup_lt_Some.
  - apply scenario_key_sets.
Qed.
End Expansion.

Lemma expand_reuses_or_adds_witness :
  (generate_scenario demo_bot small_state).2 =
    Ok (Some ([ {| value := 40 |}; {| value := 52 |} ],
              [ {| value := 47 |}; {| value := 21 |}; {| value := 3 |};
                {| value := 13 |}; {| value := 22 |} ])) ∧
  (expand demo_bot 0 small_state).2 = Ok 3%nat.
Proof.
  split; [vm_compute; reflexivity|].
  rewrite (proj2 (proj1 (proj2 (expand_reuses_or_adds demo_bot 0%nat small_state))
                   _ _ ltac:(vm_compute; reflexivity) eq_refl)
             ltac:(vm_compute; reflexivity)).
  reflexivity.
Defined.

(** ** Selection (C5) *)

Section Selection.
Context `{Float} `{TupleHash}.

Lemma elem_of_dict_values {K V} (d : list (K * V)) v :
  v ∈ dict_values d ↔ ∃ k, (k, v) ∈ d.
Proof.
  unfold dict_values. rewrite list_elem_of_fmap. split.
  - intros ([k v'] & -> & Hin). eauto.
  - intros (k & Hin). by exists (k, v).
Qed.

Lemma ucb1_unvisited t i n c :
  t !! i = Some n → visits n = 0 → ucb1 t i c = Ok f_inf.
Proof. intros Hi Hv. unfold ucb1. by rewrite Hi, Hv. Qed.

Lemma ucb1_root t i n c :
  t !! i = Some n → visits n ≠ 0 → parent n = None →
  ucb1 t i c = Ok (f_truediv (wins n) (visits n)).
Proof.
  intros Hi Hv Hp. unfold ucb1. rewrite Hi, Hp.
  by destruct (Z.eqb_spec (visits n) 0).
Qed.

Lemma ucb1_child t i n p pn c :
  log_ratio_not_negative →
  t !! i = Some n → parent n = Some p → t !! p = Some pn →
  1 ≤ visits n → 1 ≤ visits pn →
  ucb1 t i c = Ok (ucb1_score (wins n) (visits n) (visits pn) c).
Proof.
  intros Hlog Hi Hp Hpn Hv Hpv. unfold ucb1, math_log, math_sqrt.
  rewrite Hi, Hp, Hpn.
  destruct (Z.eqb_spec (visits n) 0); [lia|].
  destruct (Z.leb_spec (visits pn) 0); [lia|]. cbn [obind].
  by rewrite Hlog.
Qed.

Lemma ucb1_of_child t i n k c :
  log_ratio_not_negative → tree_inv t →
  t !! i = Some n → (k, c) ∈ children n →
  ∃ cn, t !! c = Some cn ∧ parent cn = Some i ∧
    ucb1 t c f_c =
      Ok (if visits cn =? 0 then f_inf
          else ucb1_score (wins cn) (visits cn) (visits n) f_c) ∧
    0 ≤ wins cn ≤ visits cn ∧ visits cn ≤ visits n.
Proof.
  intros Hlog Hinv Hi Hin.
  destruct (inv_children _ Hinv _ _ _ _ Hi Hin) as (cn & Hc & Hpar).
  destruct (inv_parent _ Hinv _ _ _ Hc Hpar) as (_ & pn & Hpn & Hle).
  rewrite Hi in Hpn. injection Hpn as <-.
  pose proof (inv_counts _ Hinv _ _ Hc) as Hcnt.
  exists cn. repeat split; try done; try lia.
  destruct (Z.eqb_spec (visits cn) 0) as [Hz|Hnz].
  - by eapply ucb1_unvisited.
  - eapply ucb1_child; eauto; lia.
Qed.

Lemma max_by_ucb1_best t c : lt_strict_order → ∀ rest seen best kbest,
  best ∈ seen → ucb1 t best c = Ok kbest →
  (∀ y, y ∈ seen → ∃ ky, ucb1 t y c = Ok ky ∧ f_lt kbest ky = false) →
  (∀ y, y ∈ rest → ∃ ky, ucb1 t y c = Ok ky) →
  ∃ b kb, max_by_ucb1 t c best kbest rest = Ok b ∧ b ∈ seen ++ rest ∧
    ucb1 t b c = Ok kb ∧
    ∀ y, y ∈ seen ++ rest → ∃ ky, ucb1 t y c = Ok ky ∧ f_lt kb ky = false.
Proof.
  intros [Hirr Htr]. induction rest as [|x rest IH]; intros seen best kbest Hb Hk Hseen Hrest.
  - exists best, kbest. rewrite app_nil_r. by repeat split.
  - cbn [max_by_ucb1]. destruct (Hrest x) as [kx Hkx]; [left|].
    rewrite Hkx. cbn [obind].
    replace (seen ++ x :: rest) with ((seen ++ [x]) ++ rest)
      by by rewrite <-app_assoc.
    destruct (f_lt kbest kx) eqn:Hlt.
    + apply IH.
      * apply elem_of_app. right. left.
      * done.
      * intros y [Hy|Hy%list_elem_of_singleton]%elem_of_app.
        -- destruct (Hseen y Hy) as (ky & Hky & Hnlt). exists ky. split; [done|].
           destruct (f_lt kx ky) eqn:Hxy; [|done].
           by rewrite (Htr _ _ _ Hlt Hxy) in Hnlt.
        -- subst y. exists kx. split; [done|apply Hirr].
      * intros y Hy. apply Hrest. by right.
    + apply IH.
      * apply elem_of_app. by left.
      * done.
      * intros y [Hy|Hy%list_elem_of_singleton]%elem_of_app; [by apply Hseen|].
        subst y. eauto.
      * intros y Hy. apply Hrest. by right.
Qed.

Lemma select_child_best t i n :
  lt_strict_order → log_ratio_not_negative → tree_inv t →
  t !! i = Some n → children n ≠ [] →
  ∃ c, select_child t i f_c = Ok c ∧ best_child t (dict_values (children n)) c.
Proof.
  intros Hord Hlog Hinv Hi Hne. unfold select_child. rewrite Hi.
  assert (Hall : ∀ y, y ∈ dict_values (children n) → ∃ ky, ucb1 t y f_c = Ok ky).
  { intros y [k Hy]%elem_of_dict_values.
    destruct (ucb1_of_child _ _ _ _ _ Hlog Hinv Hi Hy) as (cn & _ & _ & Hu & _). eauto. }
  destruct (dict_values (children n)) as [|x rest] eqn:Hcs.
  { destruct (children n); [done|discriminate]. }
  destruct (Hall x) as [kx Hkx]; [left|]. rewrite Hkx. cbn [obind].
  destruct (max_by_ucb1_best t f_c Hord rest [x] x kx) as (b & kb & Hrun & Hb & Hkb & Hbest).
  - left.
  - done.
  - intros y ->%list_elem_of_singleton. exists kx. split; [done|apply Hord].
  - intros y Hy. apply Hall. by right.
  - exists b. split; [done|]. split; [done|]. eauto.
Qed.

Lemma select_loop_descends t : 
  lt_strict_order → log_ratio_not_negative → tree_inv t →
  ∀ fuel i, (i < length t)%nat → (length t ≤ fuel + i)%nat →
  ∃ leaf, select_loop fuel t i = Ok leaf ∧ descends t i leaf.
Proof.
  intros Hord Hlog Hinv. induction fuel as [|fuel IH]; intros i Hi Hf; [lia|].
  cbn [select_loop]. destruct (lookup_lt_is_Some_2 _ _ Hi) as [n Hn]. rewrite Hn.
  case_bool_decide as Hch.
  - exists i. split; [done|]. by eapply descends_leaf.
  - destruct (select_child_best t i n Hord Hlog Hinv Hn Hch) as (c & Hsel & Hbest).
    rewrite Hsel. cbn [obind].
    destruct Hbest as [Hc Hbest'].
    pose proof Hc as [k Hkc]%elem_of_dict_values.
    destruct (inv_children _ Hinv _ _ _ _ Hn Hkc) as (cn & Hcn & Hpar).
    destruct (inv_parent _ Hinv _ _ _ Hcn Hpar) as (Hlt & _).
    destruct (IH c) as (leaf & Hrun & Hdesc).
    + by eapply lookup_lt_Some.
    + lia.
    + exists leaf. split; [done|]. eapply descends_child; eauto. by split.
Qed.

Lemma best_child_prefers_unvisited t i n c :
  log_ratio_not_negative → visited_score_finite → tree_inv t →
  t !! i = Some n → best_child t (dict_values (children n)) c →
  (∃ c' cn', c' ∈ dict_values (children n) ∧ t !! c' = Some cn' ∧ visits cn' = 0) →
  ∃ cn, t !! c = Some cn ∧ visits cn = 0.
Proof.
  intros Hlog Hfin Hinv Hi (Hc & kc & Hkc & Hbest) (c' & cn' & Hc' & Hcn' & Hv').
  apply elem_of_dict_values in Hc as [k Hc].
  destruct (ucb1_of_child _ _ _ _ _ Hlog Hinv Hi Hc) as (cn & Hcn & _ & Hu & Hcnt & Hle).
  exists cn. split; [done|].
  destruct (Z.eqb_spec (visits cn) 0) as [|Hnz]; [done|]. exfalso.
  destruct (Hbest c' Hc') as (k' & Hk' & Hnlt).
  rewrite (ucb1_unvisited _ _ _ _ Hcn' Hv') in Hk'. injection Hk' as <-.
  rewrite Hkc in Hu. injection Hu as ->.
  rewrite Hfin in Hnlt; [done|lia..].
Qed.

(** C5. On a tree that satisfies the invariant, [select] returns a node
    reached from the root by going, at every node that has children, to a
    child no other child of which scores higher, and stopping at the first
    node without children.  The score of a node without visits is
    infinity; that of a visited node without parent is wins/visits; that
    of a visited child is wins/visits + c*sqrt(ln(parent visits)/visits).
    When a node has a child without visits, the child chosen is one
    without visits. *)
Theorem select_descends_by_ucb1 self s :
  lt_strict_order → log_ratio_not_negative → visited_score_finite →
  tree_inv (nodes s) → (bot_root self < length (nodes s))%nat →
  let t := nodes s in
  (∃ leaf, select self s = (s, Ok leaf) ∧ descends t (bot_root self) leaf) ∧
  (∀ i n c, t !! i = Some n → visits n = 0 → ucb1 t i c = Ok f_inf) ∧
  (∀ i n c, t !! i = Some n → visits n ≠ 0 → parent n = None →
     ucb1 t i c = Ok (f_truediv (wins n) (visits n))) ∧
  (∀ i n p pn, t !! i = Some n → visits n ≠ 0 → parent n = Some p →
     t !! p = Some pn →
     ucb1 t i f_c = Ok (ucb1_score (wins n) (visits n) (visits pn) f_c)) ∧
  (∀ i n c, t !! i = Some n → best_child t (dict_values (children n)) c →
     (∃ c' cn', c' ∈ dict_values (children n) ∧ t !! c' = Some cn' ∧ visits cn' = 0) →
     ∃ cn, t !! c = Some cn ∧ visits cn = 0).
Proof.
  intros Hord Hlog Hfin Hinv Hroot t. subst t. split; [|split; [|split; [|split]]].
  - destruct (select_loop_descends _ Hord Hlog Hinv (length (nodes s)) (bot_root self))
      as (leaf & Hrun & Hd); [done|lia|].
    exists leaf. unfold select. by rewrite Hrun.
  - intros. by eapply ucb1_unvisited.
  - intros. by eapply ucb1_root.
  - intros i n p pn Hi Hv Hp Hpn.
    destruct (inv_parent _ Hinv _ _ _ Hi Hp) as (_ & pn' & Hpn' & Hle).
    rewrite Hpn in Hpn'. injection Hpn' as <-.
    pose proof (inv_counts _ Hinv _ _ Hi).
    eapply ucb1_child; eauto; lia.
  - intros. by eapply best_child_prefers_unvisited.
Qed.
End Selection.

(** ** Iterations of the search (C6, C9, C2) *)

Section Iteration.
Context `{Float} `{TupleHash}.

Lemma tree_inv_parents_first t : tree_inv t → parents_first t.
Proof. intros Hinv i n p Hi Hp. by destruct (inv_parent _ Hinv _ _ _ Hi Hp). Qed.

Lemma tree_inv_nil : tree_inv [].
Proof. split; intros i; intros; by rewrite lookup_nil in *. Qed.

Lemma select_loop_valid fuel : ∀ t i leaf,
  select_loop fuel t i = Ok leaf → ∃ n, t !! leaf = Some n ∧ children n = [].
Proof.
  induction fuel as [|fuel IH]; intros t i leaf; cbn [select_loop]; [done|].
  destruct (t !! i) as [n|] eqn:Hi; [|done].
  case_bool_decide as Hch.
  - intros [= <-]. eauto.
  - destruct (select_child t i f_c) as [c| |]; cbn [obind]; [|done..]. apply IH.
Qed.

Lemma simulate_nodes self node s :
  nodes (simulate self node s).1 = nodes s ∧
  ∀ r, (simulate self node s).2 = Ok r → r = 0 ∨ r = 1.
Proof.
  unfold simulate.
  destruct (nodes s !! node) as [n|] eqn:Hn;
    [|by rewrite run_get_node_None by done].
  rewrite (run_get_node _ _ _ _ Hn). rewrite run_bind.
  set (m := match scenario n with None => generate_scenario self | Some sc => ret (Some sc) end).
  assert (Hm : nodes (m s).1 = nodes s).
  { subst m. destruct (scenario n); [done|apply generate_scenario_nodes]. }
  destruct (m s) as [s1 [[sc|]| |]]; cbn [fst snd] in *; [| |done..].
  - destruct sc as [op_hand new_board]. unfold bind, lift, ret.
    destruct (compare_hands _ _ _ _) as [cmp| |]; cbn [fst snd]; [|done..].
    split; [done|]. intros r [= <-]. destruct (_ =? 1); eauto.
  - split; [done|]. intros r [= <-]. eauto.
Qed.

(** The tree after a node [new] is recorded under [node]. *)
Lemma lookup_added (t : list MCTSNode) node n' new j :
  (node < length t)%nat →
  (<[node := n']> t ++ [new]) !! j =
    if decide (j = length t) then Some new
    else if decide (j = node) then Some n' else t !! j.
Proof.
  intros Hn. case_decide as Hj.
  - subst j. rewrite lookup_app_r by (rewrite length_insert; lia).
    by rewrite length_insert, Nat.sub_diag.
  - destruct (decide (j < length t)%nat).
    + rewrite lookup_app_l by (rewrite length_insert; lia).
      case_decide; [subst; by rewrite list_lookup_insert_eq|].
      by rewrite list_lookup_insert_ne.
    + rewrite lookup_ge_None_2 by (rewrite length_app, length_insert; simpl; lia).
      rewrite decide_False by lia. symmetry. apply lookup_ge_None_2. lia.
Qed.

Lemma tree_inv_added t node n key sc :
  tree_inv t → t !! node = Some n →
  tree_inv (<[node := {| hand := hand n; board := board n; parent := parent n;
                         scenario := scenario n; visits := visits n; wins := wins n;
                         children := children n ++ [(key, length t)] |}]> t ++
            [MCTSNode_init (hand n) (board n) (Some node) (Some sc)]).
Proof.
  intros Hinv Hn. pose proof (lookup_lt_Some _ _ _ Hn) as Hlt.
  set (n' := {| hand := hand n; children := _ |}).
  set (new := MCTSNode_init _ _ _ _).
  assert (Hold : ∀ j m, (<[node := n']> t ++ [new]) !! j = Some m → j ≠ length t →
    ∃ m0, t !! j = Some m0 ∧ parent m = parent m0 ∧ visits m = visits m0 ∧
          wins m = wins m0 ∧
          (children m = children m0 ∨
           j = node ∧ m0 = n ∧ children m = children n ++ [(key, length t)])).
  { intros j m Hj Hne. rewrite lookup_added in Hj by done.
    rewrite decide_False in Hj by done. case_decide; simplify_eq.
    - exists n. simpl. repeat split; eauto.
    - exists m. repeat split; eauto. }
  assert (Hnew : ∀ j m0, t !! j = Some m0 →
    ∃ m, (<[node := n']> t ++ [new]) !! j = Some m ∧ parent m = parent m0 ∧
         visits m = visits m0).
  { intros j m0 Hj. pose proof (lookup_lt_Some _ _ _ Hj).
    rewrite lookup_added by done. rewrite decide_False by lia.
    case_decide; simplify_eq; eauto. }
  split.
  - intros i m Hi. destruct (decide (i = length t)) as [->|Hne].
    + rewrite lookup_added, decide_True in Hi by done. by simplify_eq.
    + destruct (Hold _ _ Hi Hne) as (m0 & Hm0 & _ & -> & -> & _).
      by eapply inv_counts.
  - intros i m p Hi Hp. destruct (decide (i = length t)) as [->|Hne].
    + rewrite lookup_added, decide_True in Hi by done. simplify_eq.
      simpl in Hp. simplify_eq. split; [done|].
      destruct (Hnew _ _ Hn) as (m & Hm & _ & Hv). exists m. split; [done|].
      pose proof (inv_counts _ Hinv _ _ Hn). simpl. lia.
    + destruct (Hold _ _ Hi Hne) as (m0 & Hm0 & Hpar & Hv & _).
      rewrite Hpar in Hp.
      destruct (inv_parent _ Hinv _ _ _ Hm0 Hp) as (Hpi & pn & Hpn & Hle).
      split; [done|]. destruct (Hnew _ _ Hpn) as (pm & Hpm & _ & Hpv).
      exists pm. split; [done|]. lia.
  - intros i m k c Hi Hc. destruct (decide (i = length t)) as [->|Hne].
    + rewrite lookup_added, decide_True in Hi by done. simplify_eq.
      simpl in Hc. by apply elem_of_nil in Hc.
    + destruct (Hold _ _ Hi Hne) as (m0 & Hm0 & _ & _ & _ & Hch).
      assert (Hcase : (k, c) ∈ children m0 ∨ i = node ∧ c = length t).
      { destruct Hch as [Hch|(-> & -> & Hch)]; rewrite Hch in Hc; [by left|].
        apply elem_of_app in Hc as [?|Hc]; [by left|].
        apply list_elem_of_singleton in Hc. simplify_eq. by right. }
      destruct Hcase as [Hc0|[-> ->]].
      * destruct (inv_children _ Hinv _ _ _ _ Hm0 Hc0) as (cn & Hcn & Hcp).
        destruct (Hnew _ _ Hcn) as (cm & Hcm & Hcpar & _).
        exists cm. split; [done|]. by rewrite Hcpar.
      * exists new. split; [|done]. by rewrite lookup_added, decide_True.
Qed.

Lemma expand_inv self node s :
  tree_inv (nodes s) → (node < length (nodes s))%nat →
  let s' := (expand self node s).1 in
  tree_inv (nodes s') ∧
  ∀ leaf, (expand self node s).2 = Ok leaf → (leaf < length (nodes s'))%nat.
Proof.
  intros Hinv Hlt.
  destruct (lookup_lt_is_Some_2 _ _ Hlt) as [n Hn].
  pose proof (generate_scenario_nodes self s) as Hn1.
  unfold expand. rewrite run_bind.
  destruct (generate_scenario self s) as [s1 [[sc|]| |]]; cbn [fst snd] in *;
    [| |by rewrite Hn1..].
  - assert (Hn' : nodes s1 !! node = Some n) by by rewrite Hn1.
    rewrite (run_get_node _ _ _ _ Hn').
    destruct (dict_get (scenario_key sc) (children n)) as [child|] eqn:Hk.
    + unfold ret. cbn [fst snd]. rewrite Hn1. split; [done|].
      intros leaf [= <-].
      assert (Hin : (scenario_key sc, child) ∈ children n).
      { clear -Hk. induction (children n) as [|[k v] d IH]; [done|].
        simpl in Hk. case_decide; simplify_eq; [left|right; by apply IH]. }
      destruct (inv_children _ Hinv _ _ _ _ Hn Hin) as (cn & Hcn & _).
      by eapply lookup_lt_Some.
    + unfold bind, new_node, put_node, ret, set_nodes. cbn [fst snd nodes decks rng].
      rewrite Hn1. rewrite insert_app_l by done. split.
      * by apply tree_inv_added.
      * intros leaf [= <-]. rewrite length_app, length_insert. simpl. lia.
  - unfold ret. cbn [fst snd]. rewrite Hn1. split; [done|]. by intros leaf [= <-].
Qed.

Lemma backpropagate_inv self node r s :
  tree_inv (nodes s) → (node < length (nodes s))%nat → (r = 0 ∨ r = 1) →
  tree_inv (nodes (backpropagate self node r s).1) ∧
  (backpropagate self node r s).2 = Ok tt.
Proof.
  intros Hinv Hlt Hr. pose proof (tree_inv_parents_first _ Hinv) as Hp.
  unfold backpropagate.
  destruct (backpropagate_loop_path (length (nodes s)) node r s Hp Hlt Hlt)
    as (t' & -> & Ht').
  cbn [fst snd set_nodes nodes]. split; [|done].
  set (P := path_to_root (nodes s) node) in *.
  assert (Hback : ∀ j m, t' !! j = Some m →
    ∃ m0, nodes s !! j = Some m0 ∧ shape m = shape m0 ∧
      ((visits m = visits m0 + 1 ∧ wins m = wins m0 + r ∧ j ∈ P) ∨
       (visits m = visits m0 ∧ wins m = wins m0 ∧ j ∉ P))).
  { intros j m. rewrite Ht'. case_decide; intros Hj.
    - destruct (nodes s !! j) as [m0|]; simplify_eq/=. eexists; split; [done|]. 
      split; [done|]. left. done.
    - eexists; split; [done|]. split; [done|]. by right. }
  assert (Hfwd : ∀ j m0, nodes s !! j = Some m0 →
    ∃ m, t' !! j = Some m ∧ shape m = shape m0 ∧
      ((visits m = visits m0 + 1 ∧ j ∈ P) ∨ (visits m = visits m0 ∧ j ∉ P))).
  { intros j m0 Hj. rewrite Ht', Hj. case_decide; eexists; (split; [done|]); simpl; eauto. }
  split.
  - intros i m Hi. destruct (Hback _ _ Hi) as (m0 & Hm0 & _ & Hcase).
    pose proof (inv_counts _ Hinv _ _ Hm0). lia.
  - intros i m p Hi Hpar. destruct (Hback _ _ Hi) as (m0 & Hm0 & Hsh & Hcase).
    assert (Hpar0 : parent m0 = Some p) by (injection Hsh; congruence).
    destruct (inv_parent _ Hinv _ _ _ Hm0 Hpar0) as (Hpi & pn & Hpn & Hle).
    split; [done|]. destruct (Hfwd _ _ Hpn) as (pm & Hpm & _ & Hpcase).
    exists pm. split; [done|].
    destruct Hcase as [(-> & _ & Hin)|(-> & _ & Hnin)].
    + assert (p ∈ P) by (eapply path_fuel_parent; eauto; lia).
      destruct Hpcase as [[-> _]|[_ ?]]; [lia|done].
    + destruct Hpcase as [[-> _]|[-> _]]; lia.
  - intros i m k c Hi Hc. destruct (Hback _ _ Hi) as (m0 & Hm0 & Hsh & _).
    assert (Hch : children m = children m0) by (injection Hsh; congruence).
    rewrite Hch in Hc.
    destruct (inv_children _ Hinv _ _ _ _ Hm0 Hc) as (cn & Hcn & Hcp).
    destruct (Hfwd _ _ Hcn) as (cm & Hcm & Hcsh & _).
    exists cm. split; [done|]. injection Hcsh; congruence.
Qed.

Lemma search_iteration_inv self s :
  tree_inv (nodes s) → tree_inv (nodes (search_iteration self s).1).
Proof.
  intros Hinv. unfold search_iteration. rewrite run_bind. unfold select at 1 2.
  cbn [fst snd].
  destruct (select_loop _ _ _) as [leaf| |] eqn:Hsel; [|done..].
  destruct (select_loop_valid _ _ _ _ Hsel) as (n & Hn & _).
  rewrite (run_get_node _ _ _ _ Hn). rewrite run_bind.
  set (m := if 0 <? visits n then expand self leaf else ret leaf).
  assert (Hm : tree_inv (nodes (m s).1) ∧
               ∀ leaf', (m s).2 = Ok leaf' → (leaf' < length (nodes (m s).1))%nat).
  { subst m. destruct (0 <? visits n).
    - apply expand_inv; [done|]. by eapply lookup_lt_Some.
    - split; [done|]. intros leaf' [= <-]. by eapply lookup_lt_Some. }
  destruct Hm as [Hinv1 Hleaf]. destruct (m s) as [s1 [leaf'| |]]; cbn [fst snd] in *;
    [|done..].
  specialize (Hleaf _ eq_refl). rewrite run_bind.
  destruct (simulate_nodes self leaf' s1) as [Hn2 Hr].
  destruct (simulate self leaf' s1) as [s2 [r| |]]; cbn [fst snd] in *;
    [|by rewrite Hn2..].
  apply backpropagate_inv; [by rewrite Hn2|by rewrite Hn2|by apply Hr].
Qed.

Lemma search_loop_inv self start_time time_limit ticks : ∀ sims s,
  tree_inv (nodes s) →
  tree_inv (nodes (search_loop self start_time time_limit ticks sims s).1).
Proof.
  induction ticks as [|now ticks IH]; intros sims s Hinv; cbn [search_loop]; [done|].
  destruct (f_lt _ _); [|done]. rewrite run_bind.
  pose proof (search_iteration_inv self s Hinv) as Hinv1.
  destruct (search_iteration self s) as [s1 [[]| |]]; cbn [fst snd] in *; [|done..].
  by apply IH.
Qed.

Lemma search_result self clock time_limit s p :
  (search self clock time_limit s).2 = Ok p →
  ∃ root, nodes (search self clock time_limit s).1 !! bot_root self = Some root ∧
    p = if 0 <? visits root then f_truediv (wins root) (visits root)
        else f_of_int 0.
Proof.
  unfold search. destruct clock as [|start_time ticks]; [done|].
  rewrite run_bind.
  destruct (search_loop _ _ _ _ _ s) as [s1 [sims| |]]; cbn [fst snd]; [|done..].
  destruct (nodes s1 !! bot_root self) as [root|] eqn:Hroot;
    [|by rewrite run_get_node_None by done].
  rewrite (run_get_node _ _ _ _ Hroot). unfold ret. cbn [fst snd].
  intros [= <-]. eauto.
Qed.

Lemma search_inv self clock time_limit s :
  tree_inv (nodes s) → tree_inv (nodes (search self clock time_limit s).1).
Proof.
  intros Hinv. unfold search. destruct clock as [|start_time ticks]; [done|].
  rewrite run_bind.
  pose proof (search_loop_inv self start_time time_limit ticks 0 s Hinv) as Hinv1.
  destruct (search_loop _ _ _ _ _ s) as [s1 [sims| |]]; cbn [fst snd] in *; [|done..].
  destruct (nodes s1 !! bot_root self) as [root|] eqn:Hroot;
    [|by rewrite run_get_node_None by done].
  by rewrite (run_get_node _ _ _ _ Hroot).
Qed.

Lemma PokerBot_init_inv hand board deck evaluator s :
  tree_inv (nodes s) →
  tree_inv (nodes (PokerBot_init hand board deck evaluator s).1).
Proof.
  intros Hinv. unfold PokerBot_init, bind, new_node, ret. cbn [fst set_nodes nodes].
  assert (Hl : ∀ j m, (nodes s ++ [MCTSNode_init hand board None None]) !! j = Some m →
    nodes s !! j = Some m ∨ m = MCTSNode_init hand board None None).
  { intros j m Hj. apply lookup_app_Some in Hj as [?|[_ Hj]]; [by left|right].
    by apply list_lookup_singleton_Some in Hj as [_ <-]. }
  split.
  - intros i m Hi0. destruct (Hl _ _ Hi0) as [Hi| ->]; [by eapply inv_counts|done].
  - intros i m p Hi0 Hp. destruct (Hl _ _ Hi0) as [Hi| ->]; [|done].
    destruct (inv_parent _ Hinv _ _ _ Hi Hp) as (? & pn & Hpn & ?).
    split; [done|]. exists pn. split; [|done]. by apply lookup_app_l_Some.
  - intros i m k c Hi0 Hc.
    destruct (Hl _ _ Hi0) as [Hi| ->]; [|by apply elem_of_nil in Hc].
    destruct (inv_children _ Hinv _ _ _ _ Hi Hc) as (cn & Hcn & ?).
    exists cn. split; [|done]. by apply lookup_app_l_Some.
Qed.

(** C9. A node is created with no visits and no wins; the invariant (wins
    between 0 and visits in every node, no child visited more often than
    its parent) holds of the empty store, is kept by creating a bot, by
    every iteration of the search and by the search; and the probability a
    search returns lies between 0 and 1. *)
Theorem search_probability_bounded :
  ratio_in_unit_interval →
  (∀ hand board parent scenario,
     visits (MCTSNode_init hand board parent scenario) = 0 ∧
     wins (MCTSNode_init hand board parent scenario) = 0) ∧
  tree_inv [] ∧
  (∀ hand board deck evaluator s, tree_inv (nodes s) →
     tree_inv (nodes (PokerBot_init hand board deck evaluator s).1)) ∧
  (∀ self s, tree_inv (nodes s) → tree_inv (nodes (search_iteration self s).1)) ∧
  (∀ self clock time_limit s, tree_inv (nodes s) →
     tree_inv (nodes (search self clock time_limit s).1) ∧
     ∀ p, (search self clock time_limit s).2 = Ok p →
       f_le (f_of_int 0) p = true ∧ f_le p (f_of_int 1) = true).
Proof.
  intros (H00 & H01 & Hratio).
  split; [done|]. split; [apply tree_inv_nil|]. split; [apply PokerBot_init_inv|].
  split; [apply search_iteration_inv|].
  intros self clock time_limit s Hinv.
  pose proof (search_inv self clock time_limit s Hinv) as Hinv'.
  split; [done|]. intros p Hp.
  destruct (search_result _ _ _ _ _ Hp) as (root & Hroot & ->).
  pose proof (inv_counts _ Hinv' _ _ Hroot) as Hcnt.
  destruct (Z.ltb_spec 0 (visits root)); [|done].
  by apply Hratio.
Qed.

(** C6. When the leaf [select] returns has no visits, the iteration is the
    simulation of that leaf followed by the backpropagation from it, and
    it creates no node and changes no hand, board, parent, scenario or
    children; when the leaf has a visit, the iteration starts by expanding
    it, and simulates and backpropagates from what [expand] returns. *)
Theorem search_iteration_expands_visited self s leaf n :
  select self s = (s, Ok leaf) → nodes s !! leaf = Some n →
  (visits n ≤ 0 →
     search_iteration self s =
       (result ←$ simulate self leaf; backpropagate self leaf result) s ∧
     shape <$> nodes (search_iteration self s).1 = shape <$> nodes s) ∧
  (0 < visits n →
     search_iteration self s =
       (leaf' ←$ expand self leaf; result ←$ simulate self leaf';
        backpropagate self leaf' result) s).
Proof.
  intros Hsel Hn.
  assert (Hrun : search_iteration self s =
    (leaf' ←$ (if 0 <? visits n then expand self leaf else ret leaf);
     result ←$ simulate self leaf'; backpropagate self leaf' result) s).
  { unfold search_iteration. rewrite run_bind, Hsel. cbn [fst snd].
    by rewrite (run_get_node _ _ _ _ Hn). }
  split; intros Hv.
  - destruct (Z.ltb_spec 0 (visits n)); [lia|].
    assert (Heq : search_iteration self s =
      (result ←$ simulate self leaf; backpropagate self leaf result) s)
      by by rewrite Hrun.
    split; [done|]. rewrite Heq, run_bind.
    destruct (simulate_nodes self leaf s) as [Hn1 _].
    destruct (simulate self leaf s) as [s1 [r| |]]; cbn [fst snd] in *;
      [|by rewrite Hn1..].
    unfold backpropagate.
    destruct (backpropagate_loop_shape (length (nodes s1)) (Some leaf) r s1) as [-> _].
    by rewrite Hn1.
  - rewrite Hrun. by destruct (Z.ltb_spec 0 (visits n)); [|lia].
Qed.

(** C2, amended. [search] returns the win probability, wins/visits of the
    root after the loop, or 0 when the root has no visit; [make_decision]
    returns the decision alone, a string and not a pair: STAY when the
    probability is at least the threshold and FOLD otherwise. *)
Theorem make_decision_by_threshold self clock time_limit threshold s :
  let s' := (search self clock time_limit s).1 in
  (make_decision self clock time_limit threshold s).1 = s' ∧
  (∀ p, (search self clock time_limit s).2 = Ok p →
     (∃ root, nodes s' !! bot_root self = Some root ∧
        p = if 0 <? visits root then f_truediv (wins root) (visits root)
            else f_of_int 0) ∧
     (make_decision self clock time_limit threshold s).2 =
       Ok (PyStr (if f_le threshold p then "STAY" else "FOLD")%string)) ∧
  (∀ d, (make_decision self clock time_limit threshold s).2 = Ok d →
     ∃ p, (search self clock time_limit s).2 = Ok p ∧
       ((d = PyStr "STAY" ∧ f_le threshold p = true) ∨
        (d = PyStr "FOLD" ∧ f_le threshold p = false))).
Proof.
  intros s'. subst s'. unfold make_decision. rewrite run_bind.
  pose proof (search_result self clock time_limit s) as Hres.
  destruct (search self clock time_limit s) as [s1 [p| |]]; cbn [fst snd] in *.
  - split; [done|]. split.
    + intros p' [= <-]. split; [by apply Hres|done].
    + intros d [= <-]. exists p. split; [done|]. destruct (f_le threshold p); eauto.
  - by repeat split.
  - by repeat split.
Qed.
End Iteration.

(** ** The rational floats satisfy the facts assumed of floats *)

Lemma q_lt_Fin a b : q_lt (Fin a) (Fin b) = true ↔ (a < b)%Q.
Proof.
  simpl. rewrite negb_true_iff. split.
  - intros Hn. apply Qnot_le_lt. intros Hle. apply Qle_bool_iff in Hle. congruence.
  - intros Hlt. destruct (Qle_bool b a) eqn:Hle; [|done].
    apply Qle_bool_iff in Hle. by apply Qlt_not_le in Hlt.
Qed.

Lemma qfloat_lt_strict_order : lt_strict_order.
Proof.
  split.
  - intros [a|]; [|done]. simpl. apply negb_false_iff, Qle_bool_iff, Qle_refl.
  - intros [a|] [b|] [c|]; try done.
    rewrite !q_lt_Fin. apply Qlt_trans.
Qed.

Lemma q_ratio_pos a b : 0 ≤ a → 0 < b → (q_ratio a b == Qmake a (Z.to_pos b))%Q.
Proof.
  intros Ha Hb. unfold q_ratio. destruct (Z.ltb_spec b 0); [lia|]. apply Qred_correct.
Qed.

Lemma qfloat_log_ratio_not_negative : log_ratio_not_negative.
Proof.
  intros pv v Hv Hpv. cbn. apply negb_false_iff, Qle_bool_iff.
  rewrite !Qred_correct, q_ratio_pos by lia.
  apply Qmult_le_0_compat.
  - unfold Qle. simpl. pose proof (Z.log2_nonneg pv). lia.
  - unfold Qle. simpl. lia.
Qed.

Lemma qfloat_visited_score_finite : visited_score_finite.
Proof. intros w v pv _ _. reflexivity. Qed.

Lemma qfloat_ratio_in_unit_interval : ratio_in_unit_interval.
Proof.
  split; [done|]. split; [done|]. intros w v Hw Hv. cbn.
  rewrite !Qle_bool_iff, q_ratio_pos by lia.
  unfold Qle. simpl. rewrite Z2Pos.id by lia. lia.
Qed.

Lemma small_tree_inv : tree_inv small_tree.
Proof.
  split.
  - intros [|[|[|i]]] n Hi; simplify_eq/=; lia.
  - intros [|[|[|i]]] n p Hi Hp; simplify_eq/=; (split; [lia|]);
      eexists; (split; [done|]); simpl; lia.
  - intros [|[|[|i]]] n k c Hi Hc; simplify_eq/=.
    + apply elem_of_cons in Hc as [Hc|Hc]; simplify_eq; [by eexists|].
      apply list_elem_of_singleton in Hc. simplify_eq. by eexists.
    + by apply elem_of_nil in Hc.
    + by apply elem_of_nil in Hc.
Qed.


(** ** The statements at the small tree *)

Lemma select_descends_by_ucb1_witness :
  ∃ leaf, select demo_bot small_state = (small_state, Ok leaf) ∧
          descends small_tree 0 leaf.
Proof.
  apply (proj1 (select_descends_by_ucb1 demo_bot small_state
                  qfloat_lt_strict_order qfloat_log_ratio_not_negative
                  qfloat_visited_score_finite small_tree_inv ltac:(simpl; lia))).
Defined.

Lemma search_probability_bounded_witness :
  (search demo_bot demo_clock (Fin (9 # 2)) small_state).2 = Ok (Fin (1 # 6)) ∧
  f_le (f_of_int 0) (Fin (1 # 6)) = true ∧ f_le (Fin (1 # 6)) (f_of_int 1) = true.
Proof.
  split; [vm_compute; reflexivity|].
  apply (proj2 (proj2 (proj2 (proj2 (proj2
           (search_probability_bounded qfloat_ratio_in_unit_interval))))
           demo_bot demo_clock (Fin (9 # 2)) small_state small_tree_inv)).
  vm_compute; reflexivity.
Defined.

Lemma search_iteration_expands_visited_witness :
  search_iteration demo_bot small_state =
    (result ←$ simulate demo_bot 2; backpropagate demo_bot 2 result) small_state ∧
  shape <$> nodes (search_iteration demo_bot small_state).1 = shape <$> small_tree.
Proof.
  apply (proj1 (@search_iteration_expands_visited qfloat_Float sum_TupleHash
                  demo_bot small_state 2%nat _
                  ltac:(vm_compute; reflexivity) eq_refl)).
  simpl; lia.
Defined.

(** C2 as the spec has it fails: what [make_decision] returns is the
    decision, not a pair of the decision and the probability. *)
Lemma make_decision_returns_no_pair :
  (make_decision demo_bot [Fin 7; Fin 7] (Fin 0) (Fin (1 # 2)) fresh_state).2
    = Ok (PyStr "FOLD") ∧
  ¬ ∃ decision probability,
      (make_decision demo_bot [Fin 7; Fin 7] (Fin 0) (Fin (1 # 2)) fresh_state).2
        = Ok (PyTuple decision probability).
Proof.
  assert (Hrun : (make_decision demo_bot [Fin 7; Fin 7] (Fin 0) (Fin (1 # 2)) fresh_state).2
                 = Ok (PyStr "FOLD")) by (vm_compute; reflexivity).
  split; [done|]. rewrite Hrun. by intros (? & ? & ?).
Qed.

Lemma make_decision_by_threshold_witness :
  (make_decision demo_bot demo_clock (Fin (9 # 2)) (Fin (1 # 10)) small_state).2
    = Ok (PyStr "STAY").
Proof.
  apply (proj2 (proj1 (proj2 (@make_decision_by_threshold qfloat_Float sum_TupleHash
                  demo_bot demo_clock (Fin (9 # 2)) (Fin (1 # 10)) small_state))
           (Fin (1 # 6)) ltac:(vm_compute; reflexivity))).
Defined.

(** * Further properties *)

(** ** Cards and decks *)

Lemma all_values_spec v : 1 ≤ v ≤ 52 ↔ v ∈ all_values.
Proof.
  unfold all_values. rewrite list_elem_of_fmap. split.
  - intros Hv. exists (Z.to_nat v). split; [lia|]. apply elem_of_seq. lia.
  - intros (k & -> & Hk%elem_of_seq). lia.
Qed.

Lemma prints_back_all : forallb (λ v, prints_back {| value := v |}) all_values = true.
Proof. vm_compute. reflexivity. Qed.

(** X1. The print of a card the constructor can build is a valid code, and
    building a card from the print gives the card back; so two such cards
    with the same print are the same card. *)
Theorem Card_str_parses_back :
  (∀ c, card_ok c →
     ∃ code, Card_repr c = Ok code ∧ Card_str c = Ok code ∧ valid_code code = true ∧
             Card_init (OfStr code) = Ok c) ∧
  (∀ c1 c2 code, card_ok c1 → card_ok c2 →
     Card_str c1 = Ok code → Card_str c2 = Ok code → c1 = c2).
Proof.
  assert (Hback : ∀ c, card_ok c →
    ∃ code, Card_str c = Ok code ∧ valid_code code = true ∧
            Card_init (OfStr code) = Ok c).
  { intros [v]. unfold card_ok. cbn [value]. intros Hv%all_values_spec.
    pose proof prints_back_all as Hall. rewrite forallb_forall in Hall.
    apply list_elem_of_In in Hv. specialize (Hall _ Hv). unfold prints_back in Hall.
    destruct (Card_str {| value := v |}) as [code| |]; [|done..].
    apply andb_true_iff in Hall as [Hvalid Hb].
    destruct (Card_init (OfStr code)) as [c'| |] eqn:Hinit; [|done..].
    apply bool_decide_eq_true in Hb as ->. by exists code. }
  split.
  - intros c Hc. destruct (Hback c Hc) as (code & Hs & Hv & Hi).
    exists code. by rewrite <-Hs.
  - intros c1 c2 code H1 H2 Hs1 Hs2.
    destruct (Hback c1 H1) as (code1 & Hs1' & _ & Hi1).
    destruct (Hback c2 H2) as (code2 & Hs2' & _ & Hi2).
    congruence.
Qed.

Lemma Card_str_parses_back_witness :
  ∃ code, Card_repr {| value := 52 |} = Ok code ∧ Card_str {| value := 52 |} = Ok code ∧
    valid_code code = true ∧ Card_init (OfStr code) = Ok {| value := 52 |}.
Proof.
  apply (proj1 Card_str_parses_back {| value := 52 |}). unfold card_ok; simpl; lia.
Defined.

Lemma deck52_full :
  length deck52 = 52%nat ∧ NoDup deck52 ∧ Forall card_ok deck52 ∧
  (∀ c, card_ok c → c ∈ deck52) ∧
  ∀ i, (i < 52)%nat →
    deck52 !! i = Some {| value := Z.of_nat (i mod 13) * 4 + Z.of_nat (i / 13) + 1 |}.
Proof.
  split; [by vm_compute|]. split.
  { apply (bool_decide_unpack (NoDup deck52)). by vm_compute. }
  split.
  { assert (Hall : forallb (λ c, (1 <=? value c) && (value c <=? 52)) deck52 = true)
      by (vm_compute; reflexivity).
    rewrite forallb_forall in Hall. apply Forall_forall. intros c Hc.
    apply list_elem_of_In, Hall, andb_true_iff in Hc. unfold card_ok. lia. }
  split.
  { intros [v] Hv%all_values_spec.
    assert (Hall : forallb (λ v, bool_decide ({| value := v |} ∈ deck52)) all_values = true)
      by (vm_compute; reflexivity).
    rewrite forallb_forall in Hall. apply list_elem_of_In in Hv.
    exact (bool_decide_eq_true_1 _ (Hall _ Hv)). }
  intros i Hi.
  assert (Hall : forallb (λ i, bool_decide (deck52 !! i =
      Some {| value := Z.of_nat (i mod 13) * 4 + Z.of_nat (i / 13) + 1 |})) (seq 0 52) = true)
    by (vm_compute; reflexivity).
  rewrite forallb_forall in Hall. refine (bool_decide_eq_true_1 _ (Hall i _)).
  apply list_elem_of_In, elem_of_seq. lia.
Qed.

Lemma Deck_init_run s :
  Deck_init s = (set_decks (decks s ++ [deck52]) s, Ok (length (decks s))).
Proof. unfold Deck_init, bind, lift, new_deck. by rewrite Deck_init_cards_eq. Qed.

(** X2. [Deck()] adds one deck to the store and touches nothing else; the new
    deck holds 52 cards, each card of value 1..52 exactly once, suit by suit
    and by rising rank inside a suit. *)
Theorem Deck_init_full s :
  ∃ cards,
    Deck_init s = (set_decks (decks s ++ [cards]) s, Ok (length (decks s))) ∧
    length cards = 52%nat ∧ deck_ok cards ∧ (∀ c, card_ok c → c ∈ cards) ∧
    ∀ i, (i < 52)%nat →
      cards !! i = Some {| value := Z.of_nat (i mod 13) * 4 + Z.of_nat (i / 13) + 1 |}.
Proof.
  destruct deck52_full as (Hlen & Hnd & Hok & Hall & Hord).
  exists deck52. split; [apply Deck_init_run|]. by repeat split.
Qed.

Lemma randbelow_tape n tape : (randbelow n tape).2 = drop 1 tape.
Proof. by destruct tape. Qed.

Lemma shuffle_from_tape {A} i : ∀ (x : list A) tape,
  (shuffle_from i x tape).2 = drop i tape.
Proof.
  induction i as [|i IH]; intros x tape; [done|]. cbn [shuffle_from].
  pose proof (randbelow_tape (S (S i)) tape) as Hr.
  destruct (randbelow (S (S i)) tape) as [j tape']. cbn [snd] in Hr.
  rewrite IH, Hr, drop_drop. f_equal.
Qed.

Lemma shuffle_permutes_aux self s cards :
  decks s !! self = Some cards →
  ∃ cards',
    shuffle self s =
      ({| nodes := nodes s; decks := <[self := cards']> (decks s);
          rng := drop (length cards - 1) (rng s) |}, Ok tt) ∧
    cards' ≡ₚ cards.
Proof.
  intros Hc. rewrite (shuffle_run _ _ _ Hc).
  exists (random_shuffle cards (rng s)).1. split.
  - unfold random_shuffle. by rewrite shuffle_from_tape.
  - apply random_shuffle_Permutation.
Qed.

Lemma deck_ok_Permutation cards cards' : cards' ≡ₚ cards → deck_ok cards → deck_ok cards'.
Proof. intros Hp [Hnd Hok]. split; by rewrite Hp. Qed.

(** X3. [shuffle] leaves in the deck a permutation of its cards (so a deck of
    distinct valid cards stays one), reads one number of the random tape for
    every card but the first, and touches no other deck and no node. *)
Theorem shuffle_permutes self s cards :
  decks s !! self = Some cards →
  ∃ cards',
    shuffle self s =
      ({| nodes := nodes s; decks := <[self := cards']> (decks s);
          rng := drop (length cards - 1) (rng s) |}, Ok tt) ∧
    cards' ≡ₚ cards ∧ length cards' = length cards ∧
    (deck_ok cards → deck_ok cards') ∧
    ∀ d, d ≠ self → <[self := cards']> (decks s) !! d = decks s !! d.
Proof.
  intros Hc. destruct (shuffle_permutes_aux self s cards Hc) as (cards' & Hrun & Hp).
  exists cards'. split; [done|]. split; [done|]. split; [by rewrite Hp|].
  split; [by apply deck_ok_Permutation|].
  intros d Hd. by apply list_lookup_insert_ne.
Qed.

Lemma shuffle_permutes_witness :
  ∃ cards',
    shuffle 0 nine_state =
      ({| nodes := nodes nine_state; decks := <[0%nat := cards']> (decks nine_state);
          rng := drop (length nine_cards - 1) (rng nine_state) |}, Ok tt) ∧
    cards' ≡ₚ nine_cards ∧ length cards' = length nine_cards ∧
    (deck_ok nine_cards → deck_ok cards') ∧
    ∀ d, d ≠ 0%nat → <[0%nat := cards']> (decks nine_state) !! d = decks nine_state !! d.
Proof. apply (shuffle_permutes 0 nine_state nine_cards). reflexivity. Defined.

Lemma deal_cards_cases cards n :
  (Z.of_nat (length cards) < n ∧ deal_cards cards n = Raise (ValueError NotEnoughCards)) ∨
  (n ≤ Z.of_nat (length cards) ∧
   ∃ dealt rest, deal_cards cards n = Ok (dealt, rest) ∧ dealt ++ rest = cards ∧
     length dealt = Z.to_nat (if 0 <=? n then n else Z.of_nat (length cards) + n)).
Proof.
  unfold deal_cards, slice_bound.
  destruct (Z.ltb_spec (Z.of_nat (length cards)) n); [by left|right].
  split; [done|]. eexists _, _. split; [done|]. split; [apply take_drop|].
  rewrite length_take. destruct (Z.leb_spec 0 n); lia.
Qed.

Lemma deck_ok_app dealt rest :
  deck_ok (dealt ++ rest) →
  deck_ok dealt ∧ deck_ok rest ∧ ∀ c, c ∈ dealt → c ∉ rest.
Proof.
  intros [(Hd & Hdis & Hr)%NoDup_app [Hok1 Hok2]%Forall_app]. by repeat split.
Qed.

(** X4. [deal(n)] with more cards asked than the deck holds raises and leaves
    the store as it was.  Otherwise it returns the first cards of the deck
    and leaves the others, in order: nothing is lost or added; for a count
    that is not negative it returns exactly that many, and for a negative
    count it does not fail but returns all the cards but the last [-n] (none
    when there are not that many).  The cards dealt from a deck of distinct
    cards are distinct and no longer in the deck. *)
Theorem deal_conserves self n s cards :
  decks s !! self = Some cards →
  (Z.of_nat (length cards) < n →
     deal self n s = (s, Raise (ValueError NotEnoughCards))) ∧
  (n ≤ Z.of_nat (length cards) →
     ∃ dealt rest,
       deal self n s = (set_decks (<[self := rest]> (decks s)) s, Ok dealt) ∧
       dealt ++ rest = cards ∧
       (0 ≤ n → Z.of_nat (length dealt) = n ∧
                Z.of_nat (length rest) = Z.of_nat (length cards) - n) ∧
       (n < 0 → Z.of_nat (length dealt) = Z.max 0 (Z.of_nat (length cards) + n)) ∧
       (deck_ok cards → deck_ok dealt ∧ deck_ok rest ∧ ∀ c, c ∈ dealt → c ∉ rest)).
Proof.
  intros Hc. rewrite (deal_run _ _ _ _ Hc).
  destruct (deal_cards_cases cards n) as [[Hlt ->]|(Hle & dealt & rest & -> & Happ & Hlen)].
  - split; [done|lia].
  - split; [lia|]. intros _. exists dealt, rest. split; [done|]. split; [done|].
    assert (Hall : length cards = (length dealt + length rest)%nat)
      by by rewrite <-Happ, length_app.
    split; [|split].
    + intros Hn. destruct (Z.leb_spec 0 n); lia.
    + intros Hn. destruct (Z.leb_spec 0 n); lia.
    + intros Hok. apply deck_ok_app. by rewrite Happ.
Qed.

Lemma deal_conserves_witness :
  deal 0 10 nine_state = (nine_state, Raise (ValueError NotEnoughCards)) ∧
  ∃ dealt rest,
    deal 0 (-2) nine_state = (set_decks (<[0%nat := rest]> (decks nine_state)) nine_state, Ok dealt) ∧
    dealt ++ rest = nine_cards ∧ Z.of_nat (length dealt) = 7.
Proof.
  split.
  - apply (proj1 (deal_conserves 0 10 nine_state nine_cards eq_refl)). simpl; lia.
  - destruct (proj2 (deal_conserves 0 (-2) nine_state nine_cards eq_refl))
      as (dealt & rest & Hrun & Happ & _ & Hneg & _); [simpl; lia|].
    exists dealt, rest. split; [exact Hrun|]. split; [exact Happ|].
    rewrite Hneg by lia. reflexivity.
Defined.

Lemma copy_cards_cases cards :
  (Forall card_ok cards ∧ copy_cards cards = Ok cards) ∨
  (∃ pre c post, cards = pre ++ c :: post ∧ Forall card_ok pre ∧ ¬ card_ok c ∧
     copy_cards cards = Raise (ValueError (InvalidCardValue (value c)))).
Proof.
  induction cards as [|c cards IH].
  - left. by split.
  - destruct (decide (card_ok c)) as [Hc|Hc].
    + assert (Hone : Card_init (OfInt (value c)) = Ok c).
      { pose proof (copy_cards_ok [c] (Forall_cons_2 _ _ _ Hc (Forall_nil_2 _))) as H1.
        unfold copy_cards in H1. cbn [omap] in H1.
        by destruct (Card_init (OfInt (value c))) as [c'| |]; simplify_eq/=. }
      destruct IH as [[Hall Hcopy]|(pre & c' & post & -> & Hpre & Hc' & Hcopy)].
      * left. split; [by constructor|]. by apply copy_cards_ok; constructor.
      * right. exists (c :: pre), c', post. split; [done|]. split; [by constructor|].
        split; [done|]. unfold copy_cards in *. cbn [omap]. by rewrite Hone, Hcopy.
    + right. exists [], c, cards. split; [done|]. split; [done|]. split; [done|].
      unfold copy_cards. cbn [omap]. unfold Card_init, get_value.
      replace (negb _) with true; [done|]. symmetry.
      apply negb_true_iff, andb_false_iff. unfold card_ok in Hc.
      destruct (Z.leb_spec 1 (value c)); [right; apply Z.leb_gt; lia|by left].
Qed.

Lemma deal_other self n s d : d ≠ self → decks (deal self n s).1 !! d = decks s !! d.
Proof.
  intros Hd. destruct (decks s !! self) as [cards|] eqn:Hc.
  - rewrite (deal_run _ _ _ _ Hc). destruct (deal_cards cards n) as [dr| |]; [|done..].
    cbn [fst set_decks decks]. by apply list_lookup_insert_ne.
  - unfold deal, bind, get_cards. by rewrite Hc.
Qed.

Lemma shuffle_other self s d : d ≠ self → decks (shuffle self s).1 !! d = decks s !! d.
Proof.
  intros Hd. destruct (decks s !! self) as [cards|] eqn:Hc.
  - rewrite (shuffle_run _ _ _ Hc). cbn [fst decks]. by apply list_lookup_insert_ne.
  - unfold shuffle, bind, get_cards. by rewrite Hc.
Qed.

(** X5. [copy] of a deck of valid cards adds to the store a new deck with the
    same cards in the same order and leaves the deck it copies alone, and
    dealing from the copy or shuffling it afterwards does not change the
    original.  When a card of the deck has a value outside 1..52, [copy]
    raises for the first such card and the original is unchanged. *)
Theorem copy_is_independent self s cards :
  decks s !! self = Some cards →
  let s1 := (copy self s).1 in
  let new := length (decks s) in
  decks s1 !! self = Some cards ∧ nodes s1 = nodes s ∧ rng s1 = rng s ∧
  (Forall card_ok cards →
     copy self s = (set_decks (decks s ++ [cards]) s, Ok new) ∧ new ≠ self ∧
     (∀ n, decks (deal new n s1).1 !! self = Some cards) ∧
     decks (shuffle new s1).1 !! self = Some cards) ∧
  (¬ Forall card_ok cards →
     ∃ pre c post, cards = pre ++ c :: post ∧ Forall card_ok pre ∧ ¬ card_ok c ∧
       (copy self s).2 = Raise (ValueError (InvalidCardValue (value c)))).
Proof.
  intros Hc s1 new. subst s1 new. rewrite (copy_run _ _ _ Hc).
  pose proof (lookup_lt_Some _ _ _ Hc) as Hlt.
  assert (Hkeep : ∀ l, (decks s ++ [l]) !! self = Some cards)
    by (intros l; by apply lookup_app_l_Some).
  destruct (copy_cards_cases cards)
    as [[Hall ->]|(pre & c & post & Hcards & Hpre & Hbad & ->)];
    cbn [fst snd set_decks decks nodes rng].
  - do 3 (split; [done|]). split; [|done]. intros _.
    split; [done|]. split; [lia|]. split.
    + intros n. rewrite deal_other by lia. apply Hkeep.
    + rewrite shuffle_other by lia. apply Hkeep.
  - do 3 (split; [done|]). split.
    + intros Hall. exfalso. apply Hbad. rewrite Hcards in Hall.
      by apply Forall_app in Hall as [_ [? _]%Forall_cons].
    + intros _. by exists pre, c, post.
Qed.

Lemma copy_is_independent_witness :
  copy 0 nine_state = (set_decks (decks nine_state ++ [nine_cards]) nine_state, Ok 1%nat) ∧
  ∀ n, decks (deal 1 n (copy 0 nine_state).1).1 !! 0%nat = Some nine_cards.
Proof.
  destruct (proj1 (proj2 (proj2 (proj2 (copy_is_independent 0 nine_state nine_cards eq_refl)))))
    as (Hrun & _ & Hdeal & _).
  - repeat constructor; unfold card_ok; simpl; lia.
  - split; [exact Hrun | exact Hdeal].
Defined.

(** ** The evaluator *)

Lemma omap_Ok_Forall2 {A B} (f : A → outcome B) l l' :
  omap f l = Ok l' → Forall2 (λ x y, f x = Ok y) l l'.
Proof.
  revert l'. induction l as [|x l IH]; intros l' Hl; simpl in Hl.
  - injection Hl as <-. constructor.
  - destruct (f x) as [y| |] eqn:Hx; simpl in Hl; [|done..].
    destruct (omap f l) as [ys| |]; simpl in Hl; [|done..].
    injection Hl as <-. constructor; eauto.
Qed.

Lemma evaluate_hand_Ok self cards ev :
  evaluate_hand self cards = Ok ev →
  ∃ vals p, omap get_value cards = Ok vals ∧ length cards = 7%nat ∧
    table_walk (hand_ranks self) 53 vals = Ok p ∧
    ev = (p, Z.land p 4095, Z.shiftr p 12,
          default "Unknown"%string (dict_get (Z.shiftr p 12) HAND_TYPES)).
Proof.
  unfold evaluate_hand.
  destruct (omap get_value cards) as [vals| |] eqn:Hv; cbn [obind]; [|done..].
  case_bool_decide as Hlen; [done|].
  destruct (table_walk _ _ _) as [p| |] eqn:Hw; cbn [obind]; [|done..].
  intros [= <-]. exists vals, p.
  assert (length cards = 7%nat).
  { apply omap_length in Hv as Hl. destruct (decide (length vals = 7%nat)); [lia|done]. }
  by repeat split.
Qed.

Lemma HAND_TYPES_get t :
  (1 ≤ t ≤ 9 → ∃ name, dict_get t HAND_TYPES = Some name ∧ name ≠ "Unknown"%string) ∧
  (¬ 1 ≤ t ≤ 9 → dict_get t HAND_TYPES = None).
Proof.
  unfold HAND_TYPES. cbn [dict_get]. split.
  - intros Ht. repeat (case_decide; [eexists; split; [reflexivity|discriminate]|]). lia.
  - intros Ht. repeat (case_decide; [lia|]). done.
Qed.

(** X6. What [evaluate_hand] returns for an input it accepts: the input has 7
    cards, the value is the entry the walk of the table ends on, the rank is
    its low 12 bits and the type the bits above, so that
    value = type * 4096 + rank with 0 <= rank < 4096, and the name is the
    entry of HAND_TYPES for a type in 1..9 and "Unknown" for every other
    type. *)
Theorem evaluate_hand_unpacks self cards value hand_rank hand_type hand_name :
  evaluate_hand self cards = Ok (value, hand_rank, hand_type, hand_name) →
  length cards = 7%nat ∧
  (∃ vals, omap get_value cards = Ok vals ∧
           table_walk (hand_ranks self) 53 vals = Ok value) ∧
  0 ≤ hand_rank < 4096 ∧ value = hand_type * 4096 + hand_rank ∧
  (1 ≤ hand_type ≤ 9 → dict_get hand_type HAND_TYPES = Some hand_name) ∧
  (hand_name = "Unknown"%string ↔ ¬ 1 ≤ hand_type ≤ 9).
Proof.
  intros (vals & p & Hv & Hlen & Hw & Hev)%evaluate_hand_Ok.
  assert (value = p ∧ hand_rank = Z.land p 4095 ∧ hand_type = Z.shiftr p 12 ∧
          hand_name = default "Unknown"%string (dict_get (Z.shiftr p 12) HAND_TYPES))
    as (-> & -> & -> & ->) by (by injection Hev).
  change 4095 with (Z.ones 12). rewrite Z.land_ones, Z.shiftr_div_pow2 by lia.
  change (2 ^ 12) with 4096.
  split; [done|]. split; [eauto|].
  split; [apply Z.mod_pos_bound; lia|].
  split; [pose proof (Z.div_mod p 4096); lia|].
  destruct (HAND_TYPES_get (p / 4096)) as [Hin Hout].
  split.
  - intros Ht. destruct (Hin Ht) as (name & Hget & _). by rewrite Hget.
  - split.
    + intros Hname Ht. destruct (Hin Ht) as (name & Hget & Hne).
      rewrite Hget in Hname. by apply Hne.
    + intros Ht. by rewrite (Hout Ht).
Qed.

Lemma py_getitem_in_range {A} (l : list A) i :
  0 ≤ i < Z.of_nat (length l) → ∃ x, py_getitem l i = Some x ∧ x ∈ l.
Proof.
  intros Hi. unfold py_getitem. destruct (Z.leb_spec 0 i); [|lia].
  destruct (lookup_lt_is_Some_2 l (Z.to_nat i)) as [x Hx]; [lia|].
  exists x. split; [done|]. by eapply list_elem_of_lookup_2.
Qed.

Lemma py_getitem_beyond {A} (l : list A) i :
  Z.of_nat (length l) ≤ i → py_getitem l i = None.
Proof.
  intros Hi. unfold py_getitem. destruct (Z.leb_spec 0 i); [|lia].
  apply lookup_ge_None_2. lia.
Qed.

Lemma table_walk_closed table : table_closed table → ∀ vals p,
  0 ≤ p → p + 52 < Z.of_nat (length table) → Forall (λ c, 1 ≤ c ≤ 52) vals →
  ∃ v, table_walk table p vals = Ok v.
Proof.
  intros [_ Hcl]. induction vals as [|c vals IH]; intros p Hp0 Hp Hvals; [by eexists|].
  apply Forall_cons in Hvals as [Hc Hvals]. cbn [table_walk].
  destruct (py_getitem_in_range table (p + c)) as (e & -> & He); [lia|].
  rewrite Forall_forall in Hcl. destruct (Hcl e He). by apply IH.
Qed.

Lemma table_walk_fails table vals p e :
  table_walk table p vals = Raise e → e = IndexError.
Proof.
  revert p. induction vals as [|c vals IH]; intros p; cbn [table_walk]; [done|].
  destruct (py_getitem table (p + c)); [apply IH|by intros [= <-]].
Qed.

Lemma table_walk_not_Stuck table vals p : table_walk table p vals ≠ Stuck.
Proof.
  revert p. induction vals as [|c vals IH]; intros p; cbn [table_walk]; [done|].
  by destruct (py_getitem table (p + c)).
Qed.

Lemma omap_in_range cards :
  Forall converts_in_range cards →
  ∃ vals, omap get_value cards = Ok vals ∧ Forall (λ c, 1 ≤ c ≤ 52) vals.
Proof.
  induction 1 as [|c cards (v & Hv & Hr) _ (vals & Hvals & Hrs)]; [by exists []|].
  exists (v :: vals). cbn [omap]. rewrite Hv, Hvals. split; [done|by constructor].
Qed.

Lemma evaluate_hand_fails self cards e :
  evaluate_hand self cards = Raise e → (∃ m, e = ValueError m) ∨ e = IndexError.
Proof.
  unfold evaluate_hand.
  destruct (omap get_value cards) as [vals| |] eqn:Hv; cbn [obind].
  - case_bool_decide; [intros [= <-]; eauto|].
    destruct (table_walk _ _ _) as [p| |] eqn:Hw; cbn [obind]; [done| |done].
    intros [= <-]. right. by eapply table_walk_fails.
  - intros [= <-]. left. by eapply omap_get_value_fails.
  - done.
Qed.

Lemma evaluate_hand_not_Stuck self cards : evaluate_hand self cards ≠ Stuck.
Proof.
  unfold evaluate_hand.
  destruct (omap get_value cards) as [vals| |] eqn:Hv; cbn [obind]; [|done|].
  - case_bool_decide; [done|].
    destruct (table_walk _ _ _) as [p| |] eqn:Hw; cbn [obind]; [done..|].
    by apply table_walk_not_Stuck in Hw.
  - by apply (omap_not_Stuck _ _ get_value_not_Stuck) in Hv.
Qed.

Lemma evaluate_hand_closed self cards :
  table_closed (hand_ranks self) → length cards = 7%nat →
  Forall converts_in_range cards → ∃ ev, evaluate_hand self cards = Ok ev.
Proof.
  intros Hcl Hlen Hcards. pose proof Hcl as [Hsize _].
  destruct (omap_in_range cards Hcards) as (vals & Hv & Hr).
  unfold evaluate_hand. rewrite Hv. cbn [obind].
  apply omap_length in Hv as Hl. rewrite bool_decide_eq_false_2 by lia.
  destruct (table_walk_closed _ Hcl vals 53) as [v ->]; [lia|lia|done|].
  cbn [obind]. eauto.
Qed.

(** X7. [evaluate_hand] fails in two ways only, a ValueError (a card that does
    not convert, or not 7 cards) and an IndexError (the walk leaves the
    table).  It returns for every 7 cards of values 1..52 when every entry of
    the table, and the start 53, leaves room for a card above it; and it
    raises IndexError for every such 7 cards when the table has at most 54
    entries. *)
Theorem evaluate_hand_walks_table self cards :
  (∀ e, evaluate_hand self cards = Raise e → (∃ m, e = ValueError m) ∨ e = IndexError) ∧
  evaluate_hand self cards ≠ Stuck ∧
  (length cards = 7%nat → Forall converts_in_range cards →
     (table_closed (hand_ranks self) → ∃ ev, evaluate_hand self cards = Ok ev) ∧
     ((length (hand_ranks self) ≤ 54)%nat → evaluate_hand self cards = Raise IndexError)).
Proof.
  split; [apply evaluate_hand_fails|]. split; [apply evaluate_hand_not_Stuck|].
  intros Hlen Hcards. split; [intros; by apply evaluate_hand_closed|].
  intros Hsmall. destruct (omap_in_range cards Hcards) as (vals & Hv & Hr).
  unfold evaluate_hand. rewrite Hv. cbn [obind].
  apply omap_length in Hv as Hl. rewrite bool_decide_eq_false_2 by lia.
  destruct vals as [|c vals]; [simpl in Hl; lia|].
  apply Forall_cons in Hr as [Hc _]. cbn [table_walk].
  by rewrite py_getitem_beyond by lia.
Qed.

Lemma demo_table_closed : table_closed demo_table.
Proof.
  split; [by vm_compute|].
  assert (Hall : forallb (λ e, (0 <=? e) && (e + 52 <? 200)) demo_table = true)
    by (vm_compute; reflexivity).
  rewrite forallb_forall in Hall. apply Forall_forall. intros e He.
  apply list_elem_of_In, Hall, andb_true_iff in He as [H0 H1].
  change (Z.of_nat (length demo_table)) with 200. lia.
Qed.

Lemma seven_cards_in_range : Forall converts_in_range seven_cards.
Proof.
  unfold seven_cards.
  repeat (apply Forall_cons_2; [eexists; split; [reflexivity|simpl; lia]|]).
  apply Forall_nil_2.
Qed.

Lemma evaluate_hand_walks_table_witness :
  (∃ ev, evaluate_hand {| hand_ranks := demo_table |} seven_cards = Ok ev) ∧
  evaluate_hand {| hand_ranks := [] |} seven_cards = Raise IndexError.
Proof.
  split.
  - apply (proj1 (proj2 (proj2 (evaluate_hand_walks_table {| hand_ranks := demo_table |}
             seven_cards)) eq_refl seven_cards_in_range)).
    exact demo_table_closed.
  - apply (proj2 (proj2 (proj2 (evaluate_hand_walks_table {| hand_ranks := [] |}
             seven_cards)) eq_refl seven_cards_in_range)).
    simpl; lia.
Defined.

Lemma compare_hands_Ok self hand1 hand2 board r e1 e2 :
  compare_hands self hand1 hand2 board = Ok (r, e1, e2) →
  length hand1 = 2%nat ∧ length hand2 = 2%nat ∧ length board = 5%nat ∧
  evaluate_hand self (hand1 ++ board) = Ok e1 ∧
  evaluate_hand self (hand2 ++ board) = Ok e2 ∧
  r = (if e2.1.1.1 <? e1.1.1.1 then 1 else if e1.1.1.1 <? e2.1.1.1 then -1 else 0).
Proof.
  unfold compare_hands. repeat case_bool_decide; cbn [orb]; try done.
  destruct (evaluate_hand self (hand1 ++ board)) as [ev1| |]; cbn [obind]; [|done..].
  destruct (evaluate_hand self (hand2 ++ board)) as [ev2| |]; cbn [obind]; [|done..].
  intros Hr.
  assert (length hand1 = 2%nat) by (destruct (decide (length hand1 = 2%nat)); done).
  assert (length hand2 = 2%nat) by (destruct (decide (length hand2 = 2%nat)); done).
  assert (length board = 5%nat) by (destruct (decide (length board = 5%nat)); done).
  assert (He : e1 = ev1 ∧ e2 = ev2).
  { destruct (ev2.1.1.1 <? ev1.1.1.1); [by simplify_eq|].
    destruct (ev1.1.1.1 <? ev2.1.1.1); by simplify_eq. }
  destruct He as [-> ->].
  destruct (ev2.1.1.1 <? ev1.1.1.1); [by simplify_eq|].
  destruct (ev1.1.1.1 <? ev2.1.1.1); by simplify_eq.
Qed.

Lemma compare_hands_run self hand1 hand2 board e1 e2 :
  length hand1 = 2%nat → length hand2 = 2%nat → length board = 5%nat →
  evaluate_hand self (hand1 ++ board) = Ok e1 →
  evaluate_hand self (hand2 ++ board) = Ok e2 →
  compare_hands self hand1 hand2 board =
    Ok (if e2.1.1.1 <? e1.1.1.1 then 1 else if e1.1.1.1 <? e2.1.1.1 then -1 else 0,
        e1, e2).
Proof.
  intros H1 H2 Hb He1 He2. unfold compare_hands.
  rewrite !bool_decide_eq_false_2 by (intros Hn; by apply Hn). cbn [orb].
  rewrite He1, He2. cbn [obind].
  destruct (e2.1.1.1 <? e1.1.1.1); [done|]. by destruct (e1.1.1.1 <? e2.1.1.1).
Qed.

(** X8. When [compare_hands] returns (r, eval1, eval2), the evaluations are
    those of each hand with the board, r is 1, -1 or 0 as the value of the
    first is above, below or equal to that of the second, and comparing the
    hands the other way round returns (-r, eval2, eval1). *)
Theorem compare_hands_antisymmetric self hand1 hand2 board r eval1 eval2 :
  compare_hands self hand1 hand2 board = Ok (r, eval1, eval2) →
  evaluate_hand self (hand1 ++ board) = Ok eval1 ∧
  evaluate_hand self (hand2 ++ board) = Ok eval2 ∧
  (r = 1 ↔ eval2.1.1.1 < eval1.1.1.1) ∧
  (r = -1 ↔ eval1.1.1.1 < eval2.1.1.1) ∧
  (r = 0 ↔ eval1.1.1.1 = eval2.1.1.1) ∧
  compare_hands self hand2 hand1 board = Ok (- r, eval2, eval1).
Proof.
  intros (H1 & H2 & Hb & He1 & He2 & Hr)%compare_hands_Ok.
  split; [done|]. split; [done|].
  rewrite (compare_hands_run self hand2 hand1 board eval2 eval1) by done.
  subst r.
  destruct (Z.ltb_spec eval2.1.1.1 eval1.1.1.1), (Z.ltb_spec eval1.1.1.1 eval2.1.1.1);
    repeat split; try lia; try done.
Qed.

Lemma evaluate_hand_unpacks_witness :
  length ([OfStr "Kd"; OfStr "Kc"] ++ demo_board) = 7%nat ∧
  (∃ vals, omap get_value ([OfStr "Kd"; OfStr "Kc"] ++ demo_board) = Ok vals ∧
           table_walk wide_table 53 vals = Ok 4278) ∧
  0 ≤ 182 < 4096 ∧ 4278 = 1 * 4096 + 182 ∧
  (1 ≤ 1 ≤ 9 → dict_get 1 HAND_TYPES = Some "High Card"%string) ∧
  ("High Card"%string = "Unknown"%string ↔ ¬ 1 ≤ 1 ≤ 9).
Proof.
  apply (evaluate_hand_unpacks {| hand_ranks := wide_table |}
           ([OfStr "Kd"; OfStr "Kc"] ++ demo_board) 4278 182 1 "High Card").
  vm_compute; reflexivity.
Defined.

Lemma compare_hands_antisymmetric_witness :
  compare_hands {| hand_ranks := wide_table |} [OfStr "Kd"; OfStr "Kc"]
    [OfStr "As"; OfStr "Ah"] demo_board
  = Ok (- -1, (4278, 182, 1, "High Card"%string), (518, 518, 0, "Unknown"%string)).
Proof.
  apply (compare_hands_antisymmetric {| hand_ranks := wide_table |}
           [OfStr "As"; OfStr "Ah"] [OfStr "Kd"; OfStr "Kc"] demo_board (-1)
           (518, 518, 0, "Unknown"%string) (4278, 182, 1, "High Card"%string)).
  vm_compute; reflexivity.
Defined.

(** ** What the search leaves alone *)

Lemma decks_kept_refl s : decks_kept s s.
Proof. split; [done|]. by exists 0%nat. Qed.

Lemma decks_kept_trans s1 s2 s3 : decks_kept s1 s2 → decks_kept s2 s3 → decks_kept s1 s3.
Proof.
  intros [Hd1 [k1 Hk1]] [Hd2 [k2 Hk2]]. split; [eauto|].
  exists (k1 + k2)%nat. by rewrite Hk2, Hk1, drop_drop.
Qed.

Lemma decks_kept_nodes s t : decks_kept s (set_nodes t s).
Proof. split; [done|]. by exists 0%nat. Qed.

Lemma sample_tape cards bl tape : ∃ k, (sample cards bl tape).1.2 = drop k tape.
Proof.
  unfold sample. destruct (copy_cards cards) as [l| |]; [|by exists 0%nat..].
  pose proof (shuffle_from_tape (length l - 1) l tape) as Ht.
  fold (random_shuffle l tape) in Ht.
  destruct (random_shuffle l tape) as [sh tape']. cbn [snd] in Ht.
  exists (length l - 1)%nat.
  destruct (deal_cards sh 2) as [[op rest]| |]; [|done..].
  destruct (0 <? _); [|done].
  by destruct (deal_cards rest _) as [[nb rest']| |].
Qed.

Lemma generate_scenario_kept self s : decks_kept s (generate_scenario self s).1.
Proof.
  rewrite generate_scenario_run.
  destruct (bot_deck self) as [deck|]; [|apply decks_kept_refl].
  destruct (decks s !! deck) as [l|]; [|apply decks_kept_refl].
  case_decide; [apply decks_kept_refl|].
  destruct (sample_tape l (length (bot_board self)) (rng s)) as [k Hk].
  destruct (sample _ _ _) as [[rest tape] r]. cbn [fst snd] in *. split.
  - intros d cards Hd. by apply lookup_app_l_Some.
  - by exists k.
Qed.

Section Frame.
Context `{Float} `{TupleHash}.

(** The cases of [expand], on the store. *)
Lemma expand_cases self node s n :
  nodes s !! node = Some n →
  let s1 := (generate_scenario self s).1 in
  match (generate_scenario self s).2 with
  | Ok None => expand self node s = (s1, Ok node)
  | Ok (Some sc) =>
      match dict_get (scenario_key sc) (children n) with
      | Some child => expand self node s = (s1, Ok child)
      | None =>
          expand self node s =
            (set_nodes
               (<[node := {| hand := hand n; board := board n; parent := parent n;
                             scenario := scenario n; visits := visits n;
                             wins := wins n;
                             children := children n ++
                               [(scenario_key sc, length (nodes s))] |}]> (nodes s) ++
                [MCTSNode_init (hand n) (board n) (Some node) (Some sc)]) s1,
             Ok (length (nodes s)))
      end
  | Raise e => expand self node s = (s1, Raise e)
  | Stuck => expand self node s = (s1, Stuck)
  end.
Proof.
  intros Hn s1. subst s1. pose proof (generate_scenario_nodes self s) as Hn1.
  unfold expand. rewrite run_bind.
  destruct (generate_scenario self s) as [s1 [[sc|]| |]]; cbn [fst snd] in *; try done.
  assert (Hn' : nodes s1 !! node = Some n) by by rewrite Hn1.
  rewrite (run_get_node _ _ _ _ Hn').
  destruct (dict_get (scenario_key sc) (children n)) as [child|]; [done|].
  unfold bind, new_node, put_node, ret, set_nodes. cbn [nodes decks rng].
  rewrite Hn1. by rewrite insert_app_l by by eapply lookup_lt_Some.
Qed.

Lemma expand_kept self node s : decks_kept s (expand self node s).1.
Proof.
  pose proof (generate_scenario_kept self s) as Hk.
  destruct (nodes s !! node) as [n|] eqn:Hn.
  - pose proof (expand_cases self node s n Hn) as Hc. cbn zeta in Hc.
    destruct (generate_scenario self s).2 as [[sc|]| |]; try by rewrite Hc.
    destruct (dict_get _ _); rewrite Hc; [done|].
    cbn [fst]. eapply decks_kept_trans; [done|apply decks_kept_nodes].
  - unfold expand. rewrite run_bind.
    pose proof (generate_scenario_nodes self s) as Hn1.
    destruct (generate_scenario self s) as [s1 [[sc|]| |]]; cbn [fst snd] in *; try done.
    by rewrite run_get_node_None by by rewrite Hn1.
Qed.

Lemma simulate_kept self node s : decks_kept s (simulate self node s).1.
Proof.
  unfold simulate.
  destruct (nodes s !! node) as [n|] eqn:Hn;
    [|rewrite run_get_node_None by done; apply decks_kept_refl].
  rewrite (run_get_node _ _ _ _ Hn), run_bind.
  set (m := match scenario n with None => generate_scenario self | Some sc => ret (Some sc) end).
  assert (Hm : decks_kept s (m s).1).
  { subst m. destruct (scenario n); [apply decks_kept_refl|apply generate_scenario_kept]. }
  destruct (m s) as [s1 [[sc|]| |]]; cbn [fst snd] in *; try done.
  destruct sc as [op_hand new_board]. unfold bind, lift, ret.
  by destruct (compare_hands _ _ _ _) as [cmp| |].
Qed.

Lemma backpropagate_kept self node r s : decks_kept s (backpropagate self node r s).1.
Proof.
  unfold backpropagate.
  destruct (backpropagate_loop_shape (length (nodes s)) (Some node) r s) as (_ & Hd & Hr).
  split; [by rewrite Hd|]. exists 0%nat. by rewrite Hr.
Qed.

Lemma search_iteration_kept self s : decks_kept s (search_iteration self s).1.
Proof.
  unfold search_iteration. rewrite run_bind. unfold select at 1 2. cbn [fst snd].
  destruct (select_loop _ _ _) as [leaf| |]; try apply decks_kept_refl.
  destruct (nodes s !! leaf) as [n|] eqn:Hn;
    [|rewrite run_get_node_None by done; apply decks_kept_refl].
  rewrite (run_get_node _ _ _ _ Hn), run_bind.
  set (m := if 0 <? visits n then expand self leaf else ret leaf).
  assert (Hm : decks_kept s (m s).1).
  { subst m. destruct (0 <? visits n); [apply expand_kept|apply decks_kept_refl]. }
  destruct (m s) as [s1 [leaf'| |]]; cbn [fst snd] in *; try done.
  rewrite run_bind. pose proof (simulate_kept self leaf' s1) as Hs.
  destruct (simulate self leaf' s1) as [s2 [r| |]]; cbn [fst snd] in *;
    try by eapply decks_kept_trans.
  eapply decks_kept_trans; [done|]. eapply decks_kept_trans; [done|].
  apply backpropagate_kept.
Qed.

Lemma search_loop_kept self start_time time_limit ticks : ∀ sims s,
  decks_kept s (search_loop self start_time time_limit ticks sims s).1.
Proof.
  induction ticks as [|now ticks IH]; intros sims s; cbn [search_loop];
    [apply decks_kept_refl|].
  destruct (f_lt _ _); [|apply decks_kept_refl]. rewrite run_bind.
  pose proof (search_iteration_kept self s) as Hk.
  destruct (search_iteration self s) as [s1 [[]| |]]; cbn [fst snd] in *; try done.
  eapply decks_kept_trans; [done|apply IH].
Qed.

Lemma search_kept self clock time_limit s :
  decks_kept s (search self clock time_limit s).1.
Proof.
  unfold search. destruct clock as [|start_time ticks]; [apply decks_kept_refl|].
  rewrite run_bind. pose proof (search_loop_kept self start_time time_limit ticks 0 s) as Hk.
  destruct (search_loop _ _ _ _ _ s) as [s1 [sims| |]]; cbn [fst snd] in *; try done.
  destruct (nodes s1 !! bot_root self) as [root|] eqn:Hroot;
    [by rewrite (run_get_node _ _ _ _ Hroot)|by rewrite run_get_node_None].
Qed.

Lemma make_decision_state self clock time_limit threshold s :
  (make_decision self clock time_limit threshold s).1 = (search self clock time_limit s).1.
Proof.
  unfold make_decision. rewrite run_bind.
  by destruct (search self clock time_limit s) as [s1 [p| |]].
Qed.

(** X9. Whatever a search does and however it ends, every deck that was in
    the store is still there with the same cards in the same order (the
    search works on copies), and the random tape is only read forward.  The
    same holds of one iteration and of [make_decision]. *)
Theorem search_keeps_decks self clock time_limit threshold s :
  decks_kept s (search_iteration self s).1 ∧
  decks_kept s (search self clock time_limit s).1 ∧
  decks_kept s (make_decision self clock time_limit threshold s).1.
Proof.
  split; [apply search_iteration_kept|]. split; [apply search_kept|].
  rewrite make_decision_state. apply search_kept.
Qed.

End Frame.

(** ** The tree only grows, in single file *)

Lemma node_grows_refl n : node_grows n n.
Proof. by repeat split. Qed.

Lemma node_grows_trans n1 n2 n3 : node_grows n1 n2 → node_grows n2 n3 → node_grows n1 n3.
Proof.
  intros (? & ? & ? & ? & ? & ? & ?) (? & ? & ? & ? & ? & ? & ?).
  repeat split; try congruence; try lia. by etrans.
Qed.

Lemma tree_grows_refl t : tree_grows t t.
Proof. intros i n Hi. exists n. split; [done|apply node_grows_refl]. Qed.

Lemma tree_grows_trans t1 t2 t3 : tree_grows t1 t2 → tree_grows t2 t3 → tree_grows t1 t3.
Proof.
  intros H12 H23 i n Hi. destruct (H12 _ _ Hi) as (n2 & Hi2 & Hg2).
  destruct (H23 _ _ Hi2) as (n3 & Hi3 & Hg3). exists n3. split; [done|].
  by eapply node_grows_trans.
Qed.

Lemma tree_grows_insert (t : list MCTSNode) i n n' :
  t !! i = Some n → node_grows n n' → tree_grows t (<[i := n']> t).
Proof.
  intros Hi Hg j m Hj. destruct (decide (j = i)) as [->|Hne].
  - rewrite list_lookup_insert_eq by by eapply lookup_lt_Some.
    simplify_eq. eauto.
  - rewrite list_lookup_insert_ne by done. exists m. split; [done|apply node_grows_refl].
Qed.

Lemma tree_grows_app t l : tree_grows t (t ++ l).
Proof.
  intros i n Hi. exists n. split; [by apply lookup_app_l_Some|apply node_grows_refl].
Qed.

Lemma backpropagate_loop_grows fuel : ∀ node r s, 0 ≤ r →
  tree_grows (nodes s) (nodes (backpropagate_loop fuel node r s).1).
Proof.
  induction fuel as [|fuel IH]; intros [i|] r s Hr; cbn [backpropagate_loop];
    try apply tree_grows_refl.
  destruct (nodes s !! i) as [n|] eqn:Hi;
    [|rewrite run_get_node_None by done; apply tree_grows_refl].
  rewrite (run_get_node _ _ _ _ Hi), run_put_node.
  eapply tree_grows_trans; [|by apply IH]. cbn [set_nodes nodes].
  eapply tree_grows_insert; [done|]. unfold bump. repeat split; simpl; try done; lia.
Qed.

Lemma single_file_shape t t' : shape <$> t' = shape <$> t → single_file t → single_file t'.
Proof.
  intros Hs Hsf i n' Hi.
  assert (Hl : shape <$> t !! i = Some (shape n'))
    by by rewrite <-list_lookup_fmap, <-Hs, list_lookup_fmap, Hi.
  destruct (t !! i) as [n|] eqn:Hn; [|done]. cbn in Hl.
  assert (children n' = children n) as -> by (unfold shape in Hl; congruence). eauto.
Qed.

Section Growth.
Context `{Float} `{TupleHash}.

Lemma expand_grows self node s :
  tree_grows (nodes s) (nodes (expand self node s).1).
Proof.
  pose proof (generate_scenario_nodes self s) as Hn1.
  destruct (nodes s !! node) as [n|] eqn:Hn.
  - pose proof (expand_cases self node s n Hn) as Hc. cbn zeta in Hc.
    assert (Hsame : tree_grows (nodes s) (nodes (generate_scenario self s).1))
      by (rewrite Hn1; apply tree_grows_refl).
    destruct (generate_scenario self s).2 as [[sc|]| |]; [|by rewrite Hc..].
    destruct (dict_get _ _); rewrite Hc; [done|].
    cbn [fst set_nodes nodes]. eapply tree_grows_trans; [|apply tree_grows_app].
    eapply tree_grows_insert; [done|]. repeat split; simpl; try done; try lia.
    by apply prefix_app_r.
  - unfold expand. rewrite run_bind.
    destruct (generate_scenario self s) as [s1 [[sc|]| |]]; cbn [fst snd] in *.
    + rewrite run_get_node_None by by rewrite Hn1.
      cbn [fst]. rewrite Hn1. apply tree_grows_refl.
    + unfold ret. cbn [fst]. rewrite Hn1. apply tree_grows_refl.
    + rewrite Hn1. apply tree_grows_refl.
    + rewrite Hn1. apply tree_grows_refl.
Qed.

Lemma search_iteration_grows self s :
  tree_grows (nodes s) (nodes (search_iteration self s).1).
Proof.
  unfold search_iteration. rewrite run_bind. unfold select at 1 2. cbn [fst snd].
  destruct (select_loop _ _ _) as [leaf| |]; try apply tree_grows_refl.
  destruct (nodes s !! leaf) as [n|] eqn:Hn;
    [|rewrite run_get_node_None by done; apply tree_grows_refl].
  rewrite (run_get_node _ _ _ _ Hn), run_bind.
  set (m := if 0 <? visits n then expand self leaf else ret leaf).
  assert (Hm : tree_grows (nodes s) (nodes (m s).1)).
  { subst m. destruct (0 <? visits n); [apply expand_grows|apply tree_grows_refl]. }
  destruct (m s) as [s1 [leaf'| |]]; cbn [fst snd] in *; try done.
  rewrite run_bind. destruct (simulate_nodes self leaf' s1) as [Hn2 Hr].
  destruct (simulate self leaf' s1) as [s2 [r| |]]; cbn [fst snd] in *;
    try by rewrite Hn2.
  eapply tree_grows_trans; [done|]. rewrite <-Hn2.
  apply backpropagate_loop_grows. destruct (Hr r eq_refl); lia.
Qed.

Lemma search_loop_grows self start_time time_limit ticks : ∀ sims s,
  tree_grows (nodes s) (nodes (search_loop self start_time time_limit ticks sims s).1).
Proof.
  induction ticks as [|now ticks IH]; intros sims s; cbn [search_loop];
    [apply tree_grows_refl|].
  destruct (f_lt _ _); [|apply tree_grows_refl]. rewrite run_bind.
  pose proof (search_iteration_grows self s) as Hk.
  destruct (search_iteration self s) as [s1 [[]| |]]; cbn [fst snd] in *; try done.
  eapply tree_grows_trans; [done|apply IH].
Qed.

Lemma search_grows self clock time_limit s :
  tree_grows (nodes s) (nodes (search self clock time_limit s).1).
Proof.
  unfold search. destruct clock as [|start_time ticks]; [apply tree_grows_refl|].
  rewrite run_bind. pose proof (search_loop_grows self start_time time_limit ticks 0 s) as Hk.
  destruct (search_loop _ _ _ _ _ s) as [s1 [sims| |]]; cbn [fst snd] in *; try done.
  destruct (nodes s1 !! bot_root self) as [root|] eqn:Hroot;
    [by rewrite (run_get_node _ _ _ _ Hroot)|by rewrite run_get_node_None].
Qed.

(** X10. The tree is append-only.  Whatever a search does and however it
    ends, every node that was in the store is still there under the same
    handle, with the same hand, board, parent and scenario; its children are
    the ones it had, followed by the new ones; and its visits and wins have
    not gone down.  The same holds of one iteration and of [make_decision]. *)
Theorem search_only_grows_tree self clock time_limit threshold s :
  tree_grows (nodes s) (nodes (search_iteration self s).1) ∧
  tree_grows (nodes s) (nodes (search self clock time_limit s).1) ∧
  tree_grows (nodes s) (nodes (make_decision self clock time_limit threshold s).1).
Proof.
  split; [apply search_iteration_grows|]. split; [apply search_grows|].
  rewrite make_decision_state. apply search_grows.
Qed.

Lemma search_iteration_single_file self s :
  single_file (nodes s) → single_file (nodes (search_iteration self s).1).
Proof.
  intros Hsf. unfold search_iteration. rewrite run_bind. unfold select at 1 2.
  cbn [fst snd].
  destruct (select_loop _ _ _) as [leaf| |] eqn:Hsel; [|done..].
  destruct (select_loop_valid _ _ _ _ Hsel) as (n & Hn & Hch).
  rewrite (run_get_node _ _ _ _ Hn), run_bind.
  set (m := if 0 <? visits n then expand self leaf else ret leaf).
  assert (Hm : single_file (nodes (m s).1)).
  { subst m. destruct (0 <? visits n); [|done].
    pose proof (generate_scenario_nodes self s) as Hn1.
    pose proof (expand_cases self leaf s n Hn) as Hc. cbn zeta in Hc.
    destruct (generate_scenario self s).2 as [[sc|]| |];
      try (rewrite Hc; cbn [fst]; by rewrite Hn1).
    destruct (dict_get _ _); rewrite Hc; cbn [fst]; [by rewrite Hn1|].
    cbn [set_nodes nodes]. intros i m Hi.
    rewrite lookup_added in Hi by by eapply lookup_lt_Some.
    repeat case_decide; simplify_eq; [simpl; lia|simpl; rewrite Hch; simpl; lia|eauto]. }
  destruct (m s) as [s1 [leaf'| |]]; cbn [fst snd] in *; [|done..].
  rewrite run_bind. destruct (simulate_nodes self leaf' s1) as [Hn2 _].
  destruct (simulate self leaf' s1) as [s2 [r| |]]; cbn [fst snd] in *;
    [|by rewrite Hn2..].
  unfold backpropagate.
  destruct (backpropagate_loop_shape (length (nodes s2)) (Some leaf') r s2) as [Hs _].
  eapply single_file_shape; [done|]. by rewrite Hn2.
Qed.

Lemma search_loop_single_file self start_time time_limit ticks : ∀ sims s,
  single_file (nodes s) →
  single_file (nodes (search_loop self start_time time_limit ticks sims s).1).
Proof.
  induction ticks as [|now ticks IH]; intros sims s Hsf; cbn [search_loop]; [done|].
  destruct (f_lt _ _); [|done]. rewrite run_bind.
  pose proof (search_iteration_single_file self s Hsf) as Hk.
  destruct (search_iteration self s) as [s1 [[]| |]]; cbn [fst snd] in *; [|done..].
  by apply IH.
Qed.

Lemma search_single_file self clock time_limit s :
  single_file (nodes s) → single_file (nodes (search self clock time_limit s).1).
Proof.
  intros Hsf. unfold search. destruct clock as [|start_time ticks]; [done|].
  rewrite run_bind.
  pose proof (search_loop_single_file self start_time time_limit ticks 0 s Hsf) as Hk.
  destruct (search_loop _ _ _ _ _ s) as [s1 [sims| |]]; cbn [fst snd] in *; [|done..].
  destruct (nodes s1 !! bot_root self) as [root|] eqn:Hroot;
    [by rewrite (run_get_node _ _ _ _ Hroot)|by rewrite run_get_node_None].
Qed.

(** X11. The search builds its tree in single file.  The node [select]
    returns has no children, so the [expand] of an iteration never finds the
    key of its sample among them: whenever the sampler gives a scenario it
    creates a node, and never reuses one.  Hence when no node of the store
    has two children before a bot is created, an iteration or a search, none
    has after it. *)
Theorem search_is_single_file self s :
  (∀ leaf n, select self s = (s, Ok leaf) → nodes s !! leaf = Some n →
     children n = [] ∧
     ∀ sc, (generate_scenario self s).2 = Ok (Some sc) →
       (expand self leaf s).2 = Ok (length (nodes s)) ∧
       length (nodes (expand self leaf s).1) = S (length (nodes s))) ∧
  (single_file (nodes s) →
     (∀ hand board deck evaluator,
        single_file (nodes (PokerBot_init hand board deck evaluator s).1)) ∧
     single_file (nodes (search_iteration self s).1) ∧
     ∀ clock time_limit, single_file (nodes (search self clock time_limit s).1)).
Proof.
  split.
  - intros leaf n Hsel Hn. unfold select in Hsel. injection Hsel as Hsel.
    destruct (select_loop_valid _ _ _ _ Hsel) as (n' & Hn' & Hch).
    rewrite Hn in Hn'. injection Hn' as <-. split; [done|].
    intros sc Hsc. pose proof (expand_cases self leaf s n Hn) as Hc. cbn zeta in Hc.
    rewrite Hsc, Hch in Hc. cbn [dict_get] in Hc. rewrite Hc. cbn [fst snd].
    split; [done|]. cbn [set_nodes nodes]. rewrite length_app, length_insert. simpl. lia.
  - intros Hsf. split; [|split].
    + intros hand board deck evaluator. unfold PokerBot_init, bind, new_node, ret.
      cbn [fst set_nodes nodes]. intros i n Hi.
      apply lookup_app_Some in Hi as [Hi|[_ Hi]]; [eauto|].
      apply list_lookup_singleton_Some in Hi as [_ <-]. simpl. lia.
    + by apply search_iteration_single_file.
    + intros. by apply search_single_file.
Qed.

End Growth.

(** ** What the root counts *)

Lemma path_fuel_agree t t' :
  parents_first t →
  (∀ j, (j < length t)%nat → parent <$> t' !! j = parent <$> t !! j) →
  ∀ fuel i, (i < length t)%nat → path_fuel fuel t' i = path_fuel fuel t i.
Proof.
  intros Hp Hag. induction fuel as [|fuel IH]; intros i Hi; [done|]. cbn [path_fuel].
  specialize (Hag i Hi). destruct (lookup_lt_is_Some_2 _ _ Hi) as [n Hn].
  rewrite Hn in Hag |- *. destruct (t' !! i) as [n'|]; [|done].
  cbn in Hag. injection Hag as ->. destruct (parent n) as [p|] eqn:Hpar; [|done].
  specialize (Hp _ _ _ Hn Hpar). rewrite IH by lia. done.
Qed.

Lemma path_to_root_head t i n : parents_first t → t !! i = Some n → i ∈ path_to_root t i.
Proof. intros Hp Hi. rewrite (path_to_root_unfold _ _ _ Hp Hi). left. Qed.

Lemma path_to_root_child t c cn i j :
  parents_first t → t !! c = Some cn → parent cn = Some i →
  j ∈ path_to_root t i → j ∈ path_to_root t c.
Proof.
  intros Hp Hc Hpar Hj. rewrite (path_to_root_unfold _ _ _ Hp Hc), Hpar. by right.
Qed.

Lemma dict_get_elem `{EqDecision K} {V} (k : K) (d : list (K * V)) v :
  dict_get k d = Some v → (k, v) ∈ d.
Proof.
  induction d as [|[k' v'] d IH]; [done|]. simpl.
  case_decide; [intros [= <-]; subst; left|intros; right; by apply IH].
Qed.

Section RootCounts.
Context `{Float} `{TupleHash}.

Lemma max_by_ucb1_elem t c rest : ∀ best kbest b,
  max_by_ucb1 t c best kbest rest = Ok b → b = best ∨ b ∈ rest.
Proof.
  induction rest as [|x rest IH]; intros best kbest b; cbn [max_by_ucb1].
  - intros [= <-]. by left.
  - destruct (ucb1 t x c) as [kx| |]; cbn [obind]; [|done..].
    destruct (f_lt kbest kx); intros [->|Hb]%IH; [right; left|by right; right
                                                  |by left|by right; right].
Qed.

Lemma select_child_elem t i n c x :
  t !! i = Some n → children n ≠ [] → select_child t i c = Ok x →
  x ∈ dict_values (children n).
Proof.
  intros Hi Hne. unfold select_child. rewrite Hi.
  destruct (dict_values (children n)) as [|y rest] eqn:Hcs.
  { destruct (children n); [done|discriminate]. }
  destruct (ucb1 t y c) as [ky| |]; cbn [obind]; [|done..].
  intros [->|Hx]%max_by_ucb1_elem; [left|by right].
Qed.

Lemma select_loop_path t : tree_inv t → ∀ fuel i leaf,
  select_loop fuel t i = Ok leaf → i ∈ path_to_root t leaf.
Proof.
  intros Hinv. pose proof (tree_inv_parents_first _ Hinv) as Hp.
  induction fuel as [|fuel IH]; intros i leaf; cbn [select_loop]; [done|].
  destruct (t !! i) as [n|] eqn:Hi; [|done]. case_bool_decide as Hch.
  - intros [= <-]. by eapply path_to_root_head.
  - destruct (select_child t i f_c) as [c| |] eqn:Hsel; cbn [obind]; [|done..].
    intros Hleaf%IH.
    apply (select_child_elem _ _ _ _ _ Hi Hch) in Hsel as [k Hk]%elem_of_dict_values.
    destruct (inv_children _ Hinv _ _ _ _ Hi Hk) as (cn & Hcn & Hpar).
    unfold path_to_root in *. eapply path_fuel_parent; eauto.
Qed.

(** What [expand] leaves of the root and of the way up to it. *)
Lemma expand_root self leaf s n root r s1 leaf' :
  tree_inv (nodes s) → nodes s !! leaf = Some n →
  root ∈ path_to_root (nodes s) leaf → nodes s !! root = Some r →
  expand self leaf s = (s1, Ok leaf') →
  root ∈ path_to_root (nodes s1) leaf' ∧
  ∃ r1, nodes s1 !! root = Some r1 ∧ visits r1 = visits r ∧ wins r1 = wins r.
Proof.
  intros Hinv Hn Hroot Hr Hex. pose proof (tree_inv_parents_first _ Hinv) as Hp.
  pose proof (generate_scenario_nodes self s) as Hn1.
  pose proof (expand_cases self leaf s n Hn) as Hc. cbn zeta in Hc.
  destruct (generate_scenario self s).2 as [[sc|]| |]; [| |congruence..].
  - destruct (dict_get (scenario_key sc) (children n)) as [child|] eqn:Hk.
    + rewrite Hc in Hex. injection Hex as <- <-. rewrite Hn1. split; [|eauto].
      apply dict_get_elem in Hk.
      destruct (inv_children _ Hinv _ _ _ _ Hn Hk) as (cn & Hcn & Hpar).
      by eapply path_to_root_child.
    + rewrite Hc in Hex. injection Hex as <- <-. cbn [set_nodes nodes].
      pose proof (lookup_lt_Some _ _ _ Hn) as Hlt.
      pose proof (tree_inv_added _ _ _ (scenario_key sc) sc Hinv Hn) as Hinv1.
      pose proof (tree_inv_parents_first _ Hinv1) as Hp1.
      set (t1 := <[leaf := _]> (nodes s) ++ [_]) in *.
      assert (Hlook : ∀ j, t1 !! j =
        if decide (j = length (nodes s))
        then Some (MCTSNode_init (hand n) (board n) (Some leaf) (Some sc))
        else if decide (j = leaf)
             then Some {| hand := hand n; board := board n; parent := parent n;
                          scenario := scenario n; visits := visits n; wins := wins n;
                          children := children n ++
                            [(scenario_key sc, length (nodes s))] |}
             else nodes s !! j) by (intros j; by apply lookup_added).
      split.
      * eapply (path_to_root_child t1 _
                  (MCTSNode_init (hand n) (board n) (Some leaf) (Some sc)) leaf);
          [done| |done|].
        { by rewrite Hlook, decide_True. }
        unfold path_to_root.
        rewrite (path_fuel_agree (nodes s) t1 Hp); [done| |done].
        intros j Hj. rewrite Hlook, decide_False by lia.
        case_decide; [subst; by rewrite Hn|done].
      * pose proof (lookup_lt_Some _ _ _ Hr). rewrite Hlook, decide_False by lia.
        case_decide; simplify_eq; eauto.
  - rewrite Hc in Hex. injection Hex as <- <-. rewrite Hn1. eauto.
Qed.

Lemma search_iteration_root self s r s' :
  tree_inv (nodes s) → nodes s !! bot_root self = Some r →
  search_iteration self s = (s', Ok tt) →
  ∃ r', nodes s' !! bot_root self = Some r' ∧
    visits r' = visits r + 1 ∧ wins r ≤ wins r' ≤ wins r + 1.
Proof.
  intros Hinv Hr Hit. unfold search_iteration in Hit. rewrite run_bind in Hit.
  unfold select in Hit. cbn [fst snd] in Hit.
  destruct (select_loop _ _ _) as [leaf| |] eqn:Hsel; [|done..].
  pose proof (select_loop_path _ Hinv _ _ _ Hsel) as Hpath.
  destruct (select_loop_valid _ _ _ _ Hsel) as (n & Hn & _).
  rewrite (run_get_node _ _ _ _ Hn), run_bind in Hit.
  set (m := if 0 <? visits n then expand self leaf else ret leaf) in Hit.
  assert (Hm : ∀ s1 leaf', m s = (s1, Ok leaf') →
    tree_inv (nodes s1) ∧ (leaf' < length (nodes s1))%nat ∧
    bot_root self ∈ path_to_root (nodes s1) leaf' ∧
    ∃ r1, nodes s1 !! bot_root self = Some r1 ∧ visits r1 = visits r ∧ wins r1 = wins r).
  { subst m. intros s1 leaf' Hrun. destruct (0 <? visits n).
    - destruct (expand_inv self leaf s Hinv) as [Hinv1 Hlt]; [by eapply lookup_lt_Some|].
      rewrite Hrun in Hinv1, Hlt. cbn [fst snd] in *.
      split; [done|]. split; [by apply Hlt|].
      by apply (expand_root self leaf s n (bot_root self) r s1 leaf').
    - injection Hrun as <- <-. split; [done|]. split; [by eapply lookup_lt_Some|]. eauto. }
  destruct (m s) as [s1 [leaf'| |]]; cbn [fst snd] in *; [|done..].
  destruct (Hm _ _ eq_refl) as (Hinv1 & Hlt & Hroot & r1 & Hr1 & Hv1 & Hw1).
  rewrite run_bind in Hit. destruct (simulate_nodes self leaf' s1) as [Hn2 Hres].
  destruct (simulate self leaf' s1) as [s2 [res| |]]; cbn [fst snd] in *; [|done..].
  specialize (Hres _ eq_refl). unfold backpropagate in Hit.
  destruct (backpropagate_loop_path (length (nodes s2)) leaf' res s2)
    as (t' & Hrun & Ht').
  { rewrite Hn2. by apply tree_inv_parents_first. }
  { by rewrite Hn2. }
  { by rewrite Hn2. }
  rewrite Hrun in Hit. injection Hit as <-.
  cbn [set_nodes nodes]. rewrite Ht', Hn2, decide_True, Hr1 by done.
  eexists. split; [done|]. simpl. lia.
Qed.

Lemma search_loop_root self start_time time_limit ticks : ∀ sims s r s' sims',
  tree_inv (nodes s) → nodes s !! bot_root self = Some r →
  search_loop self start_time time_limit ticks sims s = (s', Ok sims') →
  let k := iterations_run start_time time_limit ticks in
  (k < length ticks)%nat ∧ sims' = sims + Z.of_nat k ∧
  ∃ r', nodes s' !! bot_root self = Some r' ∧
    visits r' = visits r + Z.of_nat k ∧ wins r ≤ wins r' ≤ wins r + Z.of_nat k.
Proof.
  induction ticks as [|now ticks IH]; intros sims s r s' sims' Hinv Hr;
    cbn [search_loop iterations_run]; [done|].
  destruct (f_lt _ _).
  - rewrite run_bind. pose proof (search_iteration_inv self s Hinv) as Hinv1.
    pose proof (search_iteration_root self s r) as Hroot.
    destruct (search_iteration self s) as [s1 [[]| |]]; cbn [fst snd] in *; [|done..].
    destruct (Hroot _ Hinv Hr eq_refl) as (r1 & Hr1 & Hv1 & Hw1). intros Hrun.
    destruct (IH _ _ _ _ _ Hinv1 Hr1 Hrun) as (Hk & -> & r' & Hr' & Hv' & Hw').
    cbn zeta. split; [simpl; lia|]. split; [lia|]. exists r'. split; [done|]. lia.
  - intros [= <- <-]. cbn zeta. split; [simpl; lia|]. split; [lia|].
    exists r. split; [done|]. lia.
Qed.

(** X12. Every iteration that completes adds one visit, and at most one win,
    to the root of the bot.  So when a search returns, the loop has stopped
    at a reading of the clock that was past the limit, and the root has, on
    top of the visits it had, one for each reading before that one, no more
    wins than that on top of its own, and the probability returned is the
    quotient of the two (0 when there is no visit). *)
Theorem search_counts_iterations self start_time ticks time_limit s r s' p :
  tree_inv (nodes s) → nodes s !! bot_root self = Some r →
  search self (start_time :: ticks) time_limit s = (s', Ok p) →
  let k := iterations_run start_time time_limit ticks in
  (k < length ticks)%nat ∧
  ∃ r', nodes s' !! bot_root self = Some r' ∧
    visits r' = visits r + Z.of_nat k ∧ wins r ≤ wins r' ≤ wins r + Z.of_nat k ∧
    p = if 0 <? visits r' then f_truediv (wins r') (visits r') else f_of_int 0.
Proof.
  intros Hinv Hr. unfold search. rewrite run_bind.
  pose proof (search_loop_root self start_time time_limit ticks 0 s r) as Hloop.
  destruct (search_loop _ _ _ _ _ s) as [s1 [sims| |]]; cbn [fst snd] in *; [|done..].
  destruct (Hloop _ _ Hinv Hr eq_refl) as (Hk & _ & r' & Hr' & Hv' & Hw').
  rewrite (run_get_node _ _ _ _ Hr'). intros [= <- <-]. cbn zeta in *.
  split; [done|]. exists r'. split; [done|]. split; [done|]. split; [lia|done].
Qed.

End RootCounts.

(** ** Decks that are too small *)

Lemma generate_scenario_exhausted self s :
  deck_exhausted self s → generate_scenario self s = (s, Ok None).
Proof.
  unfold deck_exhausted. rewrite generate_scenario_run.
  destruct (bot_deck self) as [deck|]; [|done].
  intros (cards & -> & Hlen). by rewrite decide_True.
Qed.

Lemma generate_scenario_short self s :
  deck_short self s →
  (generate_scenario self s).2 = Raise (ValueError NotEnoughCards).
Proof.
  intros (deck & cards & Hd & Hc & Hok & Hlen). rewrite generate_scenario_run, Hd, Hc.
  rewrite decide_False by lia.
  pose proof (sample_short cards (length (bot_board self)) (rng s) Hok Hlen) as Hs.
  by destruct (sample _ _ _) as [[rest tape] r].
Qed.

Lemma iter_bump_counts k r n :
  visits (Nat.iter k (bump r) n) = visits n + Z.of_nat k * 1 ∧
  wins (Nat.iter k (bump r) n) = wins n + Z.of_nat k * r ∧
  shape (Nat.iter k (bump r) n) = shape n.
Proof.
  induction k as [|k (IHv & IHw & IHs)]; [simpl; repeat split; lia|].
  change (Nat.iter (S k) (bump r) n) with (bump r (Nat.iter k (bump r) n)).
  set (m := Nat.iter k (bump r) n) in *. rewrite <-IHs.
  unfold bump, shape. cbn [visits wins hand board parent scenario children].
  split; [lia|]. split; [lia|done].
Qed.

Section SmallDecks.
Context `{Float} `{TupleHash}.

Lemma select_leaf_root self s r :
  nodes s !! bot_root self = Some r → children r = [] →
  select self s = (s, Ok (bot_root self)).
Proof.
  intros Hr Hch. unfold select. f_equal.
  pose proof (lookup_lt_Some _ _ _ Hr) as Hlt.
  destruct (length (nodes s)) as [|fuel]; [lia|]. cbn [select_loop].
  by rewrite Hr, bool_decide_eq_true_2.
Qed.

Lemma backpropagate_root self s r res :
  nodes s !! bot_root self = Some r → parent r = None →
  backpropagate self (bot_root self) res s =
    (set_nodes (<[bot_root self := bump res r]> (nodes s)) s, Ok tt).
Proof.
  intros Hr Hp. unfold backpropagate.
  pose proof (lookup_lt_Some _ _ _ Hr) as Hlt.
  destruct (length (nodes s)) as [|fuel]; [lia|]. cbn [backpropagate_loop].
  rewrite (run_get_node _ _ _ _ Hr), run_put_node. cbn [bump parent].
  rewrite Hp. by destruct fuel.
Qed.

Lemma search_iteration_exhausted self s r :
  deck_exhausted self s → nodes s !! bot_root self = Some r →
  parent r = None → scenario r = None → children r = [] →
  search_iteration self s =
    (set_nodes (<[bot_root self := bump 0 r]> (nodes s)) s, Ok tt).
Proof.
  intros Hex Hr Hp Hsc Hch. unfold search_iteration.
  rewrite run_bind, (select_leaf_root _ _ _ Hr Hch). cbn [fst snd].
  rewrite (run_get_node _ _ _ _ Hr), run_bind.
  assert (Hm : (if 0 <? visits r then expand self (bot_root self) else ret (bot_root self)) s
               = (s, Ok (bot_root self))).
  { destruct (0 <? visits r); [|done]. unfold expand.
    by rewrite run_bind, (generate_scenario_exhausted _ _ Hex). }
  rewrite Hm. cbn [fst snd]. rewrite run_bind.
  assert (Hsim : simulate self (bot_root self) s = (s, Ok 0)).
  { unfold simulate. rewrite (run_get_node _ _ _ _ Hr), Hsc, run_bind.
    by rewrite (generate_scenario_exhausted _ _ Hex). }
  rewrite Hsim. cbn [fst snd]. by apply backpropagate_root.
Qed.

Lemma search_loop_exhausted self start_time time_limit ticks : ∀ sims s r,
  deck_exhausted self s → nodes s !! bot_root self = Some r →
  parent r = None → scenario r = None → children r = [] →
  let k := iterations_run start_time time_limit ticks in
  (k < length ticks)%nat →
  ∃ s', search_loop self start_time time_limit ticks sims s = (s', Ok (sims + Z.of_nat k)) ∧
    nodes s' = <[bot_root self := Nat.iter k (bump 0) r]> (nodes s) ∧
    decks s' = decks s ∧ rng s' = rng s.
Proof.
  induction ticks as [|now ticks IH]; intros sims s r Hex Hr Hp Hsc Hch;
    cbn [search_loop iterations_run length]; [lia|].
  destruct (f_lt _ _).
  - intros Hk. rewrite run_bind, (search_iteration_exhausted _ _ _ Hex Hr Hp Hsc Hch).
    cbn [fst snd].
    set (s1 := set_nodes _ s).
    pose proof (lookup_lt_Some _ _ _ Hr) as Hlt.
    destruct (IH (sims + 1) s1 (bump 0 r)) as (s' & Hrun & Hn & Hd & Hg);
      [done|by apply list_lookup_insert_eq|done..|lia|].
    exists s'. split; [rewrite Hrun; do 2 f_equal; lia|].
    split; [|done]. rewrite Hn. subst s1. cbn [set_nodes nodes].
    rewrite list_insert_insert_eq. by rewrite Nat.iter_succ_r.
  - intros _. exists s. split; [unfold ret; do 2 f_equal; lia|].
    split; [|done]. cbn [Nat.iter]. by rewrite list_insert_id.
Qed.

(** X13. A bot without a deck, or with fewer than 2 cards in it, still
    searches: every iteration at its root (a root without children) counts a
    loss, adding one visit and no win to the root and changing nothing else.
    So the search returns, when the clock passes the limit, with the tree,
    the decks and the tape as they were but for the visits of the root, and
    its probability is the wins the root had over the visits it has now. *)
Theorem search_on_exhausted_deck self start_time ticks time_limit s r :
  deck_exhausted self s → nodes s !! bot_root self = Some r →
  parent r = None → scenario r = None → children r = [] →
  let k := iterations_run start_time time_limit ticks in
  search_iteration self s = (set_nodes (<[bot_root self := bump 0 r]> (nodes s)) s, Ok tt) ∧
  ((k < length ticks)%nat →
   ∃ s', search self (start_time :: ticks) time_limit s =
           (s', Ok (if 0 <? visits r + Z.of_nat k
                    then f_truediv (wins r) (visits r + Z.of_nat k)
                    else f_of_int 0)) ∧
     nodes s' = <[bot_root self := Nat.iter k (bump 0) r]> (nodes s) ∧
     decks s' = decks s ∧ rng s' = rng s).
Proof.
  intros Hex Hr Hp Hsc Hch k. split; [by apply search_iteration_exhausted|].
  intros Hk.
  destruct (search_loop_exhausted self start_time time_limit ticks 0 s r
              Hex Hr Hp Hsc Hch Hk) as (s' & Hrun & Hn & Hd & Hg).
  exists s'. split; [|done]. unfold search. rewrite run_bind, Hrun. cbn [fst snd].
  assert (Hr' : nodes s' !! bot_root self = Some (Nat.iter k (bump 0) r)).
  { rewrite Hn. apply list_lookup_insert_eq. by eapply lookup_lt_Some. }
  rewrite (run_get_node _ _ _ _ Hr').
  destruct (iter_bump_counts k 0 r) as (-> & -> & _). unfold ret. do 2 f_equal.
  replace (visits r + Z.of_nat k * 1) with (visits r + Z.of_nat k) by lia.
  by replace (wins r + Z.of_nat k * 0) with (wins r) by lia.
Qed.

Lemma search_iteration_short self s r :
  deck_short self s → nodes s !! bot_root self = Some r →
  scenario r = None → children r = [] →
  (search_iteration self s).2 = Raise (ValueError NotEnoughCards).
Proof.
  intros Hsh Hr Hsc Hch. pose proof (generate_scenario_short _ _ Hsh) as Hg.
  unfold search_iteration.
  rewrite run_bind, (select_leaf_root _ _ _ Hr Hch). cbn [fst snd].
  rewrite (run_get_node _ _ _ _ Hr), run_bind.
  destruct (0 <? visits r).
  - unfold expand. rewrite run_bind, Hg. done.
  - unfold ret at 1 2. cbn [fst snd]. rewrite run_bind.
    unfold simulate. rewrite (run_get_node _ _ _ _ Hr), Hsc, run_bind, Hg. done.
Qed.

(** X14. With a deck of valid cards that holds the opponent's 2 cards but not
    the board cards as well, the sampler raises the ValueError of [deal], and
    so does the first iteration of a bot at its root (a root without scenario
    and children), and with it [search] and [make_decision] as soon as the
    clock lets one iteration start. *)
Theorem search_on_short_deck self start_time now ticks time_limit threshold s r :
  deck_short self s → nodes s !! bot_root self = Some r →
  scenario r = None → children r = [] →
  (generate_scenario self s).2 = Raise (ValueError NotEnoughCards) ∧
  (search_iteration self s).2 = Raise (ValueError NotEnoughCards) ∧
  (f_lt (f_sub now start_time) time_limit = true →
     (search self (start_time :: now :: ticks) time_limit s).2
       = Raise (ValueError NotEnoughCards) ∧
     (make_decision self (start_time :: now :: ticks) time_limit threshold s).2
       = Raise (ValueError NotEnoughCards)).
Proof.
  intros Hsh Hr Hsc Hch. split; [by apply generate_scenario_short|].
  pose proof (search_iteration_short _ _ _ Hsh Hr Hsc Hch) as Hit.
  split; [done|]. intros Hlt.
  assert (Hs : (search self (start_time :: now :: ticks) time_limit s).2
               = Raise (ValueError NotEnoughCards)).
  { unfold search. rewrite run_bind. cbn [search_loop]. rewrite Hlt, run_bind, Hit. done. }
  split; [done|]. unfold make_decision. by rewrite run_bind, Hs.
Qed.

End SmallDecks.

(** ** How an iteration can end *)

Lemma bot_ready_kept self s s' : decks_kept s s' → bot_ready self s → bot_ready self s'.
Proof.
  intros [Hk _] (Hh & Hb & Hc & deck & cards & Hd & Hcards & Hok & Hlen).
  do 3 (split; [done|]). exists deck, cards. eauto.
Qed.

Lemma generate_scenario_ready self s :
  bot_ready self s →
  ∃ s1 op nb, generate_scenario self s = (s1, Ok (Some (op, nb))) ∧
    length op = 2%nat ∧ Z.of_nat (length nb) = cards_needed self ∧
    Forall card_ok (op ++ nb).
Proof.
  intros (_ & _ & _ & deck & cards & Hd & Hcards & Hok & Hlen).
  rewrite generate_scenario_run, Hd, Hcards.
  unfold cards_needed in Hlen. rewrite decide_False by lia.
  destruct (sample_enough cards (length (bot_board self)) (rng s) Hok Hlen)
    as (op & nb & rest & Hs & Hop & Hnb & Hperm).
  destruct (sample _ _ _) as [[rest' tape] r]. cbn [snd] in Hs. subst r.
  eexists _, op, nb. split; [done|]. split; [done|]. split; [done|].
  rewrite <-Hperm in Hok. rewrite app_assoc in Hok. by apply Forall_app in Hok as [? _].
Qed.

Lemma converts_OfCard cards :
  Forall card_ok cards → Forall converts_in_range (OfCard <$> cards).
Proof.
  intros Hok. apply Forall_fmap. eapply Forall_impl; [done|].
  intros c Hc. by exists (value c).
Qed.

Lemma evaluate_hand_in_range self cards :
  length cards = 7%nat → Forall converts_in_range cards →
  ((∃ ev, evaluate_hand self cards = Ok ev) ∨ evaluate_hand self cards = Raise IndexError) ∧
  (table_closed (hand_ranks self) → ∃ ev, evaluate_hand self cards = Ok ev).
Proof.
  intros Hlen Hcards. split; [|intros; by apply evaluate_hand_closed].
  destruct (omap_in_range cards Hcards) as (vals & Hv & _).
  unfold evaluate_hand. rewrite Hv. cbn [obind].
  apply omap_length in Hv. rewrite bool_decide_eq_false_2 by lia.
  destruct (table_walk _ _ _) as [p|e|] eqn:Hw; cbn [obind]; [left; eauto| |].
  - right. by rewrite (table_walk_fails _ _ _ _ Hw).
  - by apply table_walk_not_Stuck in Hw.
Qed.

Lemma compare_hands_in_range self hand1 hand2 board :
  length hand1 = 2%nat → length hand2 = 2%nat → length board = 5%nat →
  Forall converts_in_range (hand1 ++ board) → Forall converts_in_range (hand2 ++ board) →
  ((∃ cmp, compare_hands self hand1 hand2 board = Ok cmp) ∨
   compare_hands self hand1 hand2 board = Raise IndexError) ∧
  (table_closed (hand_ranks self) →
   ∃ cmp, compare_hands self hand1 hand2 board = Ok cmp).
Proof.
  intros H1 H2 Hb Hc1 Hc2. unfold compare_hands.
  rewrite !bool_decide_eq_false_2 by (intros Hn; by apply Hn). cbn [orb].
  destruct (evaluate_hand_in_range self (hand1 ++ board)) as [Hm1 Hcl1];
    [rewrite length_app; lia|done|].
  destruct (evaluate_hand_in_range self (hand2 ++ board)) as [Hm2 Hcl2];
    [rewrite length_app; lia|done|].
  assert (Hfin : ∀ e1 e2, ∃ cmp,
    (if e2.1.1.1 <? e1.1.1.1 then Ok (1, e1, e2)
     else if e1.1.1.1 <? e2.1.1.1 then Ok (-1, e1, e2) else Ok (0, e1, e2))
    = Ok (A:=Z * evaluation * evaluation) cmp).
  { intros e1 e2. destruct (_ <? _); [eauto|]. destruct (_ <? _); eauto. }
  split.
  - destruct Hm1 as [[e1 ->]| ->]; cbn [obind]; [|by right].
    destruct Hm2 as [[e2 ->]| ->]; cbn [obind]; [|by right]. left. apply Hfin.
  - intros Hcl. destruct (Hcl1 Hcl) as [e1 ->], (Hcl2 Hcl) as [e2 ->]. apply Hfin.
Qed.

Lemma scenarios_sized_shape self t t' :
  shape <$> t' = shape <$> t → scenarios_sized self t → scenarios_sized self t'.
Proof.
  intros Hs Hsz i n' op nb Hi Hn' Hsc.
  assert (Hl : shape <$> t !! i = Some (shape n'))
    by by rewrite <-list_lookup_fmap, <-Hs, list_lookup_fmap, Hn'.
  destruct (t !! i) as [n|] eqn:Hn; [|done]. cbn in Hl.
  assert (scenario n = scenario n') by (unfold shape in Hl; congruence).
  eapply Hsz; [done..|congruence].
Qed.

Section Ready.
Context `{Float} `{TupleHash}.

Lemma max_by_ucb1_Ok t c rest : ∀ best kbest,
  (∀ y, y ∈ rest → ∃ ky, ucb1 t y c = Ok ky) →
  ∃ b, max_by_ucb1 t c best kbest rest = Ok b.
Proof.
  induction rest as [|x rest IH]; intros best kbest Hall; cbn [max_by_ucb1]; [eauto|].
  destruct (Hall x) as [kx ->]; [left|]. cbn [obind].
  destruct (f_lt kbest kx); apply IH; intros y Hy; apply Hall; by right.
Qed.

Lemma select_loop_Ok t :
  log_ratio_not_negative → tree_inv t →
  ∀ fuel i, (i < length t)%nat → (length t ≤ fuel + i)%nat →
  ∃ leaf, select_loop fuel t i = Ok leaf.
Proof.
  intros Hlog Hinv. induction fuel as [|fuel IH]; intros i Hi Hf; [lia|].
  cbn [select_loop]. destruct (lookup_lt_is_Some_2 _ _ Hi) as [n Hn]. rewrite Hn.
  case_bool_decide as Hch; [eauto|].
  assert (Hall : ∀ y, y ∈ dict_values (children n) → ∃ ky, ucb1 t y f_c = Ok ky).
  { intros y [k Hy]%elem_of_dict_values.
    destruct (ucb1_of_child _ _ _ _ _ Hlog Hinv Hn Hy) as (cn & _ & _ & Hu & _). eauto. }
  assert (Hsel : ∃ c, select_child t i f_c = Ok c).
  { unfold select_child. rewrite Hn.
    destruct (dict_values (children n)) as [|x rest] eqn:Hcs; [eauto|].
    destruct (Hall x) as [kx ->]; [left|]. cbn [obind].
    apply max_by_ucb1_Ok. intros y Hy. apply Hall. by right. }
  destruct Hsel as [c Hsel]. rewrite Hsel. cbn [obind].
  apply (select_child_elem _ _ _ _ _ Hn Hch) in Hsel as [k Hk]%elem_of_dict_values.
  destruct (inv_children _ Hinv _ _ _ _ Hn Hk) as (cn & Hcn & Hpar).
  destruct (inv_parent _ Hinv _ _ _ Hcn Hpar) as (Hlt & _).
  apply IH; [by eapply lookup_lt_Some|lia].
Qed.

Lemma simulate_ready self leaf s n :
  bot_ready self s → nodes s !! leaf = Some n →
  (∀ op nb, scenario n = Some (op, nb) →
     length op = 2%nat ∧ Z.of_nat (length nb) = cards_needed self ∧
     Forall card_ok (op ++ nb)) →
  ((∃ r, (simulate self leaf s).2 = Ok r) ∨
   (simulate self leaf s).2 = Raise IndexError) ∧
  (table_closed (hand_ranks (bot_evaluator self)) →
   ∃ r, (simulate self leaf s).2 = Ok r).
Proof.
  intros Hready Hn Hsz. unfold simulate. rewrite (run_get_node _ _ _ _ Hn), run_bind.
  assert (Hm : ∃ s1 op nb,
    (match scenario n with
     | None => generate_scenario self
     | Some sc => ret (Some sc)
     end) s = (s1, Ok (Some (op, nb))) ∧
    length op = 2%nat ∧ Z.of_nat (length nb) = cards_needed self ∧
    Forall card_ok (op ++ nb)).
  { destruct (scenario n) as [[op nb]|]; [|by apply generate_scenario_ready].
    exists s, op, nb. split; [done|]. by apply Hsz. }
  destruct Hm as (s1 & op & nb & -> & Hop & Hnb & Hok). cbn [fst snd].
  destruct Hready as (Hh & Hb & Hconv & _).
  apply Forall_app in Hok as [Hok1 Hok2]. apply Forall_app in Hconv as [Hch Hcb].
  unfold cards_needed in Hnb.
  destruct (compare_hands_in_range (bot_evaluator self) (bot_hand self) (OfCard <$> op)
              (bot_board self ++ (OfCard <$> nb))) as [Hmodes Hclosed].
  { done. }
  { by rewrite length_fmap. }
  { rewrite length_app, length_fmap. lia. }
  { rewrite !Forall_app. repeat split; try done. by apply converts_OfCard. }
  { rewrite !Forall_app. repeat split; try done; by apply converts_OfCard. }
  unfold bind, lift, ret. split.
  - destruct Hmodes as [[cmp ->]| ->]; [left; eauto|by right].
  - intros Hcl. destruct (Hclosed Hcl) as [cmp ->]. eauto.
Qed.

Lemma search_iteration_ready self s :
  log_ratio_not_negative →
  tree_inv (nodes s) → (bot_root self < length (nodes s))%nat →
  bot_ready self s → scenarios_sized self (nodes s) →
  let s' := (search_iteration self s).1 in
  ((search_iteration self s).2 = Ok tt ∨
   (search_iteration self s).2 = Raise IndexError) ∧
  (table_closed (hand_ranks (bot_evaluator self)) → (search_iteration self s).2 = Ok tt) ∧
  scenarios_sized self (nodes s').
Proof.
  intros Hlog Hinv Hroot Hready Hsz. cbn zeta.
  pose proof (tree_inv_parents_first _ Hinv) as Hp.
  unfold search_iteration. rewrite run_bind. unfold select. cbn [fst snd].
  destruct (select_loop_Ok _ Hlog Hinv (length (nodes s)) (bot_root self))
    as [leaf Hsel]; [done|lia|]. rewrite Hsel.
  pose proof (select_loop_path _ Hinv _ _ _ Hsel) as Hpath.
  apply (path_fuel_le _ Hp) in Hpath.
  destruct (select_loop_valid _ _ _ _ Hsel) as (n & Hn & _).
  rewrite (run_get_node _ _ _ _ Hn), run_bind.
  set (m := if 0 <? visits n then expand self leaf else ret leaf).
  assert (Hm : ∃ s1 leaf' n', m s = (s1, Ok leaf') ∧ tree_inv (nodes s1) ∧
    nodes s1 !! leaf' = Some n' ∧ (bot_root self ≤ leaf')%nat ∧
    scenarios_sized self (nodes s1) ∧ bot_ready self s1).
  { subst m. destruct (0 <? visits n); [|by exists s, leaf, n].
    destruct (generate_scenario_ready self s Hready)
      as (s1 & op & nb & Hgen & Hop & Hnb & Hok).
    pose proof (generate_scenario_nodes self s) as Hn1.
    pose proof (generate_scenario_kept self s) as Hk.
    pose proof (expand_cases self leaf s n Hn) as Hc. cbn zeta in Hc.
    rewrite Hgen in Hc, Hn1, Hk. cbn [fst snd] in *.
    destruct (dict_get (scenario_key (op, nb)) (children n)) as [child|] eqn:Hkey.
    - apply dict_get_elem in Hkey.
      destruct (inv_children _ Hinv _ _ _ _ Hn Hkey) as (cn & Hcn & Hpar).
      destruct (inv_parent _ Hinv _ _ _ Hcn Hpar) as (Hlt & _).
      exists s1, child, cn. rewrite Hn1.
      split; [done|]. split; [done|]. split; [done|]. split; [lia|]. split; [done|].
      by eapply bot_ready_kept.
    - eexists _, _, _. split; [exact Hc|]. cbn [set_nodes nodes].
      pose proof (lookup_lt_Some _ _ _ Hn) as Hlt.
      split; [by apply tree_inv_added|].
      split; [by rewrite lookup_added, decide_True|].
      split; [lia|]. split.
      + intros i m op' nb' Hi Hm Hsc. rewrite lookup_added in Hm by done.
        repeat case_decide; simplify_eq.
        * cbn in Hsc. by simplify_eq.
        * cbn in Hsc. by eapply Hsz.
        * by eapply Hsz.
      + eapply bot_ready_kept; [|done].
        eapply decks_kept_trans; [done|apply decks_kept_nodes]. }
  destruct Hm as (s1 & leaf' & n' & -> & Hinv1 & Hn' & Hle & Hsz1 & Hready1).
  cbn [fst snd]. rewrite run_bind.
  destruct (simulate_ready self leaf' s1 n' Hready1 Hn') as [Hmodes Hclosed];
    [intros; by eapply Hsz1|].
  destruct (simulate_nodes self leaf' s1) as [Hn2 Hres].
  destruct (simulate self leaf' s1) as [s2 [res| |]]; cbn [fst snd] in *.
  - destruct (backpropagate_inv self leaf' res s2) as [_ Hok];
      [by rewrite Hn2|rewrite Hn2; by eapply lookup_lt_Some|by apply Hres|].
    split; [by left|]. split; [done|].
    unfold backpropagate.
    destruct (backpropagate_loop_shape (length (nodes s2)) (Some leaf') res s2) as [Hs _].
    eapply scenarios_sized_shape; [done|]. by rewrite Hn2.
  - rewrite Hn2. split; [|split; [|done]].
    + destruct Hmodes as [[r Hr]|Hr]; [done|right; congruence].
    + intros Hcl. by destruct (Hclosed Hcl).
  - rewrite Hn2. split; [|split; [|done]].
    + by destruct Hmodes as [[r Hr]|Hr].
    + intros Hcl. by destruct (Hclosed Hcl).
Qed.

Lemma search_loop_ready self start_time time_limit ticks : ∀ sims s,
  log_ratio_not_negative →
  tree_inv (nodes s) → (bot_root self < length (nodes s))%nat →
  bot_ready self s → scenarios_sized self (nodes s) →
  let run := search_loop self start_time time_limit ticks sims s in
  (∀ e, run.2 = Raise e → e = IndexError) ∧
  (table_closed (hand_ranks (bot_evaluator self)) →
   (iterations_run start_time time_limit ticks < length ticks)%nat →
   ∃ sims', run.2 = Ok sims').
Proof.
  induction ticks as [|now ticks IH]; intros sims s Hlog Hinv Hroot Hready Hsz;
    cbn [search_loop iterations_run length].
  { split; [done|]. lia. }
  destruct (f_lt _ _); [|split; [done|]; unfold ret; eauto].
  rewrite run_bind.
  destruct (search_iteration_ready self s Hlog Hinv Hroot Hready Hsz)
    as (Hmodes & Hclosed & Hsz1).
  pose proof (search_iteration_inv self s Hinv) as Hinv1.
  pose proof (search_iteration_kept self s) as Hk.
  pose proof (search_iteration_grows self s) as Hg.
  destruct (search_iteration self s) as [s1 [[]|e|]]; cbn [fst snd] in *.
  - destruct (lookup_lt_is_Some_2 _ _ Hroot) as [r Hr].
    destruct (Hg _ _ Hr) as (r' & Hr' & _).
    destruct (IH (sims + 1) s1) as [IH1 IH2];
      [done|done|by eapply lookup_lt_Some|by eapply bot_ready_kept|done|].
    split; [done|]. intros Hcl Hlt. apply IH2; [done|lia].
  - split; [intros e' [= <-]; by destruct Hmodes as [?|[= ->]]|].
    intros Hcl. by specialize (Hclosed Hcl).
  - by destruct Hmodes.
Qed.

Lemma search_ready self start_time ticks time_limit s :
  log_ratio_not_negative →
  tree_inv (nodes s) → (bot_root self < length (nodes s))%nat →
  bot_ready self s → scenarios_sized self (nodes s) →
  let run := search self (start_time :: ticks) time_limit s in
  (∀ e, run.2 = Raise e → e = IndexError) ∧
  (table_closed (hand_ranks (bot_evaluator self)) →
   (iterations_run start_time time_limit ticks < length ticks)%nat →
   ∃ p, run.2 = Ok p).
Proof.
  intros Hlog Hinv Hroot Hready Hsz. cbn zeta.
  destruct (search_loop_ready self start_time time_limit ticks 0 s
              Hlog Hinv Hroot Hready Hsz) as [Hraise Hruns].
  pose proof (search_loop_grows self start_time time_limit ticks 0 s) as Hg.
  destruct (lookup_lt_is_Some_2 _ _ Hroot) as [r Hr].
  destruct (Hg _ _ Hr) as (r' & Hr' & _). clear Hg.
  unfold search. rewrite run_bind.
  destruct (search_loop self start_time time_limit ticks 0 s) as [s1 [sims|e|]];
    cbn [fst snd] in *.
  - rewrite (run_get_node _ _ _ _ Hr'). unfold ret. cbn [fst snd]. split; [done|eauto].
  - split; [intros e' [= <-]; by apply Hraise|].
    intros Hcl Hlt. by destruct (Hruns Hcl Hlt).
  - split; [done|]. intros Hcl Hlt. by destruct (Hruns Hcl Hlt).
Qed.

(** X15. A bot that can play (2 cards in hand, at most 5 on the board, all
    of values 1..52, and a deck of valid cards with enough of them), on a
    tree whose scenarios have the sizes the bot needs, runs an iteration
    that ends normally or with an IndexError of the table of the evaluator,
    never another exception, when the logarithm of a ratio of visit counts
    is never negative; so do [search] and [make_decision].  With a table
    whose entries all lead back into it, the iteration ends normally, and
    once a reading of the clock is past the limit [search] returns a
    probability and [make_decision] its decision. *)
Theorem search_fails_only_on_table self start_time ticks time_limit threshold s :
  log_ratio_not_negative →
  tree_inv (nodes s) → (bot_root self < length (nodes s))%nat →
  bot_ready self s → scenarios_sized self (nodes s) →
  let run := search self (start_time :: ticks) time_limit s in
  let decision := make_decision self (start_time :: ticks) time_limit threshold s in
  ((search_iteration self s).2 = Ok tt ∨
   (search_iteration self s).2 = Raise IndexError) ∧
  (∀ e, run.2 = Raise e → e = IndexError) ∧
  (∀ e, decision.2 = Raise e → e = IndexError) ∧
  (table_closed (hand_ranks (bot_evaluator self)) →
   (search_iteration self s).2 = Ok tt ∧
   ((iterations_run start_time time_limit ticks < length ticks)%nat →
    ∃ p, run.2 = Ok p ∧
      decision.2 = Ok (PyStr (if f_le threshold p then "STAY" else "FOLD")%string))).
Proof.
  intros Hlog Hinv Hroot Hready Hsz. cbn zeta.
  destruct (search_iteration_ready self s Hlog Hinv Hroot Hready Hsz)
    as (Hmodes & Hclosed & _).
  destruct (search_ready self start_time ticks time_limit s Hlog Hinv Hroot Hready Hsz)
    as [Hraise Hruns].
  unfold make_decision. rewrite run_bind.
  destruct (search self (start_time :: ticks) time_limit s) as [s1 [p|e|]];
    cbn [fst snd] in *.
  - unfold ret. cbn [snd]. split; [done|]. split; [done|]. split; [done|].
    intros Hcl. split; [by apply Hclosed|]. eauto.
  - split; [done|]. split; [done|]. split; [intros e' [= <-]; by apply Hraise|].
    intros Hcl. split; [by apply Hclosed|]. intros Hlt. by destruct (Hruns Hcl Hlt).
  - split; [done|]. split; [done|]. split; [done|].
    intros Hcl. split; [by apply Hclosed|]. intros Hlt. by destruct (Hruns Hcl Hlt).
Qed.

End Ready.

(** ** The script *)

Lemma run_bind_Ok {A B} (m : M A) (k : A → M B) s s' a :
  m s = (s', Ok a) → (x ←$ m; k x) s = k a s'.
Proof. intros Hm. unfold bind. by rewrite Hm. Qed.

Lemma HandEvaluator_init_fails fs fname :
  HandEvaluator_init fs fname ≠ Stuck ∧
  (fs fname = None → HandEvaluator_init fs fname = Raise (FileNotFoundError fname)) ∧
  ∀ e, HandEvaluator_init fs fname = Raise e →
    e = FileNotFoundError fname ∨ e = StructError.
Proof.
  unfold HandEvaluator_init, struct_unpack_I.
  destruct (fs fname) as [data|];
    [|split; [done|]; split; [done|]; intros e [= <-]; by left].
  case_bool_decide; cbn [obind]; repeat split; try done.
  intros e [= <-]. by right.
Qed.

Lemma deal_step deck n s cards :
  table_set s deck cards → 0 ≤ n ≤ Z.of_nat (length cards) →
  ∃ dealt rest s', deal deck n s = (s', Ok dealt) ∧ table_set s' deck rest ∧
    dealt ++ rest = cards ∧ length dealt = Z.to_nat n.
Proof.
  intros [Hinv Hd] Hn. rewrite (deal_run _ _ _ _ Hd).
  destruct (deal_cards_cases cards n) as [[Hlt _]|(_ & dealt & rest & -> & Happ & Hlen)];
    [lia|].
  exists dealt, rest. eexists. split; [done|]. split.
  - split; [done|]. cbn [set_decks decks snd].
    apply list_lookup_insert_eq. by eapply lookup_lt_Some.
  - split; [done|]. rewrite Hlen. by destruct (Z.leb_spec 0 n); [|lia].
Qed.

Lemma PokerBot_init_run hand board deck evaluator s :
  PokerBot_init hand board deck evaluator s =
    (set_nodes (nodes s ++ [MCTSNode_init hand board None None]) s,
     Ok {| bot_hand := hand; bot_board := board; bot_deck := deck;
           bot_evaluator := evaluator; bot_root := length (nodes s) |}).
Proof. done. Qed.

Section Script.
Context `{Float} `{TupleHash}.

Lemma street_step hand board deck evaluator clock threshold s cards :
  log_ratio_not_negative → table_set s deck cards → Forall card_ok cards →
  length hand = 2%nat → (length board ≤ 5)%nat →
  Forall converts_in_range (hand ++ board) →
  2 + Z.max 0 (5 - Z.of_nat (length board)) ≤ Z.of_nat (length cards) →
  ∃ s' o,
    make_decision {| bot_hand := hand; bot_board := board; bot_deck := Some deck;
                     bot_evaluator := evaluator; bot_root := length (nodes s) |}
      clock (f_of_int 10) threshold
      (set_nodes (nodes s ++ [MCTSNode_init hand board None None]) s) = (s', o) ∧
    table_set s' deck cards ∧
    (∀ e, o = Raise e → e = IndexError) ∧
    (∀ d, o = Ok d → is_FOLD d = true ∨ d = PyStr "STAY") ∧
    (table_closed (hand_ranks evaluator) → clock_runs_out (f_of_int 10) clock →
     ∃ d, o = Ok d).
Proof.
  intros Hlog [Hinv Hd] Hok Hh Hb Hconv Hlen.
  set (self := {| bot_hand := hand; bot_root := _ |}).
  set (s1 := set_nodes _ s).
  assert (Hinv1 : tree_inv (nodes s1)).
  { pose proof (PokerBot_init_inv hand board (Some deck) evaluator s Hinv) as Hi.
    by rewrite PokerBot_init_run in Hi. }
  assert (Hroot : (bot_root self < length (nodes s1))%nat).
  { subst self s1. cbn. rewrite length_app. cbn. lia. }
  assert (Hready : bot_ready self s1).
  { do 3 (split; [done|]). by exists deck, cards. }
  assert (Hsz : scenarios_sized self (nodes s1)).
  { intros i n op nb Hi Hn Hsc. subst self s1. cbn in Hi, Hn.
    apply lookup_app_Some in Hn as [Hn|[_ Hn]].
    - apply lookup_lt_Some in Hn. lia.
    - apply list_lookup_singleton_Some in Hn as [_ <-]. done. }
  pose proof (make_decision_state self clock (f_of_int 10) threshold s1) as Hst.
  pose proof (search_inv self clock (f_of_int 10) s1 Hinv1) as Hinv2.
  pose proof (search_kept self clock (f_of_int 10) s1) as [Hk _].
  destruct (make_decision self clock (f_of_int 10) threshold s1) as [s' o] eqn:Hmd.
  cbn [fst] in Hst. subst s'. eexists _, o. split; [done|].
  split; [split; [done|by apply Hk]|].
  assert (Ho : o = (make_decision self clock (f_of_int 10) threshold s1).2)
    by by rewrite Hmd.
  rewrite Ho. clear Ho Hmd o. unfold make_decision. rewrite run_bind.
  destruct clock as [|start_time ticks]; [by repeat split|].
  destruct (search_ready self start_time ticks (f_of_int 10) s1
              Hlog Hinv1 Hroot Hready Hsz) as [Hraise Hruns].
  destruct (search self (start_time :: ticks) (f_of_int 10) s1) as [s2 [p|e|]];
    cbn [fst snd] in *.
  - unfold ret. cbn [snd]. split; [done|]. split; [|eauto].
    intros d [= <-]. destruct (f_le threshold p); eauto.
  - split; [intros e' [= <-]; by apply Hraise|]. split; [done|].
    intros Hcl Hlt. by destruct (Hruns Hcl Hlt).
  - split; [done|]. split; [done|]. intros Hcl Hlt. by destruct (Hruns Hcl Hlt).
Qed.

Lemma main_modes fs half clock1 clock2 clock3 s evaluator :
  log_ratio_not_negative → tree_inv (nodes s) →
  HandEvaluator_init fs "HandRanks.dat" = Ok evaluator →
  let o := (main fs half clock1 clock2 clock3 s).2 in
  (∀ e, o = Raise e → e = IndexError) ∧
  (∀ r, o = Ok r → verdict r) ∧
  (table_closed (hand_ranks evaluator) →
   clock_runs_out (f_of_int 10) clock1 → clock_runs_out (f_of_int 10) clock2 →
   clock_runs_out (f_of_int 10) clock3 → ∃ r, o = Ok r).
Proof.
  intros Hlog Hinv Hev. cbn zeta. unfold main.
  rewrite (run_bind_Ok _ _ s s evaluator) by (unfold lift; by rewrite Hev).
  rewrite (run_bind_Ok _ _ _ _ _ (Deck_init_run s)).
  set (deck := length (decks s)). set (s1 := set_decks _ s).
  assert (Hd1 : decks s1 !! deck = Some deck52).
  { subst s1 deck. cbn. by rewrite lookup_app_r, Nat.sub_diag by lia. }
  destruct (shuffle_permutes_aux deck s1 deck52 Hd1) as (cards & Hsh & Hperm).
  rewrite (run_bind_Ok _ _ _ _ _ Hsh). clear Hsh.
  set (s2 := {| nodes := nodes s1; decks := _; rng := _ |}).
  assert (Hts : table_set s2 deck cards).
  { split; [done|]. subst s2. cbn [decks].
    apply list_lookup_insert_eq. by eapply lookup_lt_Some. }
  destruct deck52_full as (Hlen52 & _ & Hok52 & _).
  assert (Hlen : length cards = 52%nat) by by rewrite Hperm.
  assert (Hok : Forall card_ok cards) by by rewrite Hperm.
  clearbody s2. clear Hd1 Hperm Hlen52 Hok52. clearbody deck. clear s1 Hinv.
  destruct (deal_step deck 2 s2 cards Hts) as (hand & rest1 & s3 & Hdeal & Hts1 & <- & Hh);
    [lia|]. rewrite (run_bind_Ok _ _ _ _ _ Hdeal). clear Hdeal Hts s2.
  rewrite length_app in Hlen. apply Forall_app in Hok as [Hokh Hok].
  destruct (deal_step deck 2 s3 rest1 Hts1) as (op & rest2 & s4 & Hdeal & Hts2 & <- & Hop);
    [lia|]. rewrite (run_bind_Ok _ _ _ _ _ Hdeal). clear Hdeal Hts1 s3.
  rewrite length_app in Hlen. apply Forall_app in Hok as [Hoko Hok].
  change (Z.to_nat 2) with 2%nat in *.
  pose proof (converts_OfCard _ Hokh) as Hch.
  (* before the flop *)
  rewrite (run_bind_Ok _ _ _ _ _ (PokerBot_init_run _ _ _ _ _)).
  destruct (street_step (OfCard <$> hand) [] deck evaluator clock1 half s4 rest2)
    as (s5 & o1 & Hmd & Hts3 & Hr1 & Hdec1 & Hfin1);
    [done|done|done|by rewrite length_fmap|cbn; lia|by rewrite app_nil_r|cbn; lia|].
  rewrite run_bind, Hmd. cbn [fst snd]. clear Hmd Hts2 s4.
  destruct o1 as [d1|e1|].
  2: { split; [intros e [= <-]; by apply Hr1|]. split; [done|].
       intros Hcl Hc1 _ _. by destruct (Hfin1 Hcl Hc1). }
  2: { split; [done|]. split; [done|].
       intros Hcl Hc1 _ _. by destruct (Hfin1 Hcl Hc1). }
  destruct (Hdec1 d1 eq_refl) as [Hfold| ->].
  { rewrite Hfold. unfold ret. cbn [snd].
    split; [done|]. split; [intros r [= <-]; by left|eauto]. }
  change (is_FOLD (PyStr "STAY")) with false. cbv iota. clear Hr1 Hdec1 Hfin1.
  (* the flop *)
  destruct (deal_step deck 3 s5 rest2 Hts3) as (flop & rest3 & s6 & Hdeal & Hts4 & <- & Hf);
    [lia|]. rewrite (run_bind_Ok _ _ _ _ _ Hdeal). clear Hdeal Hts3 s5.
  rewrite length_app in Hlen. apply Forall_app in Hok as [Hokf Hok].
  change (Z.to_nat 3) with 3%nat in *.
  rewrite (run_bind_Ok _ _ _ _ _ (PokerBot_init_run _ _ _ _ _)).
  destruct (street_step (OfCard <$> hand) (OfCard <$> flop) deck evaluator clock2 half
              s6 rest3)
    as (s7 & o2 & Hmd & Hts5 & Hr2 & Hdec2 & Hfin2);
    [done|done|done|by rewrite length_fmap|rewrite length_fmap; lia
    |rewrite Forall_app; split; [done|by apply converts_OfCard]
    |rewrite length_fmap; lia|].
  rewrite run_bind, Hmd. cbn [fst snd]. clear Hmd Hts4 s6.
  destruct o2 as [d2|e2|].
  2: { split; [intros e [= <-]; by apply Hr2|]. split; [done|].
       intros Hcl _ Hc2 _. by destruct (Hfin2 Hcl Hc2). }
  2: { split; [done|]. split; [done|].
       intros Hcl _ Hc2 _. by destruct (Hfin2 Hcl Hc2). }
  destruct (Hdec2 d2 eq_refl) as [Hfold| ->].
  { rewrite Hfold. unfold ret. cbn [snd].
    split; [done|]. split; [intros r [= <-]; by left|eauto]. }
  change (is_FOLD (PyStr "STAY")) with false. cbv iota. clear Hr2 Hdec2 Hfin2.
  (* the turn *)
  destruct (deal_step deck 1 s7 rest3 Hts5) as (turn & rest4 & s8 & Hdeal & Hts6 & <- & Ht);
    [lia|]. rewrite (run_bind_Ok _ _ _ _ _ Hdeal). clear Hdeal Hts5 s7.
  rewrite length_app in Hlen. apply Forall_app in Hok as [Hokt Hok].
  change (Z.to_nat 1) with 1%nat in *.
  rewrite (run_bind_Ok _ _ _ _ _ (PokerBot_init_run _ _ _ _ _)).
  destruct (street_step (OfCard <$> hand) (OfCard <$> (flop ++ turn)) deck evaluator
              clock3 half s8 rest4)
    as (s9 & o3 & Hmd & Hts7 & Hr3 & Hdec3 & Hfin3);
    [done|done|done|by rewrite length_fmap|rewrite length_fmap, length_app; lia
    |rewrite Forall_app; split; [done|apply converts_OfCard; by rewrite Forall_app]
    |rewrite length_fmap, length_app; lia|].
  rewrite run_bind, Hmd. cbn [fst snd]. clear Hmd Hts6 s8.
  destruct o3 as [d3|e3|].
  2: { split; [intros e [= <-]; by apply Hr3|]. split; [done|].
       intros Hcl _ _ Hc3. by destruct (Hfin3 Hcl Hc3). }
  2: { split; [done|]. split; [done|].
       intros Hcl _ _ Hc3. by destruct (Hfin3 Hcl Hc3). }
  destruct (Hdec3 d3 eq_refl) as [Hfold| ->].
  { rewrite Hfold. unfold ret. cbn [snd].
    split; [done|]. split; [intros r [= <-]; by left|eauto]. }
  change (is_FOLD (PyStr "STAY")) with false. cbv iota. clear Hr3 Hdec3 Hfin3.
  (* the river and the showdown *)
  destruct (deal_step deck 1 s9 rest4 Hts7) as (river & rest5 & s10 & Hdeal & _ & <- & Hrv);
    [lia|]. rewrite (run_bind_Ok _ _ _ _ _ Hdeal). clear Hdeal Hts7 s9.
  apply Forall_app in Hok as [Hokr _]. change (Z.to_nat 1) with 1%nat in *.
  assert (Hokb : Forall card_ok (flop ++ turn ++ river)) by by rewrite !Forall_app.
  destruct (compare_hands_in_range evaluator (OfCard <$> hand) (OfCard <$> op)
              (OfCard <$> (flop ++ turn ++ river))) as [Hmodes Hclosed].
  { by rewrite length_fmap. }
  { by rewrite length_fmap. }
  { rewrite length_fmap, !length_app. lia. }
  { rewrite <-fmap_app. apply converts_OfCard. by rewrite Forall_app. }
  { rewrite <-fmap_app. apply converts_OfCard. by rewrite Forall_app. }
  rewrite run_bind. unfold lift. cbn [fst snd].
  destruct (compare_hands _ _ _ _) as [[[result my_eval] opp_eval]|e|].
  - unfold ret. cbn [snd]. split; [done|]. split; [|eauto].
    intros r [= <-]. right.
    destruct (result =? 1); [exists my_eval.2; eauto|].
    destruct (result =? -1); [exists opp_eval.2; eauto|exists my_eval.2; eauto].
  - destruct Hmodes as [[cmp [=]]|[= ->]].
    split; [by intros e [= <-]|]. split; [done|].
    intros Hcl _ _ _. by destruct (Hclosed Hcl).
  - by destruct Hmodes as [[cmp [=]]|[=]].
Qed.

(** X16. The script of main.py, started on an empty store.  Without the file
    HandRanks.dat it raises FileNotFoundError and nothing is dealt.
    Whatever the shuffle and the searches do, it can fail in three ways
    only, when the logarithm of a ratio of visit counts is never negative:
    the file is missing, its size is no multiple of 4, or the table sends
    the evaluator out of its bounds; the 9 cards it deals are always there.
    When it ends normally it has left with [exit(0)] or printed one of its
    three verdicts.  With a table whose entries all lead back into it and
    clocks that reach the time limit, it ends normally. *)
Theorem main_plays_one_hand fs half clock1 clock2 clock3 tape :
  log_ratio_not_negative →
  let start := {| nodes := []; decks := []; rng := tape |} in
  let run := main fs half clock1 clock2 clock3 start in
  (fs "HandRanks.dat"%string = None →
   run = (start, Raise (FileNotFoundError "HandRanks.dat"))) ∧
  (∀ e, run.2 = Raise e →
     e = FileNotFoundError "HandRanks.dat" ∨ e = StructError ∨ e = IndexError) ∧
  (∀ r, run.2 = Ok r → verdict r) ∧
  (∀ evaluator, HandEvaluator_init fs "HandRanks.dat" = Ok evaluator →
     table_closed (hand_ranks evaluator) →
     clock_runs_out (f_of_int 10) clock1 → clock_runs_out (f_of_int 10) clock2 →
     clock_runs_out (f_of_int 10) clock3 → ∃ r, run.2 = Ok r).
Proof.
  intros Hlog. cbn zeta. set (start := {| nodes := []; decks := []; rng := tape |}).
  destruct (HandEvaluator_init_fails fs "HandRanks.dat") as (Hns & Hnone & Hfails).
  destruct (HandEvaluator_init fs "HandRanks.dat") as [evaluator|e0|] eqn:Hev; [| |done].
  - destruct (main_modes fs half clock1 clock2 clock3 start evaluator Hlog tree_inv_nil Hev)
      as (Hraise & Hok & Hfin).
    split; [intros Hfs; by specialize (Hnone Hfs)|].
    split; [intros e He; right; right; by apply Hraise|].
    split; [done|]. intros ev [= <-]. apply Hfin.
  - assert (Hrun : main fs half clock1 clock2 clock3 start = (start, Raise e0)).
    { unfold main. rewrite run_bind. unfold lift. cbn [fst snd]. by rewrite Hev. }
    rewrite Hrun. cbn [snd].
    split; [intros Hfs; specialize (Hnone Hfs); congruence|].
    split; [intros e [= <-]; destruct (Hfails e0 eq_refl) as [->| ->]; eauto|].
    by split.
Qed.

End Script.

(** ** One simulation *)

(** X17. [simulate] on a node that carries a scenario reads no card and no
    random number and leaves the store as it was.  It returns 1 only when
    the seven cards of the bot evaluate strictly above the seven of the
    opponent: a tie counts as a loss, like a defeat.  Hands that are not of
    2 cards, and a board that the cards of the scenario do not bring to 5,
    raise the ValueError of [compare_hands].  On a node without scenario,
    with a deck that is missing or has fewer than 2 cards, it returns 0 and
    changes nothing. *)
Theorem simulate_counts_strict_wins self node s n :
  nodes s !! node = Some n →
  (scenario n = None → deck_exhausted self s → simulate self node s = (s, Ok 0)) ∧
  (∀ op nb, scenario n = Some (op, nb) →
     (simulate self node s).1 = s ∧
     (length (bot_hand self) ≠ 2%nat ∨ length op ≠ 2%nat →
      (simulate self node s).2 = Raise (ValueError HandsMustBe2Cards)) ∧
     (length (bot_hand self) = 2%nat → length op = 2%nat →
      (length (bot_board self) + length nb ≠ 5)%nat →
      (simulate self node s).2 = Raise (ValueError BoardMustBe5Cards)) ∧
     ∀ e1 e2,
       length (bot_hand self) = 2%nat → length op = 2%nat →
       (length (bot_board self) + length nb = 5)%nat →
       evaluate_hand (bot_evaluator self)
         (bot_hand self ++ bot_board self ++ (OfCard <$> nb)) = Ok e1 →
       evaluate_hand (bot_evaluator self)
         ((OfCard <$> op) ++ bot_board self ++ (OfCard <$> nb)) = Ok e2 →
       (simulate self node s).2 = Ok (if e2.1.1.1 <? e1.1.1.1 then 1 else 0)).
Proof.
  intros Hn. unfold simulate. rewrite (run_get_node _ _ _ _ Hn). split.
  - intros Hsc Hex. by rewrite Hsc, run_bind, (generate_scenario_exhausted _ _ Hex).
  - intros op nb Hsc. rewrite Hsc, run_bind. unfold bind, lift, ret. cbn [fst snd].
    split; [by destruct (compare_hands _ _ _ _)|]. split; [|split].
    + intros Hlen. unfold compare_hands. rewrite length_fmap.
      repeat case_bool_decide; cbn [orb]; try done; by destruct Hlen.
    + intros Hh Ho Hb. unfold compare_hands. rewrite length_app, !length_fmap.
      repeat case_bool_decide; cbn [orb]; try done; lia.
    + intros e1 e2 Hh Ho Hb He1 He2.
      rewrite (compare_hands_run _ _ _ _ e1 e2);
        [|done|by rewrite length_fmap|rewrite length_app, length_fmap; lia|done|done].
      cbn [fst snd]. destruct (e2.1.1.1 <? e1.1.1.1); [done|].
      by destruct (e1.1.1.1 <? e2.1.1.1).
Qed.

Lemma simulate_counts_strict_wins_witness :
  (simulate demo_bot 1%nat small_state).2 = Ok 0 ∧
  (simulate wide_bot 1%nat small_state).2 = Ok 1.
Proof.
  split.
  - apply (proj2 (proj2 (proj2 (proj2 (simulate_counts_strict_wins demo_bot 1%nat small_state
             {| hand := [OfStr "As"; OfStr "Ah"]; board := []; parent := Some 0%nat;
                scenario := Some scenario_a; visits := 1; wins := 1; children := [] |}
             eq_refl) scenario_a.1 scenario_a.2 eq_refl)))
             (11, 11, 0, "Unknown"%string) (11, 11, 0, "Unknown"%string)
             eq_refl eq_refl eq_refl
             ltac:(vm_compute; reflexivity) ltac:(vm_compute; reflexivity)).
  - apply (proj2 (proj2 (proj2 (proj2 (simulate_counts_strict_wins wide_bot 1%nat small_state
             {| hand := [OfStr "As"; OfStr "Ah"]; board := []; parent := Some 0%nat;
                scenario := Some scenario_a; visits := 1; wins := 1; children := [] |}
             eq_refl) scenario_a.1 scenario_a.2 eq_refl)))
             (3047, 3047, 0, "Unknown"%string) (351, 351, 0, "Unknown"%string)
             eq_refl eq_refl eq_refl
             ltac:(vm_compute; reflexivity) ltac:(vm_compute; reflexivity)).
Defined.

(** ** The statements at work on the examples *)

Lemma fresh_tree_inv : tree_inv (nodes fresh_state).
Proof.
  exact (PokerBot_init_inv [OfStr "As"; OfStr "Ah"] [] (Some 0%nat) {| hand_ranks := [] |}
           {| nodes := []; decks := [nine_cards]; rng := demo_tape |} tree_inv_nil).
Qed.

Lemma fresh_single_file : single_file (nodes fresh_state).
Proof. intros [|i] n Hi; simplify_eq/=. lia. Qed.

Lemma demo_bot_ready : bot_ready demo_bot fresh_state.
Proof.
  split; [done|]. split; [simpl; lia|]. split.
  { repeat (apply Forall_cons_2; [eexists; split; [reflexivity|simpl; lia]|]).
    apply Forall_nil_2. }
  exists 0%nat, nine_cards. split; [done|]. split; [done|]. split; [|by vm_compute].
  repeat (apply Forall_cons_2; [unfold card_ok; simpl; lia|]). apply Forall_nil_2.
Qed.

Lemma fresh_scenarios_sized : scenarios_sized demo_bot (nodes fresh_state).
Proof. intros [|i] n op nb _ Hn Hsc; simplify_eq/=. Qed.

Lemma search_is_single_file_witness :
  single_file (nodes (search demo_bot demo_clock (Fin (9 # 2)) fresh_state).1).
Proof.
  apply (proj2 (@search_is_single_file qfloat_Float sum_TupleHash demo_bot fresh_state)
           fresh_single_file).
Defined.

Lemma search_counts_iterations_witness :
  ∃ r', nodes (search demo_bot demo_clock (Fin (9 # 2)) small_state).1 !! 0%nat = Some r' ∧
    visits r' = 2 + 4 ∧ 1 ≤ wins r' ≤ 1 + 4 ∧
    Fin (1 # 6) = if 0 <? visits r' then f_truediv (wins r') (visits r') else f_of_int 0.
Proof.
  apply (proj2 (@search_counts_iterations qfloat_Float sum_TupleHash demo_bot
                  (Fin 0) [Fin 1; Fin 2; Fin 3; Fin 4; Fin 5; Fin 6] (Fin (9 # 2))
                  small_state
                  {| hand := [OfStr "As"; OfStr "Ah"]; board := []; parent := None;
                     scenario := None; visits := 2; wins := 1;
                     children := [(scenario_key scenario_a, 1%nat);
                                  (scenario_key scenario_b, 2%nat)] |}
                  (@search qfloat_Float sum_TupleHash demo_bot demo_clock (Fin (9 # 2))
                     small_state).1 (Fin (1 # 6))
                  small_tree_inv eq_refl ltac:(vm_compute; reflexivity))).
Defined.

Lemma search_on_exhausted_deck_witness :
  ∃ s', search demo_bot demo_clock (Fin (9 # 2)) one_card_state
          = (s', Ok (f_truediv 0 4)) ∧
    nodes s' = [Nat.iter 4 (bump 0) (MCTSNode_init [OfStr "As"; OfStr "Ah"] [] None None)] ∧
    decks s' = decks one_card_state ∧ rng s' = rng one_card_state.
Proof.
  apply (proj2 (@search_on_exhausted_deck qfloat_Float sum_TupleHash demo_bot
                  (Fin 0) [Fin 1; Fin 2; Fin 3; Fin 4; Fin 5; Fin 6] (Fin (9 # 2))
                  one_card_state (MCTSNode_init [OfStr "As"; OfStr "Ah"] [] None None)
                  (ex_intro _ [ {| value := 1 |} ] (conj eq_refl (le_n 2)))
                  eq_refl eq_refl eq_refl eq_refl)).
  vm_compute. lia.
Defined.

Lemma two_card_deck_short : deck_short demo_bot two_card_state.
Proof.
  exists 0%nat, [ {| value := 1 |}; {| value := 2 |} ].
  split; [reflexivity|]. split; [reflexivity|]. split; [|vm_compute; split; congruence].
  repeat (apply Forall_cons_2; [unfold card_ok; simpl; lia|]). apply Forall_nil_2.
Qed.

Lemma search_on_short_deck_witness :
  (make_decision demo_bot demo_clock (Fin (9 # 2)) (Fin (1 # 2)) two_card_state).2
    = Raise (ValueError NotEnoughCards).
Proof.
  apply (proj2 (proj2 (proj2 (@search_on_short_deck qfloat_Float sum_TupleHash demo_bot
                  (Fin 0) (Fin 1) [Fin 2; Fin 3; Fin 4; Fin 5; Fin 6] (Fin (9 # 2))
                  (Fin (1 # 2)) two_card_state
                  (MCTSNode_init [OfStr "As"; OfStr "Ah"] [] None None)
                  two_card_deck_short eq_refl eq_refl eq_refl)) ltac:(vm_compute; reflexivity))).
Defined.

Lemma search_fails_only_on_table_witness :
  ∃ p, (search demo_bot demo_clock (Fin (9 # 2)) fresh_state).2 = Ok p ∧
    (make_decision demo_bot demo_clock (Fin (9 # 2)) (Fin (1 # 2)) fresh_state).2
      = Ok (PyStr (if f_le (Fin (1 # 2)) p then "STAY" else "FOLD")%string).
Proof.
  apply (proj2 (proj2 (proj2 (proj2 (@search_fails_only_on_table qfloat_Float sum_TupleHash
           demo_bot (Fin 0) [Fin 1; Fin 2; Fin 3; Fin 4; Fin 5; Fin 6] (Fin (9 # 2))
           (Fin (1 # 2)) fresh_state qfloat_log_ratio_not_negative fresh_tree_inv
           (le_n 1) demo_bot_ready fresh_scenarios_sized))) demo_table_closed)).
  vm_compute. lia.
Defined.

Lemma main_plays_one_hand_witness :
  ∃ r, (main demo_files (Fin (1 # 2)) long_clock long_clock long_clock
          {| nodes := []; decks := []; rng := demo_tape |}).2 = Ok r.
Proof.
  apply (proj2 (proj2 (proj2 (@main_plays_one_hand qfloat_Float sum_TupleHash
           demo_files (Fin (1 # 2)) long_clock long_clock long_clock demo_tape
           qfloat_log_ratio_not_negative)))
           {| hand_ranks := demo_table |} ltac:(vm_compute; reflexivity) demo_table_closed);
    vm_compute; lia.
Defined.
